(** * The two Tetris engines of the Kiro tutorial, embedded in Rocq

    The repository ships the same game twice:
    - [MyWork]   : my-work/tetris-game/script.js  (classes [Tetromino],
                   [GameBoard], [GameState]);
    - [Examples] : examples/tetris/script.js      (class [TetrisGame]).

    JavaScript numbers are modelled by [Z]: every quantity below (indices,
    scores, levels, line counts) is an integer far below 2^53, where the
    arithmetic of doubles is exact.  The one genuinely fractional quantity,
    the drop speed of [MyWork.GameState], is a double ([float], the
    binary64 numbers of Rocq); the percentage of [getLevelProgress], a
    multiple of ten, is kept in [Q].

    Arrays are lists.  Reads that JavaScript performs inside the array
    bounds are list lookups; the statements below carry the shape
    hypotheses ([validateBoard], [board_ok], [matrix4]) under which every
    read of the source stays inside its array. *)

From Stdlib Require Import Floats.
From Stdlib Require Import ZArith QArith Qminmax Qpower Lia Lqa Bool.
From stdpp Require Import base list strings.

Local Open Scope Z_scope.

(** ** JavaScript array access with a numeric index *)

(** [a[i]]: [undefined] (here [None]) outside the array. *)
Definition js_index {A} (l : list A) (i : Z) : option A :=
  if i <? 0 then None else l !! Z.to_nat i.

(** The pairs (index, element) a [for (let i = 0; i < a.length; i++)] loop
    visits, in order. *)
Definition indexed {A} (l : list A) : list (Z * A) :=
  imap (fun i a => (Z.of_nat i, a)) l.

(** The triples (row, col, value) visited by the nested loops
    [for row < m.length, for col < m[row].length]. *)
Definition cells {A} (m : list (list A)) : list (Z * Z * A) :=
  mjoin (map (fun '(r, row) => map (fun '(c, v) => (r, c, v)) (indexed row))
             (indexed m)).

(** [m[r][c]] for a matrix of numbers, read inside the bounds; outside
    them the model answers 0. *)
Definition at2 (m : list (list Z)) (r c : Z) : Z :=
  default 0 (js_index m r ≫= fun row => js_index row c).

(** [m[r][c] = v], for [r], [c] inside the bounds. *)
Definition set2 {A} (m : list (list A)) (r c : Z) (v : A) : list (list A) :=
  if (r <? 0) || (c <? 0) then m
  else alter (fun row => <[Z.to_nat c := v]> row) (Z.to_nat r) m.

(** ** JavaScript doubles *)

(** The rational number a double stands for; [None] for NaN and the
    infinities.  [Prim2SF] is the sign, mantissa and exponent of a double. *)
Definition SF2Q (f : spec_float) : option Q :=
  match f with
  | S754_zero _ => Some 0%Q
  | S754_finite s m e =>
    Some ((if s then - inject_Z (Zpos m) else inject_Z (Zpos m)) * 2 ^ e)%Q
  | _ => None
  end.

Definition F2Q (x : float) : option Q := SF2Q (Prim2SF x).

(** [Math.max(x, y)]: NaN when an argument is NaN, else the larger one,
    with [+0] above [-0]. *)
Definition Math_max (x y : float) : float :=
  if is_nan x || is_nan y then nan
  else if (x <? y)%float then y
  else if (y <? x)%float then x
  else if get_sign x then y else x.

(** The record [SpecFloat.shr] holds after shifting [k] bits out of the
    integer [M]: the quotient, the last bit shifted out (round bit) and
    whether a lower bit was set (sticky bit). *)
Definition shr_shifted (M : Z) (k : Z) (mrs : shr_record) : Prop :=
  shr_m mrs = M / 2 ^ k
  /\ exists t, 2 * (M mod 2 ^ k) = (if shr_r mrs then 2 ^ k else 0) + 2 * t
               /\ 0 <= t /\ 2 * t < 2 ^ k
               /\ shr_s mrs = negb (t =? 0).

(** * my-work/tetris-game/script.js *)
Module MyWork.

(** ** CONFIG *)
Definition BOARD_WIDTH : Z := 10.
Definition BOARD_HEIGHT : Z := 20.
Definition INITIAL_DROP_SPEED : float := 1000%float.
#[warnings="-inexact-float"]
Definition SPEED_INCREASE_RATE : float := 0.9%float.

(** ** TETROMINO_TYPES *)
Inductive TetrominoType := TI | TO | TT | TS | TZ | TJ | TL.

Abbreviation Shape := (list (list Z)).

Definition shapes (t : TetrominoType) : list Shape :=
  match t with
  | TI => [ [[1;1;1;1]];
            [[1];[1];[1];[1]];
            [[1;1;1;1]];
            [[1];[1];[1];[1]] ]
  | TO => [ [[1;1];[1;1]];
            [[1;1];[1;1]];
            [[1;1];[1;1]];
            [[1;1];[1;1]] ]
  | TT => [ [[0;1;0];[1;1;1]];
            [[1;0];[1;1];[1;0]];
            [[1;1;1];[0;1;0]];
            [[0;1];[1;1];[0;1]] ]
  | TS => [ [[0;1;1];[1;1;0]];
            [[1;0];[1;1];[0;1]];
            [[0;1;1];[1;1;0]];
            [[1;0];[1;1];[0;1]] ]
  | TZ => [ [[1;1;0];[0;1;1]];
            [[0;1];[1;1];[1;0]];
            [[1;1;0];[0;1;1]];
            [[0;1];[1;1];[1;0]] ]
  | TJ => [ [[1;0;0];[1;1;1]];
            [[1;1];[1;0];[1;0]];
            [[1;1;1];[0;0;1]];
            [[0;1];[0;1];[1;1]] ]
  | TL => [ [[0;0;1];[1;1;1]];
            [[1;0];[1;0];[1;1]];
            [[1;1;1];[1;0;0]];
            [[1;1];[0;1];[0;1]] ]
  end.

Definition color (t : TetrominoType) : string :=
  match t with
  | TI => "#00f0f0"
  | TO => "#f0f000"
  | TT => "#a000f0"
  | TS => "#00f000"
  | TZ => "#f00000"
  | TJ => "#0000f0"
  | TL => "#f0a000"
  end.

(** ** class Tetromino *)
Record Tetromino := mkTetromino { type : TetrominoType; rotation : Z }.

(** [new Tetromino(type)]; the constructor's check of the type tag is
    carried by [TetrominoType]. *)
Definition newTetromino (t : TetrominoType) : Tetromino :=
  {| type := t; rotation := 0 |}.

(** [getShape()]: [shapes[this.rotation]], [None] for [undefined]. *)
Definition getShape (p : Tetromino) : option Shape :=
  js_index (shapes (type p)) (rotation p).

Definition getColor (p : Tetromino) : string := color (type p).
Definition getType (p : Tetromino) : TetrominoType := type p.
Definition getRotation (p : Tetromino) : Z := rotation p.

(** [validateCurrentShape()] *)
Definition validateCurrentShape (p : Tetromino) : bool :=
  match getShape p with
  | None => false
  | Some shape =>
    match shape with
    | [] => false
    | row0 :: _ =>
      let expectedWidth := length row0 in
      if (expectedWidth =? 0)%nat then false
      else if negb (forallb (fun row =>
                      (length row =? expectedWidth)%nat
                      && forallb (fun cell => (cell =? 0) || (cell =? 1)) row)
                    shape) then false
      else existsb (fun row => existsb (fun cell => cell =? 1) row) shape
    end
  end.

(** [rotate()]: the new state and the returned shape; [None] in the second
    component is the thrown [Error], after the rotation was reverted. *)
Definition rotate (p : Tetromino) : Tetromino * option Shape :=
  let previousRotation := rotation p in
  let p' := {| type := type p; rotation := Z.rem (rotation p + 1) 4 |} in
  if negb (validateCurrentShape p')
  then ({| type := type p; rotation := previousRotation |}, None)
  else (p', getShape p').

(** [rotateCounterClockwise()] *)
Definition rotateCounterClockwise (p : Tetromino) : Tetromino * option Shape :=
  let previousRotation := rotation p in
  let p' := {| type := type p; rotation := Z.rem (rotation p + 3) 4 |} in
  if negb (validateCurrentShape p')
  then ({| type := type p; rotation := previousRotation |}, None)
  else (p', getShape p').

(** ** class GameBoard *)
Record GameBoard := mkGameBoard {
  width : Z;
  height : Z;
  board : list (list Z)
}.

(** [initializeBoard()] *)
Definition initializeBoard (gb : GameBoard) : GameBoard :=
  {| width := width gb; height := height gb;
     board := replicate (Z.to_nat (height gb))
                        (replicate (Z.to_nat (width gb)) 0) |}.

(** [new GameBoard(width, height)] *)
Definition newGameBoard (w h : Z) : GameBoard :=
  initializeBoard {| width := w; height := h; board := [] |}.

Definition clear (gb : GameBoard) : GameBoard := initializeBoard gb.
Definition reset (gb : GameBoard) : GameBoard := clear gb.

(** [isInBounds(row, col)] *)
Definition isInBounds (gb : GameBoard) (row col : Z) : bool :=
  (row >=? 0) && (row <? height gb) && (col >=? 0) && (col <? width gb).

(** [getCellValue(row, col)]: [None] is [null]. *)
Definition getCellValue (gb : GameBoard) (row col : Z) : option Z :=
  if (row <? 0) || (row >=? height gb) || (col <? 0) || (col >=? width gb)
  then None
  else Some (at2 (board gb) row col).

(** [setCellValue(row, col, value)] *)
Definition setCellValue (gb : GameBoard) (row col value : Z) : bool * GameBoard :=
  if (row <? 0) || (row >=? height gb) || (col <? 0) || (col >=? width gb)
  then (false, gb)
  else if value <? 0 then (false, gb)
  else (true, {| width := width gb; height := height gb;
                 board := set2 (board gb) row col value |}).

(** [isEmpty(row, col)] *)
Definition isEmpty (gb : GameBoard) (row col : Z) : bool :=
  match getCellValue gb row col with
  | None => true
  | Some value => value =? 0
  end.

(** [isFilled(row, col)] *)
Definition isFilled (gb : GameBoard) (row col : Z) : bool :=
  match getCellValue gb row col with
  | None => false
  | Some value => value >? 0
  end.

(** [getFilledCellCount()] *)
Definition getFilledCellCount (gb : GameBoard) : Z :=
  foldl (fun count row =>
           foldl (fun count col =>
                    if at2 (board gb) row col >? 0 then count + 1 else count)
                 count (seqZ 0 (width gb)))
        0 (seqZ 0 (height gb)).

(** [validateBoard()] *)
Definition validateBoard (gb : GameBoard) : bool :=
  (Z.of_nat (length (board gb)) =? height gb)
  && forallb (fun row => (Z.of_nat (length row) =? width gb)
                         && forallb (fun value => negb (value <? 0)) row)
             (board gb).

(** [isValidPosition(piece, x, y)] *)
Definition isValidPosition (gb : GameBoard) (piece : Tetromino) (x y : Z) : bool :=
  match getShape piece with
  | None => false
  | Some shape =>
    if (length shape =? 0)%nat then false
    else forallb (fun '(row, col, v) =>
                    if v =? 0 then true
                    else
                      let boardRow := y + row in
                      let boardCol := x + col in
                      if negb (isInBounds gb boardRow boardCol) then false
                      else if isFilled gb boardRow boardCol then false
                      else true)
                 (cells shape)
  end.

(** [getColorId(color)] *)
Definition colorMap : list (string * Z) :=
  [ ("#00f0f0", 1); ("#f0f000", 2); ("#a000f0", 3); ("#00f000", 4);
    ("#f00000", 5); ("#0000f0", 6); ("#f0a000", 7) ].

Definition getColorId (c : string) : Z :=
  match list_find (fun kv => String.eqb (fst kv) c) colorMap with
  | Some (_, (_, id)) => id
  | None => 1
  end.

(** [placePiece(piece, x, y)]: the returned boolean and the board after
    the call. *)
Definition placePiece (gb : GameBoard) (piece : Tetromino) (x y : Z)
  : bool * GameBoard :=
  if negb (isValidPosition gb piece x y) then (false, gb)
  else
    let shape := default [] (getShape piece) in
    let colorId := getColorId (getColor piece) in
    (true,
     foldl (fun g '(row, col, v) =>
              if v =? 1 then snd (setCellValue g (y + row) (x + col) colorId)
              else g)
           gb (cells shape)).

(** [isLineComplete(row)] *)
Definition isLineComplete (gb : GameBoard) (row : Z) : bool :=
  if (row <? 0) || (row >=? height gb) then false
  else forallb (fun col => negb (at2 (board gb) row col =? 0))
               (seqZ 0 (width gb)).

(** [Array.prototype.sort((a, b) => b - a)]: descending order. *)
Fixpoint insert_desc (a : Z) (l : list Z) : list Z :=
  match l with
  | [] => [a]
  | b :: l' => if b <? a then a :: l else b :: insert_desc a l'
  end.

Definition sort_desc (l : list Z) : list Z := foldr insert_desc [] l.

(** [findCompletedLines()] *)
Definition findCompletedLines (gb : GameBoard) : list Z :=
  sort_desc (filter (fun row => isLineComplete gb row = true)
                    (reverse (seqZ 0 (height gb)))).

(** [removeLine(lineIndex)] *)
Definition removeLine (gb : GameBoard) (lineIndex : Z) : GameBoard :=
  if (lineIndex <? 0) || (lineIndex >=? height gb) then gb
  else
    let shifted :=
      foldl (fun b row =>
               foldl (fun b col => set2 b row col (at2 b (row - 1) col))
                     b (seqZ 0 (width gb)))
            (board gb) (reverse (seqZ 1 lineIndex)) in
    let cleared :=
      foldl (fun b col => set2 b 0 col 0) shifted (seqZ 0 (width gb)) in
    {| width := width gb; height := height gb; board := cleared |}.

(** [removeCompletedLines(completedLines)] *)
Definition removeCompletedLines (gb : GameBoard) (completedLines : list Z)
  : GameBoard :=
  foldl removeLine gb completedLines.

(** [clearLines()]: the number it returns and the board after the call. *)
Definition clearLines (gb : GameBoard) : Z * GameBoard :=
  let completedLines := findCompletedLines gb in
  if (length completedLines =? 0)%nat then (0, gb)
  else (Z.of_nat (length completedLines),
        removeCompletedLines gb completedLines).

(** The placement condition of the specification: with the piece at
    [(x, y)], every filled cell of [shape] lies on the board, on a cell that
    is empty. *)
Definition fits (gb : GameBoard) (shape : Shape) (x y : Z) : Prop :=
  forall row col, at2 shape row col <> 0 ->
    0 <= y + row < height gb /\ 0 <= x + col < width gb
    /\ at2 (board gb) (y + row) (x + col) = 0.

(** The colour id the specification derives from the piece type. *)
Definition typeColorId (t : TetrominoType) : Z :=
  match t with
  | TI => 1 | TO => 2 | TT => 3 | TS => 4 | TZ => 5 | TJ => 6 | TL => 7
  end.

(** The board invariant of the data model: [height] rows of [width] cells,
    every cell in 0..7. *)
Definition rows_ok (w : Z) (b : list (list Z)) : Prop :=
  Forall (fun row => Z.of_nat (length row) = w
                     /\ Forall (fun v => 0 <= v <= 7) row) b.

Definition grid_ok (gb : GameBoard) : Prop :=
  Z.of_nat (length (board gb)) = height gb /\ rows_ok (width gb) (board gb).

(** ** class Tetromino, continued *)

(** [getRotatedShape()] *)
Definition getRotatedShape (p : Tetromino) : option Shape :=
  let nextRotation := Z.rem (rotation p + 1) 4 in
  js_index (shapes (type p)) nextRotation.

(** [clone()] *)
Definition clone (p : Tetromino) : Tetromino :=
  let cloned := newTetromino (type p) in
  {| type := type cloned; rotation := rotation p |}.

(** [isBlockAt(row, col)], for a piece whose shape exists. *)
Definition isBlockAt (p : Tetromino) (row col : Z) : bool :=
  match getShape p with
  | None => false
  | Some shape =>
    let width0 := match shape with
                  | row0 :: _ => Z.of_nat (length row0)
                  | [] => 0
                  end in
    if (row <? 0) || (row >=? Z.of_nat (length shape))
       || (col <? 0) || (col >=? width0)
    then false
    else at2 shape row col =? 1
  end.

(** [getFilledBlocks()]: the (row, col) pairs pushed, in loop order. *)
Definition getFilledBlocks (p : Tetromino) : list (Z * Z) :=
  match getShape p with
  | None => []
  | Some shape =>
    '(row, col, v) ← cells shape;
    if v =? 1 then [(row, col)] else []
  end.

(** ** class GameBoard, continued *)

(** [getBoardCopy()]: a fresh copy of every row, the same value. *)
Definition getBoardCopy (gb : GameBoard) : list (list Z) :=
  map (fun row => row) (board gb).

(** [setBoard(newBoard)] for an array of arrays of numbers: the returned
    boolean and the board after the call. *)
Definition setBoard (gb : GameBoard) (newBoard : list (list Z))
  : bool * GameBoard :=
  if negb (Z.of_nat (length newBoard) =? height gb) then (false, gb)
  else if negb (forallb (fun row =>
                           (Z.of_nat (length row) =? width gb)
                           && forallb (fun v => negb (v <? 0)) row)
                        newBoard) then (false, gb)
  else (true, {| width := width gb; height := height gb;
                 board := map (fun row => row) newBoard |}).

(** [getEmptyCellCount()] *)
Definition getEmptyCellCount (gb : GameBoard) : Z :=
  width gb * height gb - getFilledCellCount gb.

(** [isWithinBounds(piece, x, y)] *)
Definition isWithinBounds (gb : GameBoard) (piece : Tetromino) (x y : Z) : bool :=
  match getShape piece with
  | None => false
  | Some shape =>
    if (length shape =? 0)%nat then false
    else forallb (fun '(row, col, v) =>
                    if v =? 0 then true
                    else
                      let boardRow := y + row in
                      let boardCol := x + col in
                      if negb (isInBounds gb boardRow boardCol) then false
                      else true)
                 (cells shape)
  end.

(** [hasCollision(piece, x, y)] *)
Definition hasCollision (gb : GameBoard) (piece : Tetromino) (x y : Z) : bool :=
  match getShape piece with
  | None => true
  | Some shape =>
    if (length shape =? 0)%nat then true
    else existsb (fun '(row, col, v) =>
                    if v =? 0 then false
                    else
                      let boardRow := y + row in
                      let boardCol := x + col in
                      isInBounds gb boardRow boardCol
                      && isFilled gb boardRow boardCol)
                 (cells shape)
  end.

(** [getColorFromId(colorId)] *)
Definition colorFromIdMap : list (Z * string) :=
  [ (1, "#00f0f0"); (2, "#f0f000"); (3, "#a000f0"); (4, "#00f000");
    (5, "#f00000"); (6, "#0000f0"); (7, "#f0a000") ].

Definition getColorFromId (colorId : Z) : string :=
  match list_find (fun kv => fst kv =? colorId) colorFromIdMap with
  | Some (_, (_, c)) => c
  | None => "#ffffff"
  end.

(** [isLineEmpty(row)] *)
Definition isLineEmpty (gb : GameBoard) (row : Z) : bool :=
  if (row <? 0) || (row >=? height gb) then false
  else forallb (fun col => at2 (board gb) row col =? 0)
               (seqZ 0 (width gb)).

(** [simulateLineClear()]: [linesCleared] and [completedLines]. *)
Definition simulateLineClear (gb : GameBoard) : Z * list Z :=
  let completedLines := findCompletedLines gb in
  (Z.of_nat (length completedLines), completedLines).

(** The (row, col) pairs that the nested loops over the board visit, in
    loop order. *)
Definition boardCells (gb : GameBoard) : list (Z * Z) :=
  row ← seqZ 0 (height gb); col ← seqZ 0 (width gb); [(row, col)].

(** ** class GameState *)
Module State.

Record GameState := mkGameState {
  score : Z;
  level : Z;
  lines : Z;
  isPaused : bool;
  isGameOver : bool;
  isRunning : bool
}.

(** [reset()]; also the state [new GameState()] starts in. *)
Definition reset (s : GameState) : GameState :=
  {| score := 0; level := 1; lines := 0;
     isPaused := false; isGameOver := false; isRunning := false |}.

Definition initial : GameState := reset (mkGameState 0 0 0 false false false).

(** [setPaused(paused)] *)
Definition setPaused (s : GameState) (paused : bool) : GameState :=
  if isGameOver s then s
  else {| score := score s; level := level s; lines := lines s;
          isPaused := paused; isGameOver := isGameOver s;
          isRunning := isRunning s |}.

(** [setGameOver(gameOver)] *)
Definition setGameOver (s : GameState) (gameOver : bool) : GameState :=
  if gameOver
  then {| score := score s; level := level s; lines := lines s;
          isPaused := false; isGameOver := true; isRunning := false |}
  else {| score := score s; level := level s; lines := lines s;
          isPaused := isPaused s; isGameOver := false;
          isRunning := isRunning s |}.

(** [setRunning(running)] *)
Definition setRunning (s : GameState) (running : bool) : GameState :=
  if running
  then {| score := score s; level := level s; lines := lines s;
          isPaused := isPaused s; isGameOver := false; isRunning := true |}
  else {| score := score s; level := level s; lines := lines s;
          isPaused := isPaused s; isGameOver := isGameOver s;
          isRunning := false |}.

(** The object literal [scoreMultipliers] of [updateScore]. *)
Definition scoreMultipliers : list (Z * Z) := [ (1, 1); (2, 3); (3, 5); (4, 8) ].

Definition lookupZ (m : list (Z * Z)) (k : Z) : option Z :=
  snd <$> (snd <$> list_find (fun kv => fst kv =? k) m).

(** [updateScore(linesCleared)]: the points it returns and the new state. *)
Definition updateScore (s : GameState) (linesCleared : Z) : Z * GameState :=
  if (linesCleared <? 0) || (linesCleared >? 4) then (0, s)
  else if linesCleared =? 0 then (0, s)
  else
    let baseScore := 100 in
    let multiplier :=
      match lookupZ scoreMultipliers linesCleared with
      | Some m => if m =? 0 then 1 else m
      | None => 1
      end in
    let basePoints := baseScore * multiplier in
    let levelBonus := level s in
    let totalPoints := basePoints * levelBonus in
    (totalPoints,
     {| score := score s + totalPoints; level := level s; lines := lines s;
        isPaused := isPaused s; isGameOver := isGameOver s;
        isRunning := isRunning s |}).

(** [addLines(linesCleared)]: whether the level increased, and the new
    state.  [Math.floor(this.lines / 10)] is [Z.div]. *)
Definition addLines (s : GameState) (linesCleared : Z) : bool * GameState :=
  if linesCleared <? 0 then (false, s)
  else
    let lines' := lines s + linesCleared in
    let newLevel := lines' / 10 + 1 in
    let levelIncreased := newLevel >? level s in
    (levelIncreased,
     {| score := score s;
        level := if levelIncreased then newLevel else level s;
        lines := lines';
        isPaused := isPaused s; isGameOver := isGameOver s;
        isRunning := isRunning s |}).

(** [getDropSpeed()], in doubles as the source computes it.  [Math.pow] is
    a parameter: ECMAScript leaves its result implementation-approximated,
    fixing only special cases such as [Math.pow(x, 0) = 1].  Its second
    argument is the integer [level - 1]. *)
Definition getDropSpeed (Math_pow : float -> Z -> float) (s : GameState)
  : float :=
  let baseSpeed := INITIAL_DROP_SPEED in
  let speedRate := SPEED_INCREASE_RATE in
  let minSpeed := 50%float in
  let calculatedSpeed :=
    (baseSpeed * Math_pow speedRate (level s - 1)%Z)%float in
  Math_max minSpeed calculatedSpeed.

(** [pow_accurate Math_pow delta n]: the double [Math_pow(0.9, n)] is
    finite, not negative, and within relative error [delta] of [0.9^n]
    (within [delta * 2^-1022] where the power underflows). *)
Definition pow_accurate (Math_pow : float -> Z -> float) (delta : Q) (n : Z)
  : Prop :=
  exists q : Q,
    F2Q (Math_pow SPEED_INCREASE_RATE n) = Some q
    /\ (0 <= q)%Q
    /\ (q - (9 # 10) ^ n <= delta * Qmax ((9 # 10) ^ n) (2 ^ (-1022)))%Q
    /\ ((9 # 10) ^ n - q <= delta * Qmax ((9 # 10) ^ n) (2 ^ (-1022)))%Q.

(** [awardSoftDropPoints(cellsDropped)] *)
Definition awardSoftDropPoints (s : GameState) (cellsDropped : Z) : Z * GameState :=
  if cellsDropped <=? 0 then (0, s)
  else
    let points := cellsDropped in
    (points,
     {| score := score s + points; level := level s; lines := lines s;
        isPaused := isPaused s; isGameOver := isGameOver s;
        isRunning := isRunning s |}).

(** [awardHardDropPoints(cellsDropped)] *)
Definition awardHardDropPoints (s : GameState) (cellsDropped : Z) : Z * GameState :=
  if cellsDropped <=? 0 then (0, s)
  else
    let points := cellsDropped * 2 in
    (points,
     {| score := score s + points; level := level s; lines := lines s;
        isPaused := isPaused s; isGameOver := isGameOver s;
        isRunning := isRunning s |}).

(** [processLineClear(linesCleared)], as far as it changes the state. *)
Definition processLineClear (s : GameState) (linesCleared : Z) : GameState :=
  let '(pointsAwarded, s1) := updateScore s linesCleared in
  let '(levelIncreased, s2) := addLines s1 linesCleared in
  s2.

(** [fixInvalidState()], on a state whose fields have their declared
    types (the [typeof] repairs never fire on such a state). *)
Definition fixInvalidState (s : GameState) : GameState :=
  let score1 := if score s <? 0 then 0 else score s in
  let level1 := if level s <? 1 then 1 else level s in
  let lines1 := if lines s <? 0 then 0 else lines s in
  let running1 := if isGameOver s && isRunning s then false else isRunning s in
  let paused1 := if isPaused s && isGameOver s then false else isPaused s in
  {| score := if score1 >? 999999999 then 999999999 else score1;
     level := if level1 >? 999 then 999 else level1;
     lines := if lines1 >? 999999 then 999999 else lines1;
     isPaused := paused1; isGameOver := isGameOver s; isRunning := running1 |}.

(** The calls a client of [GameState] can make. *)
Inductive Call :=
| CReset
| CSetPaused (paused : bool)
| CSetGameOver (gameOver : bool)
| CSetRunning (running : bool)
| CUpdateScore (linesCleared : Z)
| CAddLines (linesCleared : Z)
| CAwardSoftDropPoints (cellsDropped : Z)
| CAwardHardDropPoints (cellsDropped : Z)
| CProcessLineClear (linesCleared : Z)
| CFixInvalidState.

Definition call (s : GameState) (c : Call) : GameState :=
  match c with
  | CReset => reset s
  | CSetPaused b => setPaused s b
  | CSetGameOver b => setGameOver s b
  | CSetRunning b => setRunning s b
  | CUpdateScore n => snd (updateScore s n)
  | CAddLines n => snd (addLines s n)
  | CAwardSoftDropPoints n => snd (awardSoftDropPoints s n)
  | CAwardHardDropPoints n => snd (awardHardDropPoints s n)
  | CProcessLineClear n => processLineClear s n
  | CFixInvalidState => fixInvalidState s
  end.

(** The states reachable from a fresh [GameState] by any sequence of calls. *)
Inductive reachable : GameState -> Prop :=
| reach_initial : reachable initial
| reach_call s c : reachable s -> reachable (call s c).

(** [fixInvalidState] caps [level] and [lines] independently; every other
    call keeps the level in step with the line count. *)
Definition is_fix (c : Call) : bool :=
  match c with CFixInvalidState => true | _ => false end.

Inductive reachable_nofix : GameState -> Prop :=
| reach_nofix_initial : reachable_nofix initial
| reach_nofix_call s c :
    reachable_nofix s -> is_fix c = false -> reachable_nofix (call s c).

Definition counts_ok (s : GameState) : Prop :=
  0 <= lines s /\ level s = lines s / 10 + 1.



(** [getLinesUntilNextLevel()] *)
Definition getLinesUntilNextLevel (s : GameState) : Z :=
  let nextLevelThreshold := level s * 10 in
  Z.max 0 (nextLevelThreshold - lines s).

(** [getLevelProgress()], a percentage, over the rationals. *)
Definition getLevelProgress (s : GameState) : Q :=
  let currentLevelStart := (level s - 1) * 10 in
  let nextLevelStart := level s * 10 in
  let progressInLevel := lines s - currentLevelStart in
  let levelRange := nextLevelStart - currentLevelStart in
  Qmin 100 (inject_Z progressInLevel / inject_Z levelRange * 100).

(** [calculateScorePreview(linesCleared)] *)
Definition calculateScorePreview (s : GameState) (linesCleared : Z) : Z :=
  if (linesCleared <? 0) || (linesCleared >? 4) then 0
  else if linesCleared =? 0 then 0
  else
    let baseScore := 100 in
    let multiplier :=
      match lookupZ scoreMultipliers linesCleared with
      | Some m => if m =? 0 then 1 else m
      | None => 1
      end in
    let basePoints := baseScore * multiplier in
    let totalPoints := basePoints * level s in
    totalPoints.

(** [validateState()], on a state whose fields have their declared types. *)
Definition validateState (s : GameState) : bool :=
  let ok1 := negb (score s <? 0) in
  let ok2 := negb (level s <? 1) in
  let ok3 := negb (lines s <? 0) in
  let ok4 := negb (isGameOver s && isRunning s) in
  let ok5 := negb (isPaused s && isGameOver s) in
  let ok6 := negb (score s >? 999999999) in
  let ok7 := negb (level s >? 999) in
  let ok8 := negb (lines s >? 999999) in
  ok1 && ok2 && ok3 && ok4 && ok5 && ok6 && ok7 && ok8.

(** [validateAndFix()]: the returned boolean and the state after the call. *)
Definition validateAndFix (s : GameState) : bool * GameState :=
  if validateState s then (true, s)
  else
    let s' := fixInvalidState s in
    (validateState s', s').

End State.


(** [n] clockwise rotations in a row; [None] as soon as one of them throws. *)
Fixpoint rotateTimes (n : nat) (p : Tetromino) : option Tetromino :=
  match n with
  | O => Some p
  | S n' =>
    match rotate p with
    | (p', Some _) => rotateTimes n' p'
    | (_, None) => None
    end
  end.

(** [getWidth()]; [None] is the [TypeError] of a missing shape. *)
Definition getWidth (p : Tetromino) : option Z :=
  shape ← getShape p;
  Some (match shape with
        | row0 :: _ => Z.of_nat (length row0)
        | [] => 0
        end).

(** ** class GameEngine: the game logic, without rendering and timers *)
Module Engine.

Record GameEngine := mkGameEngine {
  gameBoard : GameBoard;
  gameState : State.GameState;
  currentPiece : option Tetromino;
  nextPiece : option Tetromino;
  pieceX : Z;
  pieceY : Z
}.

Definition set_state (e : GameEngine) (s : State.GameState) : GameEngine :=
  mkGameEngine (gameBoard e) s (currentPiece e) (nextPiece e) (pieceX e) (pieceY e).

Definition set_position (e : GameEngine) (x y : Z) : GameEngine :=
  mkGameEngine (gameBoard e) (gameState e) (currentPiece e) (nextPiece e) x y.

(** [canMove()] *)
Definition canMove (e : GameEngine) : bool :=
  State.isRunning (gameState e)
  && negb (State.isPaused (gameState e))
  && negb (State.isGameOver (gameState e))
  && match currentPiece e with Some _ => true | None => false end.

(** [gameOver()] *)
Definition gameOver (e : GameEngine) : GameEngine :=
  set_state e (State.setGameOver (gameState e) true).

(** [reset()] *)
Definition reset (e : GameEngine) : GameEngine :=
  mkGameEngine (clear (gameBoard e)) (State.reset (gameState e)) None None 0 0.

(** The spawn column [floor(width / 2) - floor(piece.getWidth() / 2)]. *)
Definition spawnColumn (gb : GameBoard) (piece : Tetromino) : option Z :=
  w ← getWidth piece;
  Some (width gb / 2 - w / 2).

(** [pause()] *)
Definition pause (e : GameEngine) : GameEngine :=
  if State.isGameOver (gameState e) then e
  else if negb (State.isRunning (gameState e)) then e
  else
    let wasPaused := State.isPaused (gameState e) in
    set_state e (State.setPaused (gameState e) (negb wasPaused)).

(** [resume()] *)
Definition resume (e : GameEngine) : GameEngine :=
  if negb (State.isPaused (gameState e)) then e else pause e.

(** [moveLeft()] *)
Definition moveLeft (e : GameEngine) : GameEngine :=
  if negb (canMove e) then e
  else
    match currentPiece e with
    | None => e
    | Some piece =>
      let newX := pieceX e - 1 in
      if isValidPosition (gameBoard e) piece newX (pieceY e)
      then set_position e newX (pieceY e)
      else e
    end.

(** [moveRight()] *)
Definition moveRight (e : GameEngine) : GameEngine :=
  if negb (canMove e) then e
  else
    match currentPiece e with
    | None => e
    | Some piece =>
      let newX := pieceX e + 1 in
      if isValidPosition (gameBoard e) piece newX (pieceY e)
      then set_position e newX (pieceY e)
      else e
    end.

Definition wallKickOffsets : list Z := [-1; 1; -2; 2].

(** [rotate()], with its wall kicks. *)
Definition rotate (e : GameEngine) : GameEngine :=
  if negb (canMove e) then e
  else
    match currentPiece e with
    | None => e
    | Some piece =>
      let testPiece := clone piece in
      match MyWork.rotate testPiece with
      | (_, None) => e
      | (testPiece, Some _) =>
        if isValidPosition (gameBoard e) testPiece (pieceX e) (pieceY e) then
          mkGameEngine (gameBoard e) (gameState e)
                       (Some (fst (MyWork.rotate piece))) (nextPiece e)
                       (pieceX e) (pieceY e)
        else
          match list_find (fun offset =>
                             isValidPosition (gameBoard e) testPiece
                                             (pieceX e + offset) (pieceY e)
                             = true)
                          wallKickOffsets with
          | Some (_, offset) =>
            mkGameEngine (gameBoard e) (gameState e)
                         (Some (fst (MyWork.rotate piece))) (nextPiece e)
                         (pieceX e + offset) (pieceY e)
          | None => e
          end
      end
    end.

(** [spawnNextPiece()], the random draw being [rnd]; [None] is the
    [TypeError] raised when there is no next piece. *)
Definition spawnNextPiece (e : GameEngine) (rnd : TetrominoType)
  : option GameEngine :=
  current ← nextPiece e;
  x ← spawnColumn (gameBoard e) current;
  let e1 := mkGameEngine (gameBoard e) (gameState e) (Some current)
                         (Some (newTetromino rnd)) x 0 in
  if negb (isValidPosition (gameBoard e1) current x 0) then Some (gameOver e1)
  else Some e1.

(** [placePiece()] *)
Definition placePiece (e : GameEngine) (rnd : TetrominoType) : option GameEngine :=
  match currentPiece e with
  | None => Some e
  | Some piece =>
    let '(placed, gb1) := MyWork.placePiece (gameBoard e) piece (pieceX e) (pieceY e) in
    if placed then
      let '(linesCleared, gb2) := clearLines gb1 in
      let gs := if linesCleared >? 0
                then State.processLineClear (gameState e) linesCleared
                else gameState e in
      spawnNextPiece (mkGameEngine gb2 gs (currentPiece e) (nextPiece e)
                                   (pieceX e) (pieceY e)) rnd
    else Some (gameOver e)
  end.

(** [softDrop()] *)
Definition softDrop (e : GameEngine) (rnd : TetrominoType) : option GameEngine :=
  if negb (canMove e) then Some e
  else
    match currentPiece e with
    | None => Some e
    | Some piece =>
      let newY := pieceY e + 1 in
      if isValidPosition (gameBoard e) piece (pieceX e) newY then
        let e1 := set_position e (pieceX e) newY in
        Some (set_state e1 (snd (State.awardSoftDropPoints (gameState e1) 1)))
      else placePiece e rnd
    end.

(** [dropPiece()], the automatic drop of the game loop. *)
Definition dropPiece (e : GameEngine) (rnd : TetrominoType) : option GameEngine :=
  match currentPiece e with
  | None => Some e
  | Some piece =>
    let newY := pieceY e + 1 in
    if isValidPosition (gameBoard e) piece (pieceX e) newY
    then Some (set_position e (pieceX e) newY)
    else placePiece e rnd
  end.

(** The [while] loop of [hardDrop()]: the row the piece falls to; [None]
    when [fuel] iterations do not end it. *)
Fixpoint fall (fuel : nat) (gb : GameBoard) (piece : Tetromino) (x y : Z)
  : option Z :=
  match fuel with
  | O => None
  | S fuel' =>
    if isValidPosition gb piece x (y + 1) then fall fuel' gb piece x (y + 1)
    else Some y
  end.

(** [hardDrop()]; [handleDropCompletion()] does what [placePiece()] does. *)
Definition hardDrop (fuel : nat) (e : GameEngine) (rnd : TetrominoType)
  : option GameEngine :=
  if negb (canMove e) then Some e
  else
    match currentPiece e with
    | None => Some e
    | Some piece =>
      let originalY := pieceY e in
      y ← fall fuel (gameBoard e) piece (pieceX e) (pieceY e);
      let e1 := set_position e (pieceX e) y in
      let cellsDropped := y - originalY in
      let e2 := if cellsDropped >? 0
                then set_state e1 (snd (State.awardHardDropPoints (gameState e1) cellsDropped))
                else e1 in
      placePiece e2 rnd
    end.

(** What the engine keeps true of itself while a game is on: the board is
    well-formed, the pieces are in one of their four rotation states, a
    current piece comes with a next piece, and the current piece stands on a
    valid position. *)
Definition piece_ok (op : option Tetromino) : Prop :=
  match op with
  | Some p => 0 <= rotation p < 4
  | None => True
  end.

Definition pieces_ok (e : GameEngine) : Prop :=
  grid_ok (gameBoard e)
  /\ piece_ok (currentPiece e) /\ piece_ok (nextPiece e)
  /\ (currentPiece e <> None -> nextPiece e <> None).

Definition engine_ok (e : GameEngine) : Prop :=
  pieces_ok e
  /\ (canMove e = true ->
      exists piece, currentPiece e = Some piece
        /\ isValidPosition (gameBoard e) piece (pieceX e) (pieceY e) = true).

(** The status flags as the data model wants them. *)
Definition flags_ok (s : State.GameState) : Prop :=
  (State.isGameOver s = true ->
   State.isRunning s = false /\ State.isPaused s = false)
  /\ (State.isPaused s = true -> State.isRunning s = true).

End Engine.

End MyWork.

(** The score table of the specification: 100, 300, 500, 800 points for
    1, 2, 3, 4 lines. *)
Definition scoreTable : list Z := [100; 300; 500; 800].

Definition scoreForClear (n level : Z) : Z :=
  default 0 (js_index scoreTable (n - 1)) * level.

(** * examples/tetris/script.js *)
Module Examples.

Definition BOARD_WIDTH : Z := 10.
Definition BOARD_HEIGHT : Z := 20.

(** What a board cell can hold: the number 0, a colour string, or
    [undefined] (the hole an out-of-range write leaves behind). *)
Inductive jsval :=
| JNum (n : Z)
| JStr (s : string)
| JUndefined.

(** Truthiness, as tested by [if (v)]. *)
Definition truthy (v : jsval) : bool :=
  match v with
  | JNum n => negb (n =? 0)
  | JStr s => negb (String.eqb s "")
  | JUndefined => false
  end.

(** [v !== 0] *)
Definition not_zero (v : jsval) : bool :=
  match v with
  | JNum n => negb (n =? 0)
  | _ => true
  end.

Abbreviation Board := (list (list jsval)).

(** [board[r][c]]; [undefined] past the end of a row. *)
Definition board_at (b : Board) (r c : Z) : jsval :=
  default JUndefined (js_index b r ≫= fun row => js_index row c).

(** [row[i] = v] on a JavaScript array: a negative index names a property
    and leaves the elements alone, an index past the end extends the array. *)
Definition js_set (row : list jsval) (i : Z) (v : jsval) : list jsval :=
  if i <? 0 then row
  else if (Z.to_nat i <? length row)%nat then <[Z.to_nat i := v]> row
  else row ++ replicate (Z.to_nat i - length row) JUndefined ++ [v].

(** ** TETROMINOS *)
Inductive TetrominoName := PI | PO | PT | PS | PZ | PJ | PL.

Definition TETROMINOS_shape (t : TetrominoName) : list (list Z) :=
  match t with
  | PI => [[0;0;0;0]; [1;1;1;1]; [0;0;0;0]; [0;0;0;0]]
  | PO => [[0;0;0;0]; [0;1;1;0]; [0;1;1;0]; [0;0;0;0]]
  | PT => [[0;0;0;0]; [0;1;0;0]; [1;1;1;0]; [0;0;0;0]]
  | PS => [[0;0;0;0]; [0;1;1;0]; [1;1;0;0]; [0;0;0;0]]
  | PZ => [[0;0;0;0]; [1;1;0;0]; [0;1;1;0]; [0;0;0;0]]
  | PJ => [[0;0;0;0]; [1;0;0;0]; [1;1;1;0]; [0;0;0;0]]
  | PL => [[0;0;0;0]; [0;0;1;0]; [1;1;1;0]; [0;0;0;0]]
  end.

Definition TETROMINOS_color (t : TetrominoName) : string :=
  match t with
  | PI => "#00f5ff"
  | PO => "#ffff00"
  | PT => "#800080"
  | PS => "#00ff00"
  | PZ => "#ff0000"
  | PJ => "#0000ff"
  | PL => "#ffa500"
  end.

Definition allNames : list TetrominoName := [PI; PO; PT; PS; PZ; PJ; PL].

Record Piece := mkPiece {
  shape : list (list Z);
  color : string;
  x : Z;
  y : Z
}.

(** [createRandomPiece()], the random draw being [t]; the copy of the shape
    rows is the same list. *)
Definition createPiece (t : TetrominoName) : Piece :=
  {| shape := TETROMINOS_shape t;
     color := TETROMINOS_color t;
     x := BOARD_WIDTH / 2 - 2;
     y := 0 |}.

(** [createEmptyBoard()] *)
Definition createEmptyBoard : Board :=
  replicate (Z.to_nat BOARD_HEIGHT) (replicate (Z.to_nat BOARD_WIDTH) (JNum 0)).

(** [rotateMatrix(matrix)]: [rotated[j][3 - i] = matrix[i][j]]. *)
Definition rotateMatrix (matrix : list (list Z)) : list (list Z) :=
  foldl (fun rotated i =>
           foldl (fun rotated j => set2 rotated j (3 - i) (at2 matrix i j))
                 rotated (seqZ 0 4))
        (replicate 4 (replicate 4 0)) (seqZ 0 4).

(** The index pairs of [for (y < 4) for (x < 4)], in loop order. *)
Definition grid4 : list (Z * Z) :=
  y ← seqZ 0 4; x ← seqZ 0 4; [(y, x)].

(** [checkCollision(piece, dx, dy)] *)
Definition checkCollision (b : Board) (piece : Piece) (dx dy : Z) : bool :=
  let newX := x piece + dx in
  let newY := y piece + dy in
  existsb (fun '(y, x) =>
             if negb (at2 (shape piece) y x =? 0) then
               let boardX := newX + x in
               let boardY := newY + y in
               if (boardX <? 0) || (boardX >=? BOARD_WIDTH)
                  || (boardY >=? BOARD_HEIGHT) then true
               else if (boardY >=? 0) && truthy (board_at b boardY boardX)
               then true
               else false
             else false)
          grid4.

(** The double loop of [placePiece()]; [None] is the [TypeError] of a write
    through a row that does not exist. *)
Definition lockCells (b : Board) (piece : Piece) : option Board :=
  foldl (fun ob '(y, x) =>
           b ← ob;
           if negb (at2 (shape piece) y x =? 0) then
             let boardX := Examples.x piece + x in
             let boardY := Examples.y piece + y in
             if boardY >=? 0 then
               row ← js_index b boardY;
               Some (<[Z.to_nat boardY := js_set row boardX (JStr (color piece))]> b)
             else Some b
           else Some b)
        (Some b) grid4.

(** [row.every(cell => cell !== 0)] *)
Definition every_not_zero (row : list jsval) : bool := forallb not_zero row.

(** [Array(BOARD_WIDTH).fill(0)] *)
Definition emptyRow : list jsval := replicate (Z.to_nat BOARD_WIDTH) (JNum 0).

(** The loop of [clearLines()]: [y] is the loop variable, [fuel] bounds the
    number of iterations; [None] is a missing row ([TypeError]) or
    exhausted fuel. *)
Fixpoint clearLines_loop (fuel : nat) (b : Board) (y : Z) (linesCleared : Z)
  : option (Board * Z) :=
  match fuel with
  | O => None
  | S fuel' =>
    if y >=? 0 then
      row ← js_index b y;
      if every_not_zero row then
        (* splice(y, 1); unshift(empty row); linesCleared++; y++, then y-- *)
        let b1 := delete (Z.to_nat y) b in
        let b2 := emptyRow :: b1 in
        clearLines_loop fuel' b2 (y + 1 - 1) (linesCleared + 1)
      else clearLines_loop fuel' b (y - 1) linesCleared
    else Some (b, linesCleared)
  end.

(** Iterations that suffice for a board of [n] rows: at most [n] rows are
    removed and at most [n] steps move upwards, plus the exit test. *)
Definition clearLines_fuel (b : Board) : nat := 2 * length b + 1.

(** The board part of [clearLines()]: the new board and [linesCleared]. *)
Definition clearLines_board (b : Board) : option (Board * Z) :=
  clearLines_loop (clearLines_fuel b) b (BOARD_HEIGHT - 1) 0.

(** ** class TetrisGame *)
Record TetrisGame := mkTetrisGame {
  board : Board;
  currentPiece : Piece;
  nextPiece : Piece;
  score : Z;
  level : Z;
  lines : Z;
  gameRunning : bool;
  gamePaused : bool;
  dropInterval : Z
}.

Definition set_board (g : TetrisGame) (b : Board) : TetrisGame :=
  mkTetrisGame b (currentPiece g) (nextPiece g) (score g) (level g) (lines g)
               (gameRunning g) (gamePaused g) (dropInterval g).

Definition set_currentPiece (g : TetrisGame) (p : Piece) : TetrisGame :=
  mkTetrisGame (board g) p (nextPiece g) (score g) (level g) (lines g)
               (gameRunning g) (gamePaused g) (dropInterval g).

(** The array literal [[0, 100, 300, 500, 800]] of [updateScore]. *)
Definition pointsTable : list Z := [0; 100; 300; 500; 800].

(** [updateScore(linesCleared)], without the DOM writes.  [None] stands for
    the [NaN] score produced when [linesCleared] indexes past the table. *)
Definition updateScore (g : TetrisGame) (linesCleared : Z) : option TetrisGame :=
  if linesCleared >? 0 then
    base ← js_index pointsTable linesCleared;
    let points := base * level g in
    let score' := score g + points in
    let lines' := lines g + linesCleared in
    let newLevel := lines' / 10 + 1 in
    if newLevel >? level g then
      Some (mkTetrisGame (board g) (currentPiece g) (nextPiece g)
                         score' newLevel lines'
                         (gameRunning g) (gamePaused g)
                         (Z.max 100 (1000 - (newLevel - 1) * 100)))
    else
      Some (mkTetrisGame (board g) (currentPiece g) (nextPiece g)
                         score' (level g) lines'
                         (gameRunning g) (gamePaused g) (dropInterval g))
  else Some g.

(** [clearLines()] *)
Definition clearLines (g : TetrisGame) : option TetrisGame :=
  '(b, linesCleared) ← clearLines_board (board g);
  let g1 := set_board g b in
  if linesCleared >? 0 then updateScore g1 linesCleared else Some g1.

(** [gameOver()] *)
Definition gameOver (g : TetrisGame) : TetrisGame :=
  mkTetrisGame (board g) (currentPiece g) (nextPiece g) (score g) (level g)
               (lines g) false (gamePaused g) (dropInterval g).

(** [spawnNewPiece()], the random draw being [rnd]. *)
Definition spawnNewPiece (g : TetrisGame) (rnd : TetrominoName) : TetrisGame :=
  let g1 := mkTetrisGame (board g) (nextPiece g) (createPiece rnd)
                         (score g) (level g) (lines g)
                         (gameRunning g) (gamePaused g) (dropInterval g) in
  if checkCollision (board g1) (currentPiece g1) 0 0 then gameOver g1 else g1.

(** [placePiece()] *)
Definition placePiece (g : TetrisGame) (rnd : TetrominoName) : option TetrisGame :=
  b ← lockCells (board g) (currentPiece g);
  g1 ← clearLines (set_board g b);
  Some (spawnNewPiece g1 rnd).

(** [movePiece(dx, dy)] *)
Definition movePiece (g : TetrisGame) (dx dy : Z) : bool * TetrisGame :=
  if negb (checkCollision (board g) (currentPiece g) dx dy) then
    let p := currentPiece g in
    (true, set_currentPiece g
             {| shape := shape p; color := color p;
                x := x p + dx; y := y p + dy |})
  else (false, g).

(** [rotatePiece()] *)
Definition rotatePiece (g : TetrisGame) : TetrisGame :=
  let p := currentPiece g in
  let rotatedShape := rotateMatrix (shape p) in
  let originalShape := shape p in
  let rotated := {| shape := rotatedShape; color := color p; x := x p; y := y p |} in
  if checkCollision (board g) rotated 0 0
  then set_currentPiece g {| shape := originalShape; color := color p;
                             x := x p; y := y p |}
  else set_currentPiece g rotated.

(** [hardDrop()]: the [while (this.movePiece(0, 1))] loop, bounded by
    [fuel], then [placePiece()]. *)
Fixpoint hardDrop_loop (fuel : nat) (g : TetrisGame) : option TetrisGame :=
  match fuel with
  | O => None
  | S fuel' =>
    let '(moved, g') := movePiece g 0 1 in
    if moved then hardDrop_loop fuel' g' else Some g'
  end.

Definition hardDrop (fuel : nat) (g : TetrisGame) (rnd : TetrominoName)
  : option TetrisGame :=
  g1 ← hardDrop_loop fuel g;
  placePiece g1 rnd.

(** [togglePause()] *)
Definition togglePause (g : TetrisGame) : TetrisGame :=
  if negb (gameRunning g) then g
  else mkTetrisGame (board g) (currentPiece g) (nextPiece g) (score g)
                    (level g) (lines g) (gameRunning g)
                    (negb (gamePaused g)) (dropInterval g).

(** [startNewGame()], with its two random draws. *)
Definition startNewGame (g : TetrisGame) (rnd1 rnd2 : TetrominoName) : TetrisGame :=
  let g1 := mkTetrisGame createEmptyBoard (currentPiece g) (createPiece rnd1)
                         0 1 0 true false 1000 in
  spawnNewPiece g1 rnd2.

(** The filled cells of a board, counted as [drawBoard] visits them. *)
Definition filledCellCount (b : Board) : Z :=
  foldl (fun count row =>
           foldl (fun count v => if truthy v then count + 1 else count)
                 count row)
        0 b.

(** The states [updateScore] can be called in: those that follow a
    [startNewGame()] through any number of [updateScore(n)] calls. *)
Inductive scored : TetrisGame -> Prop :=
| scored_start g rnd1 rnd2 : scored (startNewGame g rnd1 rnd2)
| scored_update g n g' :
    scored g -> updateScore g n = Some g' -> scored g'.

(** What [updateScore] maintains between the three counters. *)
Definition stats_ok (g : TetrisGame) : Prop :=
  0 <= lines g /\ level g = lines g / 10 + 1
  /\ dropInterval g = Z.max 100 (1000 - (level g - 1) * 100).

(** What line clearing has to produce: the rows that are not complete, in
    their order, below as many empty rows as complete rows were removed. *)
Definition completedCount (b : Board) : nat :=
  length (filter (fun row => every_not_zero row = true) b).

Definition withoutCompleted (b : Board) : Board :=
  replicate (completedCount b) emptyRow
  ++ filter (fun row => every_not_zero row = false) b.

(** The placement condition of the specification, for the piece moved by
    [(dx, dy)]: every filled cell of the shape lies on the board (both
    axes), on an empty cell. *)
Definition in_bounds_and_empty (b : Board) (piece : Piece) (dx dy : Z) : Prop :=
  forall r c, 0 <= r < 4 -> 0 <= c < 4 -> at2 (shape piece) r c <> 0 ->
    0 <= x piece + dx + c < BOARD_WIDTH
    /\ 0 <= y piece + dy + r < BOARD_HEIGHT
    /\ truthy (board_at b (y piece + dy + r) (x piece + dx + c)) = false.

(** The condition [checkCollision] tests: left, right and bottom walls, and
    emptiness of the cells that are on the board; rows above the board are
    free. *)
Definition fits_open_top (b : Board) (piece : Piece) (dx dy : Z) : Prop :=
  forall r c, 0 <= r < 4 -> 0 <= c < 4 -> at2 (shape piece) r c <> 0 ->
    0 <= x piece + dx + c < BOARD_WIDTH
    /\ y piece + dy + r < BOARD_HEIGHT
    /\ (0 <= y piece + dy + r ->
        truthy (board_at b (y piece + dy + r) (x piece + dx + c)) = false).

(** Cells of the examples board: 0, or the colour string of a tetromino. *)
Definition cell_ok (v : jsval) : Prop :=
  v = JNum 0 \/ exists t, v = JStr (TETROMINOS_color t).

Definition board_ok (b : Board) : Prop :=
  length b = Z.to_nat BOARD_HEIGHT
  /\ Forall (fun row => length row = Z.to_nat BOARD_WIDTH /\ Forall cell_ok row) b.

(** A cell as the data model of the specification has it: a number in 0..7. *)
Definition cell_in_0_7 (v : jsval) : Prop :=
  exists n, v = JNum n /\ 0 <= n <= 7.

(** A 4x4 matrix, the form of every [shape]. *)
Definition matrix4 (m : list (list Z)) : Prop :=
  length m = 4%nat /\ Forall (fun row => length row = 4%nat) m.

(** ** Events *)

(** [gameLoop()], one frame: [due] tells whether the drop timer has run
    out, [rnd] is the random draw of a spawn. *)
Definition gameLoop (g : TetrisGame) (due : bool) (rnd : TetrominoName)
  : option TetrisGame :=
  if negb (gameRunning g) || gamePaused g then Some g
  else if due then
    let '(moved, g') := movePiece g 0 1 in
    if negb moved then placePiece g' rnd else Some g'
  else Some g.

(** Iterations that end the loop of [hardDrop()] for a shape with a block:
    the piece cannot move below the floor. *)
Definition hardDrop_fuel (g : TetrisGame) : nat :=
  Z.to_nat (BOARD_HEIGHT - y (currentPiece g)) + 1.

(** The key codes [handleKeyPress] knows. *)
Inductive KeyCode :=
| ArrowLeft | ArrowRight | ArrowDown | ArrowUp | Space | KeyP | OtherKey.

(** [handleKeyPress(event)] *)
Definition handleKeyPress (g : TetrisGame) (code : KeyCode) (rnd : TetrominoName)
  : option TetrisGame :=
  if negb (gameRunning g) || gamePaused g then Some g
  else
    match code with
    | ArrowLeft => Some (snd (movePiece g (-1) 0))
    | ArrowRight => Some (snd (movePiece g 1 0))
    | ArrowDown => Some (snd (movePiece g 0 1))
    | ArrowUp => Some (rotatePiece g)
    | Space => hardDrop (hardDrop_fuel g) g rnd
    | KeyP => Some (togglePause g)
    | OtherKey => Some g
    end.

(** A click on the pause button: [togglePause()], which on a resume runs
    [gameLoop()] at once. *)
Definition pauseClick (g : TetrisGame) (due : bool) (rnd : TetrominoName)
  : option TetrisGame :=
  if negb (gameRunning g) then Some g
  else
    let g1 := togglePause g in
    if negb (gamePaused g1) then gameLoop g1 due rnd else Some g1.

(** A click on a new-game button: [startNewGame()], which ends with a
    [gameLoop()] whose drop timer, reset to 0, is due. *)
Definition newGameClick (g : TetrisGame) (rnd1 rnd2 rnd3 : TetrominoName)
  : option TetrisGame :=
  gameLoop (startNewGame g rnd1 rnd2) true rnd3.

Inductive Event :=
| EKey (code : KeyCode) (rnd : TetrominoName)
| EFrame (due : bool) (rnd : TetrominoName)
| EPauseClick (due : bool) (rnd : TetrominoName)
| ENewGameClick (rnd1 rnd2 rnd3 : TetrominoName).

Definition handle (g : TetrisGame) (e : Event) : option TetrisGame :=
  match e with
  | EKey code rnd => handleKeyPress g code rnd
  | EFrame due rnd => gameLoop g due rnd
  | EPauseClick due rnd => pauseClick g due rnd
  | ENewGameClick rnd1 rnd2 rnd3 => newGameClick g rnd1 rnd2 rnd3
  end.

(** The games a page can be in: [new TetrisGame()] starts a game, events
    follow. *)
Inductive playing : TetrisGame -> Prop :=
| playing_new g0 rnd1 rnd2 rnd3 g :
    newGameClick g0 rnd1 rnd2 rnd3 = Some g -> playing g
| playing_event g e g' : playing g -> handle g e = Some g' -> playing g'.

(** A shape with at least one block. *)
Definition hasBlock (m : list (list Z)) : Prop :=
  exists r c, 0 <= r < 4 /\ 0 <= c < 4 /\ at2 m r c <> 0.

(** The pieces [createRandomPiece] and [rotatePiece] produce. *)
Definition piece_ok (p : Piece) : Prop :=
  matrix4 (shape p) /\ hasBlock (shape p)
  /\ exists t, color p = TETROMINOS_color t.

(** What holds of a game in play. *)
Definition game_ok (g : TetrisGame) : Prop :=
  board_ok (board g)
  /\ Forall (fun row => every_not_zero row = false) (board g)
  /\ piece_ok (currentPiece g)
  /\ (exists t, nextPiece g = createPiece t)
  /\ 0 <= y (currentPiece g)
  /\ stats_ok g
  /\ (gameRunning g = true ->
      checkCollision (board g) (currentPiece g) 0 0 = false).

(** The number of blocks of a shape, as the loops over a 4x4 matrix count
    them. *)
Definition blockCount (m : list (list Z)) : Z :=
  foldl (fun n '(r, c) => if negb (at2 m r c =? 0) then n + 1 else n) 0 grid4.

End Examples.

(** * Sample inputs *)

Definition sample_state : MyWork.State.GameState :=
  MyWork.State.mkGameState 40 3 25 false false true.

Definition sample_game : Examples.TetrisGame :=
  Examples.mkTetrisGame Examples.createEmptyBoard
    (Examples.createPiece Examples.PT) (Examples.createPiece Examples.PO)
    40 3 25 true false 800.

(** Eight lines cleared so far, level 1. *)
Definition state_8_lines : MyWork.State.GameState :=
  MyWork.State.mkGameState 800 1 8 false false true.

(** Thirty lines cleared, level 4. *)
Definition state_level_4 : MyWork.State.GameState :=
  MyWork.State.mkGameState 4000 4 30 false false true.

(** A [Math.pow] for the samples: repeated multiplication in doubles.  At
    the double 0.9 it returns 1, 0.9, 0.81 and 0.7290000000000001 for the
    exponents 0 to 3. *)
Fixpoint pow_iter (x : float) (n : nat) : float :=
  match n with
  | O => 1%float
  | S k => (x * pow_iter x k)%float
  end.

Definition sample_pow (x : float) (n : Z) : float := pow_iter x (Z.to_nat n).

Definition game_8_lines : Examples.TetrisGame :=
  Examples.mkTetrisGame Examples.createEmptyBoard
    (Examples.createPiece Examples.PT) (Examples.createPiece Examples.PO)
    800 1 8 true false 1000.

(** A T piece two rows above the top of the board. *)
Definition piece_above_top : Examples.Piece :=
  Examples.mkPiece (Examples.TETROMINOS_shape Examples.PT)
                   (Examples.TETROMINOS_color Examples.PT) 3 (-2).

Definition empty_10x20 : MyWork.GameBoard := MyWork.newGameBoard 10 20.

(** A 10x20 board whose two bottom rows are complete; the row above them
    holds a single block. *)
Definition two_full_rows : MyWork.GameBoard :=
  MyWork.mkGameBoard 10 20
    (replicate 17 (replicate 10 0)
     ++ [ [0; 3; 0; 0; 0; 0; 0; 0; 0; 0];
          replicate 10 1;
          replicate 10 2 ]).

(** The same board in the examples variant. *)
Definition two_full_rows_examples : Examples.Board :=
  replicate 17 Examples.emptyRow
  ++ [ <[1%nat := Examples.JStr "#800080"]> Examples.emptyRow;
       replicate 10 (Examples.JStr "#00f5ff");
       replicate 10 (Examples.JStr "#ffff00") ].

(** Twelve and twenty lines into a game of the examples variant. *)
Definition game_start : Examples.TetrisGame :=
  Examples.startNewGame sample_game Examples.PT Examples.PO.

Definition play_scores (g : Examples.TetrisGame) (ns : list Z)
  : option Examples.TetrisGame :=
  foldl (fun og n => g ← og; Examples.updateScore g n) (Some g) ns.

(** A running my-work engine: a T piece in its spawn column on the empty
    board. *)
Definition engine_sample : MyWork.Engine.GameEngine :=
  MyWork.Engine.mkGameEngine empty_10x20
    (MyWork.State.mkGameState 0 1 0 false false true)
    (Some (MyWork.newTetromino MyWork.TT))
    (Some (MyWork.newTetromino MyWork.TI)) 4 0.

(** A 10x20 board whose bottom row alone is complete, under a row with
    one block. *)
Definition one_full_row : MyWork.GameBoard :=
  MyWork.mkGameBoard 10 20
    (replicate 18 (replicate 10 0)
     ++ [ [0; 0; 0; 0; 6; 0; 0; 0; 0; 0];
          replicate 10 4 ]).


(** The same engine with the T piece resting on the floor. *)
Definition engine_landed : MyWork.Engine.GameEngine :=
  MyWork.Engine.set_position engine_sample 4 18.

(** The examples game one frame after a click on the new-game button: the
    first piece has gone down one row. *)
Definition game_first_frame : Examples.TetrisGame :=
  snd (Examples.movePiece game_start 0 1).
(** * Loops *)

(** A property kept by the body of a loop holds when the loop ends. *)
Lemma foldl_inv {A B} (P : A -> Prop) (f : A -> B -> A) (l : list B) (a : A) :
  P a -> (forall a b, P a -> P (f a b)) -> P (foldl f a l).
Proof.
  intros Ha Hf. revert a Ha.
  induction l as [| b l IH]; simpl; intros a Ha; [exact Ha |].
  apply IH. apply Hf. exact Ha.
Qed.

Lemma existsb_pointwise {A} (f g : A -> bool) (l : list A) :
  (forall a, f a = g a) -> existsb f l = existsb g l.
Proof.
  intros Hfg. induction l as [| a l IH]; simpl; [reflexivity |].
  rewrite Hfg, IH. reflexivity.
Qed.

(** * Scoring (C3) *)

Section Scoring.
Import MyWork.State.

Lemma updateScore_points (s : GameState) (n : Z) :
  1 <= n <= 4 ->
  updateScore s n =
    (scoreForClear n (level s),
     mkGameState (score s + scoreForClear n (level s)) (level s) (lines s)
                 (isPaused s) (isGameOver s) (isRunning s)).
Proof.
  intros Hn.
  assert (n = 1 \/ n = 2 \/ n = 3 \/ n = 4) as Hcases by lia.
  destruct Hcases as [-> | [-> | [-> | ->]]]; reflexivity.
Qed.

Lemma examples_updateScore_points (g : Examples.TetrisGame) (n : Z) :
  1 <= n <= 4 ->
  exists g', Examples.updateScore g n = Some g'
             /\ Examples.score g' = Examples.score g + scoreForClear n (Examples.level g).
Proof.
  intros Hn.
  assert (n = 1 \/ n = 2 \/ n = 3 \/ n = 4) as Hcases by lia.
  unfold Examples.updateScore.
  destruct Hcases as [-> | [-> | [-> | ->]]]; simpl;
    match goal with |- context [if ?c then _ else _] => destruct c end;
    eexists; (split; [reflexivity | reflexivity]).
Qed.
End Scoring.

(** C3. At level [L >= 1], clearing [n] lines at once, [n] in 1..4, awards
    [{100, 300, 500, 800}[n-1] * L] points: [GameState.updateScore] returns
    that amount and adds exactly it to the stored score (nothing else
    changes), and [TetrisGame.updateScore] adds exactly it to its score. *)
Theorem C3_score_for_clear (L n : Z) (s : MyWork.State.GameState)
    (g : Examples.TetrisGame) :
  1 <= L -> 1 <= n <= 4 ->
  MyWork.State.level s = L -> Examples.level g = L ->
  scoreForClear n L = nth (Z.to_nat (n - 1)) [100; 300; 500; 800] 0 * L
  /\ fst (MyWork.State.updateScore s n) = scoreForClear n L
  /\ MyWork.State.score (snd (MyWork.State.updateScore s n))
     = MyWork.State.score s + scoreForClear n L
  /\ exists g', Examples.updateScore g n = Some g'
                /\ Examples.score g' = Examples.score g + scoreForClear n L.
Proof.
  intros HL Hn Hs Hg. subst L.
  split.
  { assert (n = 1 \/ n = 2 \/ n = 3 \/ n = 4) as Hcases by lia.
    destruct Hcases as [-> | [-> | [-> | ->]]]; reflexivity. }
  rewrite (updateScore_points s n Hn). simpl.
  split; [reflexivity | split; [reflexivity |]].
  rewrite <- Hg. apply examples_updateScore_points; assumption.
Qed.

Lemma C3_score_for_clear_witness :
  scoreForClear 4 3 = nth (Z.to_nat (4 - 1)) [100; 300; 500; 800] 0 * 3
  /\ fst (MyWork.State.updateScore sample_state 4) = scoreForClear 4 3
  /\ MyWork.State.score (snd (MyWork.State.updateScore sample_state 4))
     = MyWork.State.score sample_state + scoreForClear 4 3
  /\ exists g', Examples.updateScore sample_game 4 = Some g'
                /\ Examples.score g' = Examples.score sample_game + scoreForClear 4 3.
Proof.
  apply (C3_score_for_clear 3 4 sample_state sample_game);
    [lia | lia | reflexivity | reflexivity].
Defined.

(** * Lines and levels (C4) *)

Section Levels.
Import MyWork.State.

Lemma addLines_lines (s : GameState) (n : Z) :
  0 <= n -> lines (snd (addLines s n)) = lines s + n.
Proof.
  intros Hn. unfold addLines.
  destruct (Z.ltb_spec n 0); [lia | reflexivity].
Qed.

Lemma addLines_level (s : GameState) (n : Z) :
  0 <= n -> level s <= (lines s + n) / 10 + 1 ->
  level (snd (addLines s n)) = (lines s + n) / 10 + 1.
Proof.
  intros Hn Hle. unfold addLines.
  destruct (Z.ltb_spec n 0); [lia |]. simpl.
  destruct (Z.gtb_spec ((lines s + n) / 10 + 1) (level s)); [reflexivity | lia].
Qed.

Lemma addLines_flag (s : GameState) (n : Z) :
  0 <= n ->
  fst (addLines s n) = (level (snd (addLines s n)) >? level s).
Proof.
  intros Hn. unfold addLines.
  destruct (Z.ltb_spec n 0); [lia |]. simpl.
  destruct (Z.gtb_spec ((lines s + n) / 10 + 1) (level s)) as [Hgt | Hle].
  - symmetry. apply Z.gtb_lt. lia.
  - symmetry. rewrite Z.gtb_ltb. apply Z.ltb_irrefl.
Qed.

Lemma counts_ok_call (s : GameState) (c : Call) :
  is_fix c = false -> counts_ok s -> counts_ok (call s c).
Proof.
  intros Hc [Hl Hlev].
  destruct c; simpl in *; try discriminate; unfold counts_ok.
  - split; [simpl; lia | reflexivity].
  - unfold setPaused. destruct (isGameOver s); simpl; auto.
  - unfold setGameOver. destruct gameOver; simpl; auto.
  - unfold setRunning. destruct running; simpl; auto.
  - unfold updateScore.
    destruct ((linesCleared <? 0) || (linesCleared >? 4)); simpl; auto.
    destruct (linesCleared =? 0); simpl; auto.
  - destruct (Z.ltb_spec linesCleared 0) as [Hneg | Hpos].
    + unfold addLines. apply Z.ltb_lt in Hneg. rewrite Hneg. simpl. auto.
    + rewrite addLines_lines by lia.
      rewrite addLines_level; [split; [lia | reflexivity] | lia |].
      rewrite Hlev.
      assert (lines s / 10 <= (lines s + linesCleared) / 10)
        by (apply Z.div_le_mono; lia).
      lia.
  - unfold awardSoftDropPoints. destruct (cellsDropped <=? 0); simpl; auto.
  - unfold awardHardDropPoints. destruct (cellsDropped <=? 0); simpl; auto.
  - unfold processLineClear.
    destruct (updateScore s linesCleared) as [pts s1] eqn:Hup.
    assert (lines s1 = lines s /\ level s1 = level s) as [Hl1 Hlev1].
    { unfold updateScore in Hup.
      destruct ((linesCleared <? 0) || (linesCleared >? 4));
        [inversion Hup; subst; auto |].
      destruct (linesCleared =? 0); inversion Hup; subst; auto. }
    destruct (addLines s1 linesCleared) as [inc s2] eqn:Hadd.
    change s2 with (snd (inc, s2)). rewrite <- Hadd.
    destruct (Z.ltb_spec linesCleared 0) as [Hneg | Hpos].
    + unfold addLines. apply Z.ltb_lt in Hneg. rewrite Hneg. simpl.
      rewrite Hl1, Hlev1. auto.
    + rewrite addLines_lines by lia.
      rewrite addLines_level; [split; [lia | reflexivity] | lia |].
      rewrite Hl1, Hlev1, Hlev.
      assert (lines s / 10 <= (lines s + linesCleared) / 10)
        by (apply Z.div_le_mono; lia).
      lia.
Qed.

(** Driven by any calls but [fixInvalidState], the level is always
    [floor(lines / 10) + 1]. *)
Lemma reachable_counts_ok (s : GameState) :
  reachable_nofix s -> counts_ok s.
Proof.
  induction 1 as [| s c Hs IH Hc].
  - split; [simpl; lia | reflexivity].
  - apply counts_ok_call; assumption.
Qed.
End Levels.

Section ExamplesLevels.
Import Examples.

Lemma spawnNewPiece_stats (g : TetrisGame) rnd :
  lines (spawnNewPiece g rnd) = lines g
  /\ level (spawnNewPiece g rnd) = level g
  /\ dropInterval (spawnNewPiece g rnd) = dropInterval g
  /\ score (spawnNewPiece g rnd) = score g.
Proof.
  unfold spawnNewPiece. simpl.
  destruct (checkCollision _ _ _ _); simpl; auto.
Qed.

Lemma updateScore_fields (g g' : TetrisGame) (n : Z) :
  0 < n -> updateScore g n = Some g' ->
  lines g' = lines g + n
  /\ level g' = Z.max (level g) ((lines g + n) / 10 + 1)
  /\ dropInterval g' =
       (if (lines g + n) / 10 + 1 >? level g
        then Z.max 100 (1000 - ((lines g + n) / 10 + 1 - 1) * 100)
        else dropInterval g).
Proof.
  intros Hn. unfold updateScore.
  destruct (Z.gtb_spec n 0); [| lia].
  destruct (js_index pointsTable n) as [base |]; simpl; [| discriminate].
  destruct (Z.gtb_spec ((lines g + n) / 10 + 1) (level g));
    intros [= <-]; simpl; repeat split; lia.
Qed.

Lemma stats_ok_updateScore (g g' : TetrisGame) (n : Z) :
  stats_ok g -> updateScore g n = Some g' -> stats_ok g'.
Proof.
  intros (Hl & Hlev & Hdrop) Hup.
  destruct (Z.gtb_spec n 0) as [Hpos | Hnpos].
  - destruct (updateScore_fields g g' n ltac:(lia) Hup) as (H1 & H2 & H3).
    assert (lines g / 10 <= (lines g + n) / 10)
      by (apply Z.div_le_mono; lia).
    unfold stats_ok. rewrite H1, H2, H3.
    destruct (Z.gtb_spec ((lines g + n) / 10 + 1) (level g));
      repeat split; lia.
  - unfold updateScore in Hup.
    destruct (Z.gtb_spec n 0); [lia |]. inversion Hup; subst.
    repeat split; assumption.
Qed.

(** After [startNewGame], through every [updateScore], the level is
    [floor(lines / 10) + 1] and the drop interval is the linear
    [max(100, 1000 - 100 (level - 1))]. *)
Lemma scored_stats_ok (g : TetrisGame) : scored g -> stats_ok g.
Proof.
  induction 1 as [g r1 r2 | g n g' Hs IH Hup].
  - unfold startNewGame.
    destruct (spawnNewPiece_stats
                (mkTetrisGame createEmptyBoard (currentPiece g)
                   (createPiece r1) 0 1 0 true false 1000) r2)
      as (H1 & H2 & H3 & _).
    unfold stats_ok. rewrite H1, H2, H3. simpl. repeat split; lia.
  - eapply stats_ok_updateScore; eassumption.
Qed.
End ExamplesLevels.

(** C4. From a state whose level is in step with its non-negative line
    total, accounting for a clear of [n] lines adds [n] to the total and
    leaves the level at [floor(totalLines / 10) + 1]; the flag returned by
    [GameState.addLines] says whether the level went up; a clear of at most
    10 lines raises the level by at most one, and clearing 4 lines at 8
    lines (12 in total) raises it by exactly one.  The same holds of
    [TetrisGame.updateScore] for a clear of 1 to 4 lines. *)
Theorem C4_level_progression (s : MyWork.State.GameState)
    (g : Examples.TetrisGame) (n : Z) :
  0 <= MyWork.State.lines s ->
  MyWork.State.level s = MyWork.State.lines s / 10 + 1 ->
  0 <= Examples.lines g ->
  Examples.level g = Examples.lines g / 10 + 1 ->
  0 <= n ->
  let s' := snd (MyWork.State.addLines s n) in
  (MyWork.State.lines s' = MyWork.State.lines s + n
   /\ MyWork.State.level s' = MyWork.State.lines s' / 10 + 1
   /\ fst (MyWork.State.addLines s n)
      = (MyWork.State.level s' >? MyWork.State.level s)
   /\ MyWork.State.level s <= MyWork.State.level s'
   /\ (n <= 10 -> MyWork.State.level s' <= MyWork.State.level s + 1)
   /\ (MyWork.State.lines s = 8 -> n = 4 ->
       MyWork.State.level s' = MyWork.State.level s + 1))
  /\ (1 <= n <= 4 ->
      exists g', Examples.updateScore g n = Some g'
        /\ Examples.lines g' = Examples.lines g + n
        /\ Examples.level g' = Examples.lines g' / 10 + 1
        /\ Examples.level g <= Examples.level g' <= Examples.level g + 1
        /\ (Examples.lines g = 8 -> n = 4 ->
            Examples.level g' = Examples.level g + 1)).
Proof.
  intros Hl Hlev Hgl Hglev Hn s'.
  assert (MyWork.State.lines s / 10 <= (MyWork.State.lines s + n) / 10) as Hmono
    by (apply Z.div_le_mono; lia).
  assert (MyWork.State.lines s' = MyWork.State.lines s + n) as Hlines
    by (apply addLines_lines; lia).
  assert (MyWork.State.level s' = (MyWork.State.lines s + n) / 10 + 1) as Hlevel
    by (apply addLines_level; lia).
  split.
  - split; [exact Hlines |].
    split; [rewrite Hlines; exact Hlevel |].
    split; [apply addLines_flag; lia |].
    split; [lia |].
    split.
    + intros Hn10. rewrite Hlevel, Hlev.
      assert ((MyWork.State.lines s + n) / 10
              <= (MyWork.State.lines s + 10) / 10)
        by (apply Z.div_le_mono; lia).
      replace (MyWork.State.lines s + 10)
        with (MyWork.State.lines s + 1 * 10) in H by lia.
      rewrite Z.div_add in H by lia. lia.
    + intros H8 H4. rewrite Hlevel, Hlev, H8, H4. reflexivity.
  - intros Hn14.
    destruct (examples_updateScore_points g n Hn14) as (g' & Hup & _).
    exists g'. split; [exact Hup |].
    destruct (updateScore_fields g g' n ltac:(lia) Hup) as (H1 & H2 & _).
    assert (Examples.lines g / 10 <= (Examples.lines g + n) / 10) as Hm
      by (apply Z.div_le_mono; lia).
    assert ((Examples.lines g + n) / 10 <= Examples.lines g / 10 + 1) as Hm1.
    { assert ((Examples.lines g + n) / 10 <= (Examples.lines g + 1 * 10) / 10)
        as H by (apply Z.div_le_mono; lia).
      rewrite Z.div_add in H by lia. exact H. }
    split; [exact H1 |].
    split; [rewrite H1, H2; lia |].
    split; [rewrite H2; lia |].
    intros H8 H4. rewrite H2, Hglev, H8, H4. reflexivity.
Qed.

Lemma C4_level_progression_witness :
  let s' := snd (MyWork.State.addLines state_8_lines 4) in
  (MyWork.State.lines s' = MyWork.State.lines state_8_lines + 4
   /\ MyWork.State.level s' = MyWork.State.lines s' / 10 + 1
   /\ fst (MyWork.State.addLines state_8_lines 4)
      = (MyWork.State.level s' >? MyWork.State.level state_8_lines)
   /\ MyWork.State.level state_8_lines <= MyWork.State.level s'
   /\ (4 <= 10 -> MyWork.State.level s' <= MyWork.State.level state_8_lines + 1)
   /\ (MyWork.State.lines state_8_lines = 8 -> 4 = 4 ->
       MyWork.State.level s' = MyWork.State.level state_8_lines + 1))
  /\ (1 <= 4 <= 4 ->
      exists g', Examples.updateScore game_8_lines 4 = Some g'
        /\ Examples.lines g' = Examples.lines game_8_lines + 4
        /\ Examples.level g' = Examples.lines g' / 10 + 1
        /\ Examples.level game_8_lines <= Examples.level g'
           <= Examples.level game_8_lines + 1
        /\ (Examples.lines game_8_lines = 8 -> 4 = 4 ->
            Examples.level g' = Examples.level game_8_lines + 1)).
Proof.
  apply (C4_level_progression state_8_lines game_8_lines 4);
    [simpl; lia | reflexivity | simpl; lia | reflexivity | lia].
Defined.

(** * Drop interval (C5) *)

Section DropInterval.
Import Examples.

Lemma scored_play (ns : list Z) (g g' : TetrisGame) :
  scored g -> play_scores g ns = Some g' -> scored g'.
Proof.
  unfold play_scores. revert g.
  induction ns as [| n ns IH]; simpl; intros g Hg Hplay.
  - inversion Hplay; subst; exact Hg.
  - destruct (updateScore g n) as [g1 |] eqn:Hup.
    + apply (IH g1); [eapply scored_update; eassumption | exact Hplay].
    + exfalso. clear -Hplay.
      induction ns as [| m ns IHns]; simpl in Hplay; [discriminate | auto].
Qed.

Lemma scored_level (lv di : Z) (ns : list Z) :
  (exists g', play_scores game_start ns = Some g'
              /\ level g' = lv /\ dropInterval g' = di) ->
  exists g', scored g' /\ level g' = lv /\ dropInterval g' = di.
Proof.
  intros (g' & Hplay & Hlv & Hdi). exists g'.
  split; [| auto].
  eapply scored_play; [apply scored_start | exact Hplay].
Qed.
End DropInterval.


(** ** Doubles: rounding of a product *)

Section Rounding.

(** [digits2_pos p] is the number of binary digits of [p]. *)
Lemma digits2_pos_bounds (p : positive) :
  2 ^ (Zpos (digits2_pos p) - 1) <= Zpos p < 2 ^ Zpos (digits2_pos p).
Proof.
  induction p as [p IH | p IH |]; simpl digits2_pos.
  - rewrite Pos2Z.inj_succ. change (Zpos p~1) with (2 * Zpos p + 1).
    replace (Z.succ (Zpos (digits2_pos p)) - 1) with (Zpos (digits2_pos p)) by lia.
    rewrite Z.pow_succ_r by lia.
    assert (2 ^ Zpos (digits2_pos p) = 2 * 2 ^ (Zpos (digits2_pos p) - 1)) as Hp
      by (rewrite <- Z.pow_succ_r by lia; f_equal; lia).
    lia.
  - rewrite Pos2Z.inj_succ. change (Zpos p~0) with (2 * Zpos p).
    replace (Z.succ (Zpos (digits2_pos p)) - 1) with (Zpos (digits2_pos p)) by lia.
    rewrite Z.pow_succ_r by lia.
    assert (2 ^ Zpos (digits2_pos p) = 2 * 2 ^ (Zpos (digits2_pos p) - 1)) as Hp
      by (rewrite <- Z.pow_succ_r by lia; f_equal; lia).
    lia.
  - simpl. lia.
Qed.

Lemma iter_pos_comm {A} (f : A -> A) (p : positive) (x : A) :
  SpecFloat.iter_pos f p (f x) = f (SpecFloat.iter_pos f p x).
Proof.
  revert x. induction p as [p IH | p IH |]; intros x; simpl.
  - rewrite !IH. reflexivity.
  - rewrite !IH. reflexivity.
  - reflexivity.
Qed.

Lemma iter_pos_nat {A} (f : A -> A) (p : positive) (x : A) :
  SpecFloat.iter_pos f p x = Nat.iter (Pos.to_nat p) f x.
Proof.
  revert x. induction p as [p IH | p IH |]; intros x.
  - simpl SpecFloat.iter_pos. rewrite !iter_pos_comm, !IH.
    rewrite Pos2Nat.inj_xI.
    replace (S (2 * Pos.to_nat p)) with (S (Pos.to_nat p + Pos.to_nat p)) by lia.
    rewrite Nat.iter_succ, Nat.iter_add. reflexivity.
  - simpl SpecFloat.iter_pos. rewrite !IH.
    rewrite Pos2Nat.inj_xO.
    replace (2 * Pos.to_nat p)%nat with (Pos.to_nat p + Pos.to_nat p)%nat by lia.
    rewrite Nat.iter_add. reflexivity.
  - reflexivity.
Qed.

Lemma shr_1_nonneg (m : Z) (r s : bool) :
  0 <= m ->
  shr_1 (Build_shr_record m r s) = Build_shr_record (m / 2) (Z.odd m) (r || s).
Proof.
  intros Hm. rewrite <- Z.div2_div.
  destruct m as [| [p | p |] | p]; try reflexivity; lia.
Qed.

(** One more shift keeps [shr_shifted]. *)
Lemma shifted_step (M : Z) (k : Z) (mrs : shr_record) :
  0 <= M -> 0 <= k -> shr_shifted M k mrs -> shr_shifted M (k + 1) (shr_1 mrs).
Proof.
  intros HM Hk [Hm (t & Hrest & Ht0 & Ht1 & Hs)].
  destruct mrs as [m r s]. simpl in Hm, Hrest, Hs.
  assert (0 < 2 ^ k) as Hpow by (apply Z.pow_pos_nonneg; lia).
  assert (0 <= m) as Hm0 by (subst m; apply Z.div_pos; lia).
  rewrite (shr_1_nonneg m r s Hm0).
  assert (2 ^ (k + 1) = 2 * 2 ^ k) as Hp1 by (rewrite Z.pow_add_r by lia; lia).
  pose proof (Z.mod_pos_bound M (2 ^ k) Hpow) as Hb.
  pose proof (Z.div_mod M (2 ^ k) ltac:(lia)) as Hdm.
  pose proof (Z.div_mod m 2 ltac:(lia)) as Hdm2.
  pose proof (Z.mod_pos_bound m 2 ltac:(lia)) as Hb2.
  assert (M / 2 ^ (k + 1) = m / 2) as Hdiv.
  { rewrite Hp1, Z.mul_comm, <- Z.div_div by lia. rewrite <- Hm. reflexivity. }
  assert (M mod 2 ^ (k + 1) = m mod 2 * 2 ^ k + M mod 2 ^ k) as Hmod.
  { symmetry. apply (Z.mod_unique_pos _ _ (m / 2)); [nia |]. rewrite Hp1. nia. }
  split; [simpl; symmetry; exact Hdiv |].
  exists (M mod 2 ^ k). simpl.
  rewrite Hmod, Hp1.
  assert (Z.odd m = true /\ m mod 2 = 1 \/ Z.odd m = false /\ m mod 2 = 0) as Hodd.
  { rewrite Zmod_odd. destruct (Z.odd m); auto. }
  split; [destruct Hodd as [[-> ->] | [-> ->]]; lia |].
  split; [lia |]. split; [lia |].
  rewrite Hs. destruct r.
  - destruct (Z.eqb_spec (M mod 2 ^ k) 0); [lia | reflexivity].
  - destruct (Z.eqb_spec t 0), (Z.eqb_spec (M mod 2 ^ k) 0); simpl; lia || reflexivity.
Qed.

Lemma shifted_iter (M : Z) (k : nat) :
  0 <= M ->
  shr_shifted M (Z.of_nat k) (Nat.iter k shr_1 (Build_shr_record M false false)).
Proof.
  intros HM. induction k as [| k IH].
  - simpl. split; [simpl; rewrite Z.div_1_r; reflexivity |].
    exists 0. simpl. rewrite Z.mod_1_r. repeat split; lia.
  - rewrite Nat2Z.inj_succ, <- Z.add_1_r. simpl Nat.iter.
    apply shifted_step; [exact HM | lia | exact IH].
Qed.

(** Rounding to nearest after [n >= 1] shifts: the mantissa is the
    quotient or its successor, at most half a unit away from [M]. *)
Lemma round_shifted (M n : Z) (mrs : shr_record) :
  0 <= M -> 1 <= n -> shr_shifted M n mrs ->
  let m2 := round_nearest_even (shr_m mrs) (loc_of_shr_record mrs) in
  M / 2 ^ n <= m2 <= M / 2 ^ n + 1
  /\ 2 * Z.abs (m2 * 2 ^ n - M) <= 2 ^ n.
Proof.
  intros HM Hn [Hm (t & Hrest & Ht0 & Ht1 & Hs)] m2.
  destruct mrs as [m r s]. simpl in *. subst m.
  assert (0 < 2 ^ n) as Hpow by (apply Z.pow_pos_nonneg; lia).
  pose proof (Z.div_mod M (2 ^ n) ltac:(lia)) as Hdm.
  pose proof (Z.mod_pos_bound M (2 ^ n) Hpow) as Hb.
  set (q := M / 2 ^ n) in *. set (rest := M mod 2 ^ n) in *.
  assert (m2 = q \/ m2 = q + 1) as Hcases.
  { unfold m2. destruct r, s; simpl; auto. destruct (Z.even q); auto. }
  destruct r, s; simpl in m2.
  - assert (m2 = q + 1) as -> by reflexivity.
    destruct (Z.eqb_spec t 0); [discriminate |]. split; [lia |]. nia.
  - destruct (Z.eqb_spec t 0); [| discriminate]. subst t.
    split; [lia |]. destruct Hcases as [-> | ->]; nia.
  - assert (m2 = q) as -> by reflexivity. split; [lia |]. nia.
  - assert (m2 = q) as -> by reflexivity.
    destruct (Z.eqb_spec t 0); [| discriminate]. split; [lia |]. nia.
Qed.


Lemma fexp_eq (x : Z) : fexp prec emax x = Z.max (x - 53) (-1074).
Proof. reflexivity. Qed.

Lemma Zdigits2_bounds (m : Z) :
  0 < m -> 2 ^ (Zdigits2 m - 1) <= m < 2 ^ Zdigits2 m.
Proof.
  destruct m as [| p | p]; try lia. intros _. apply digits2_pos_bounds.
Qed.

Lemma pow2_lt_inv (a b : Z) : 0 <= b -> 2 ^ a < 2 ^ b -> a < b.
Proof.
  intros Hb Hlt. destruct (Z.lt_ge_cases a b) as [H | H]; [exact H |].
  exfalso. assert (2 ^ b <= 2 ^ a) by (apply Z.pow_le_mono_r; lia). lia.
Qed.

Lemma shr_fexp_first (M : positive) (E : Z) :
  let e' := fexp prec emax (Zpos (digits2_pos M) + E) in
  E < e' ->
  exists mrs, shr_fexp prec emax (Zpos M) E loc_Exact = (mrs, e')
              /\ shr_shifted (Zpos M) (e' - E) mrs.
Proof.
  intros e' Hn. unfold shr_fexp. cbn [Zdigits2 shr_record_of_loc]. fold e'.
  destruct (e' - E) as [| np |] eqn:Hnp; try lia.
  unfold shr. rewrite iter_pos_nat.
  eexists. split; [f_equal; lia |].
  rewrite <- (positive_nat_Z np). apply shifted_iter. lia.
Qed.

Lemma shr_fexp_second (m2 e' : Z) :
  0 <= m2 <= 2 ^ 53 -> -1074 <= e' ->
  shr_fexp prec emax m2 e' loc_Exact
  = if m2 =? 2 ^ 53 then (Build_shr_record (2 ^ 52) false false, e' + 1)
    else (Build_shr_record m2 false false, e').
Proof.
  intros Hm He. unfold shr_fexp. cbn [shr_record_of_loc]. rewrite fexp_eq.
  destruct (Z.eqb_spec m2 (2 ^ 53)) as [-> | Hne].
  - change (Zdigits2 (2 ^ 53)) with 54.
    replace (Z.max (54 + e' - 53) (-1074) - e') with 1 by lia.
    unfold shr. f_equal.
  - assert (Z.max (Zdigits2 m2 + e' - 53) (-1074) - e' <= 0) as Hshift.
    { destruct (Z.eq_dec m2 0) as [-> | H0]; [simpl; lia |].
      pose proof (Zdigits2_bounds m2 ltac:(lia)) as Hdig.
      assert (Zdigits2 m2 - 1 < 53); [| lia].
      apply pow2_lt_inv; lia. }
    unfold shr.
    destruct (Z.max (Zdigits2 m2 + e' - 53) (-1074) - e'); try lia; reflexivity.
Qed.

(** Rounding a product [M * 2^E] that has digits to lose. *)
Lemma round_product (M : positive) (E : Z) :
  let e' := fexp prec emax (Zpos (digits2_pos M) + E) in
  E < e' -> e' + 1 <= 971 ->
  exists mf ef,
    binary_round_aux prec emax false (Zpos M) E loc_Exact
    = match mf with
      | Zpos m => S754_finite false m ef
      | _ => S754_zero false
      end
    /\ 0 <= mf < 2 ^ 53
    /\ e' <= ef <= e' + 1
    /\ 2 * Z.abs (mf * 2 ^ (ef - E) - Zpos M) <= 2 ^ (e' - E)
    /\ (-1074 < ef -> 2 ^ 52 <= mf).
Proof.
  intros e' Hn Hmax.
  pose proof (digits2_pos_bounds M) as Hd.
  destruct (shr_fexp_first M E Hn) as (mrs & Hfirst & Hsh). fold e' in Hfirst, Hsh.
  set (d := Zpos (digits2_pos M)) in *.
  assert (e' = Z.max (d + E - 53) (-1074)) as He' by reflexivity.
  set (n := e' - E) in *.
  assert (1 <= n) as Hn1 by (unfold n; lia).
  assert (0 < 2 ^ n) as Hpow by (apply Z.pow_pos_nonneg; lia).
  assert (d <= n + 53) as Hdn by (unfold n; lia).
  assert (Zpos M < 2 ^ (n + 53)) as HM.
  { eapply Z.lt_le_trans; [apply Hd |]. apply Z.pow_le_mono_r; lia. }
  assert (2 ^ (n + 53) = 2 ^ n * 2 ^ 53) as Hsplit by (apply Z.pow_add_r; lia).
  assert (Zpos M / 2 ^ n < 2 ^ 53) as Hq.
  { apply Z.div_lt_upper_bound; [exact Hpow |]. lia. }
  assert (0 <= Zpos M / 2 ^ n) as Hq0 by (apply Z.div_pos; lia).
  assert (-1074 < e' -> 2 ^ 52 <= Zpos M / 2 ^ n) as Hqlow.
  { intros Hnorm. apply Z.div_le_lower_bound; [exact Hpow |].
    assert (d - 1 = n + 52) as Hd1 by (unfold n; lia).
    rewrite Hd1 in Hd. rewrite Z.pow_add_r in Hd by lia. lia. }
  destruct (round_shifted (Zpos M) n mrs ltac:(lia) Hn1 Hsh) as [Hm2 Herr].
  unfold binary_round_aux. rewrite Hfirst.
  set (m2 := round_nearest_even (shr_m mrs) (loc_of_shr_record mrs)) in *.
  rewrite (shr_fexp_second m2 e') by lia.
  destruct (Z.eqb_spec m2 (2 ^ 53)) as [Htop | Hne].
  - exists (2 ^ 52), (e' + 1). cbn [shr_m].
    change (2 ^ 52) with (Zpos (Z.to_pos (2 ^ 52))) at 1. cbv iota.
    destruct (Z.leb_spec (e' + 1) (emax - prec)) as [_ | Hbad];
      [| unfold emax, prec in Hbad; lia].
    split; [reflexivity |]. split; [lia |]. split; [lia |].
    split.
    + rewrite Htop in Herr. replace (e' + 1 - E) with (n + 1) by (unfold n; lia).
      rewrite Z.pow_add_r by lia.
      replace (2 ^ 52 * (2 ^ n * 2 ^ 1)) with (2 ^ 53 * 2 ^ n) by lia.
      exact Herr.
    + intros _. lia.
  - exists m2, e'. cbn [shr_m].
    assert (0 <= m2 < 2 ^ 53) as Hr by lia.
    split.
    + destruct m2 as [| pm |]; try lia; [reflexivity |].
      destruct (Z.leb_spec e' (emax - prec)) as [_ | Hbad];
        [reflexivity | unfold emax, prec in Hbad; lia].
    + split; [exact Hr |]. split; [lia |]. split; [exact Herr |].
      intros Hnorm. specialize (Hqlow Hnorm). lia.
Qed.

End Rounding.

Section Values.

(** Powers of two in [Q]. *)
Lemma Qpow2_pos (e : Z) : (0 < 2 ^ e)%Q.
Proof. apply Qpower_0_lt. reflexivity. Qed.

Lemma Qpow2_add (a b : Z) : (2 ^ (a + b) == 2 ^ a * 2 ^ b)%Q.
Proof. apply Qpower_plus. discriminate. Qed.

Lemma Qpow2_inj (n : Z) : 0 <= n -> (2 ^ n == inject_Z (2 ^ n))%Q.
Proof. intros Hn. rewrite Zpower_Qpower by exact Hn. reflexivity. Qed.

Lemma Qpow2_le (a b : Z) : a <= b -> (2 ^ a <= 2 ^ b)%Q.
Proof.
  intros Hab. replace b with (a + (b - a)) by lia.
  rewrite Qpow2_add, (Qpow2_inj (b - a)) by lia.
  pose proof (Qpow2_pos a) as Ha.
  assert (1 <= 2 ^ (b - a)) as H1 by (apply (Z.pow_le_mono_r 2 0); lia).
  assert (1 <= inject_Z (2 ^ (b - a)))%Q as H1q
    by (change 1%Q with (inject_Z 1); rewrite <- Zle_Qle; exact H1).
  nra.
Qed.

(** The mantissa and exponent of a double are canonical. *)
Lemma valid_finite (x : float) (s : bool) (m : positive) (e : Z) :
  Prim2SF x = S754_finite s m e ->
  Z.max (Zpos (digits2_pos m) + e - 53) (-1074) = e /\ e <= 971.
Proof.
  intros Hx. pose proof (Prim2SF_valid x) as Hv. rewrite Hx in Hv.
  unfold SpecFloat.valid_binary, bounded, canonical_mantissa in Hv.
  apply andb_true_iff in Hv as [Hc Hb].
  apply Z.eqb_eq in Hc. apply Z.leb_le in Hb. rewrite fexp_eq in Hc.
  unfold emax, prec in Hb. lia.
Qed.

(** The product [1000 * p] of a positive double [p = m * 2^e]: a double
    [mf * 2^ef] (zero when [mf = 0]) within half a unit in the last place
    of [1000 * m * 2^e]. *)
Lemma mul_1000_finite (p : float) (m : positive) (e : Z) :
  Prim2SF p = S754_finite false m e -> e <= 900 ->
  exists mf ef,
    Prim2SF (1000 * p)%float
    = match mf with
      | Zpos m' => S754_finite false m' ef
      | _ => S754_zero false
      end
    /\ 0 <= mf < 2 ^ 53
    /\ -1074 <= ef
    /\ (-1073 <= ef -> 2 ^ 52 <= mf)
    /\ let w := (inject_Z mf * 2 ^ ef)%Q in
       let x := (1000 * (inject_Z (Zpos m) * 2 ^ e))%Q in
       (w - x <= 2 ^ (-53) * Qmax x 50 /\ x - w <= 2 ^ (-53) * Qmax x 50)%Q.
Proof.
  intros Hp He.
  destruct (valid_finite p false m e Hp) as [Hcan _].
  set (M := (8796093022208000 * m)%positive).
  set (E := -43 + e).
  assert (Prim2SF (1000 * p)%float
          = binary_round_aux prec emax false (Zpos M) E loc_Exact) as Hmul.
  { rewrite mul_spec, Hp. reflexivity. }
  pose proof (digits2_pos_bounds M) as Hd.
  pose proof (digits2_pos_bounds m) as Hdm.
  set (d := Zpos (digits2_pos M)) in *.
  set (dm := Zpos (digits2_pos m)) in *.
  assert (Zpos M = 8796093022208000 * Zpos m) as HM by reflexivity.
  assert (0 < dm) as Hdm0 by (unfold dm; lia).
  assert (2 ^ dm = 2 * 2 ^ (dm - 1)) as Hdm2
    by (rewrite <- Z.pow_succ_r by lia; f_equal; lia).
  assert (dm + 52 <= d - 1 + 1 /\ d <= dm + 53) as [Hdlo Hdhi].
  { split.
    - assert (dm - 1 + 52 < d); [| lia].
      apply pow2_lt_inv; [unfold d; lia |].
      rewrite Z.pow_add_r by lia.
      assert (2 ^ 52 <= 8796093022208000) by (vm_compute; discriminate).
      nia.
    - assert (d - 1 < dm + 53); [| lia].
      apply pow2_lt_inv; [lia |].
      rewrite Z.pow_add_r by lia.
      assert (8796093022208000 < 2 ^ 53) by (vm_compute; reflexivity).
      nia. }
  set (e' := fexp prec emax (d + E)).
  assert (e' = Z.max (d + E - 53) (-1074)) as He' by reflexivity.
  assert (E < e') as Hlt by (unfold E in *; lia).
  destruct (round_product M E Hlt ltac:(fold d; fold e'; unfold E in *; lia))
    as (mf & ef & Hres & Hmf & Hef & Herr & Hnorm).
  fold d in Hef, Herr, Hnorm. fold e' in Hef, Herr, Hnorm.
  exists mf, ef. rewrite Hmul.
  split; [exact Hres |]. split; [exact Hmf |]. split; [lia |].
  split; [intros Hn; apply Hnorm; lia |].
  intros w x.
  (* the error, over the rationals *)
  set (A := mf * 2 ^ (ef - E) - Zpos M) in *.
  assert (w - x == 2 ^ E * inject_Z A)%Q as Hdiff.
  { unfold w, x, A.
    replace (mf * 2 ^ (ef - E) - Zpos M) with (mf * 2 ^ (ef - E) + - Zpos M)
      by lia.
    rewrite inject_Z_plus, inject_Z_opp, inject_Z_mult.
    rewrite <- (Qpow2_inj (ef - E)) by lia.
    replace ef with (E + (ef - E)) at 1 by lia. rewrite Qpow2_add.
    rewrite HM, inject_Z_mult. unfold E. rewrite Qpow2_add.
    assert (inject_Z 8796093022208000 * 2 ^ (-43) == 1000)%Q as H43
      by (vm_compute; reflexivity).
    rewrite <- H43. ring. }
  assert (inject_Z 2 * inject_Z (Z.abs A) <= 2 ^ (e' - E))%Q as HerrQ.
  { rewrite (Qpow2_inj (e' - E)) by lia. rewrite <- inject_Z_mult, <- Zle_Qle.
    exact Herr. }
  pose proof (Qpow2_add E (e' - E)) as Hsplit.
  replace (E + (e' - E)) with e' in Hsplit by lia.
  pose proof (Qpow2_pos E) as HE0.
  assert (x == 2 ^ E * inject_Z (Zpos M))%Q as Hx.
  { unfold x. rewrite HM, inject_Z_mult. unfold E. rewrite Qpow2_add.
    assert (inject_Z 8796093022208000 * 2 ^ (-43) == 1000)%Q as H43
      by (vm_compute; reflexivity).
    rewrite <- H43. ring. }
  assert (2 ^ e' <= 2 ^ (-52) * Qmax x 50)%Q as Hulp.
  { destruct (Z.max_spec (d + E - 53) (-1074)) as [[_ Hm] | [_ Hm]];
      rewrite <- He' in Hm.
    - rewrite Hm. eapply Qle_trans; [apply (Qpow2_le (-1074) (-52)); lia |].
      pose proof (Q.le_max_r x 50). pose proof (Qpow2_pos (-52)). nra.
    - assert (2 ^ e' == 2 ^ (-52) * (2 ^ E * 2 ^ (d - 1)))%Q as ->.
      { rewrite <- !Qpow2_add.
        replace (-52 + (E + (d - 1))) with e' by lia. reflexivity. }
      assert (2 ^ E * 2 ^ (d - 1) <= x)%Q as Hle.
      { rewrite Hx, (Qpow2_inj (d - 1)) by (unfold d; lia).
        apply Qmult_le_l; [exact HE0 |]. rewrite <- Zle_Qle. apply Hd. }
      pose proof (Q.le_max_l x 50). pose proof (Qpow2_pos (-52)). nra. }
  assert (2 ^ (-52) == 2 * 2 ^ (-53))%Q as H52 by (vm_compute; reflexivity).
  assert (- inject_Z (Z.abs A) <= inject_Z A <= inject_Z (Z.abs A))%Q as Habs.
  { rewrite <- inject_Z_opp, <- !Zle_Qle. lia. }
  assert (inject_Z 2 == 2)%Q as H2 by reflexivity.
  rewrite Hsplit in Hulp. rewrite H52 in Hulp. rewrite H2 in HerrQ.
  set (a := inject_Z (Z.abs A)) in *. set (b := inject_Z A) in *.
  set (u := (2 ^ (e' - E))%Q) in *. set (k := (2 ^ E)%Q) in *.
  set (mx := Qmax x 50) in *. set (eps := (2 ^ (-53))%Q) in *.
  assert (x - w == - (k * b))%Q as Hdiff' by (rewrite <- Hdiff; ring).
  rewrite Hdiff, Hdiff'. split; nra.
Qed.


Lemma Prim2SF_50 : Prim2SF 50 = S754_finite false 7036874417766400 (-47).
Proof. vm_compute. reflexivity. Qed.

Lemma SFltb_finite (m1 : positive) (e1 : Z) (m2 : positive) (e2 : Z) :
  SFltb (S754_finite false m1 e1) (S754_finite false m2 e2)
  = (e1 <? e2) || (e1 =? e2) && (Zpos m1 <? Zpos m2).
Proof.
  unfold SFltb, SFcompare.
  change (Pos.compare_cont Eq m1 m2) with (Pos.compare m1 m2).
  destruct (Z.compare_spec e1 e2) as [He | He | He].
  - subst e2. rewrite Z.ltb_irrefl, Z.eqb_refl. cbn [orb andb].
    unfold Z.ltb. cbn [Z.compare]. reflexivity.
  - apply Z.ltb_lt in He. rewrite He. reflexivity.
  - assert ((e1 <? e2) = false) as -> by (apply Z.ltb_ge; lia).
    assert ((e1 =? e2) = false) as -> by (apply Z.eqb_neq; lia).
    reflexivity.
Qed.

Lemma SFeqb_finite (m : positive) (e : Z) :
  SFeqb (S754_finite false m e) (S754_finite false m e) = true.
Proof.
  unfold SFeqb, SFcompare. rewrite Z.compare_refl, Pos.compare_cont_refl.
  reflexivity.
Qed.

(** [Math.max(50, y)] for a double [y = mf * 2^ef >= 0]: the larger of
    the two. *)
Lemma Math_max_50 (y : float) (mf ef : Z) :
  Prim2SF y = match mf with
              | Zpos m' => S754_finite false m' ef
              | _ => S754_zero false
              end ->
  0 <= mf < 2 ^ 53 -> -1074 <= ef -> (-1073 <= ef -> 2 ^ 52 <= mf) ->
  let w := (inject_Z mf * 2 ^ ef)%Q in
  ((w <= 50)%Q -> Math_max 50 y = 50%float)
  /\ ((50 < w)%Q -> Math_max 50 y = y).
Proof.
  intros Hy Hmf Hef Hnorm w.
  assert (is_nan 50 = false) as Hn50 by (vm_compute; reflexivity).
  assert (get_sign 50 = false) as Hs50 by (vm_compute; reflexivity).
  unfold Math_max. rewrite Hn50, Hs50. unfold is_nan.
  rewrite FloatAxioms.eqb_spec, !FloatAxioms.ltb_spec, Prim2SF_50, Hy.
  destruct mf as [| m |]; [| | lia].
  - (* y = +0 *)
    cbn. split; [reflexivity |].
    unfold w. intros Hw. exfalso. revert Hw. apply Qle_not_lt.
    assert (inject_Z 0 * 2 ^ ef == 0)%Q as -> by (unfold inject_Z; ring).
    discriminate.
  - rewrite SFeqb_finite, !SFltb_finite. cbn [negb orb].
    set (m50 := 7036874417766400%positive).
    assert (Zpos m50 = 7036874417766400) as Hm50 by reflexivity.
    pose proof (Qpow2_pos ef) as Hpos.
    assert (0 < inject_Z (Zpos m))%Q as Hm0 by (rewrite <- (Zlt_Qlt 0); lia).
    destruct (Z.lt_trichotomy ef (-47)) as [Hlt | [Heq | Hgt]].
    + (* smaller exponent: below 32 *)
      assert ((-47 <? ef) = false) as -> by (apply Z.ltb_ge; lia).
      assert ((-47 =? ef) = false) as -> by (apply Z.eqb_neq; lia).
      assert ((ef <? -47) = true) as -> by (apply Z.ltb_lt; lia).
      cbn [orb andb].
      split; [reflexivity |].
      intros Hw. exfalso. revert Hw. apply Qle_not_lt.
      assert (2 ^ ef <= 2 ^ (-48))%Q as Hp by (apply Qpow2_le; lia).
      assert (inject_Z (Zpos m) <= inject_Z (2 ^ 53))%Q as Hm
        by (rewrite <- Zle_Qle; lia).
      assert (inject_Z (2 ^ 53) * 2 ^ (-48) == 32)%Q as H32
        by (vm_compute; reflexivity).
      assert (0 < inject_Z (2 ^ 53))%Q as Hc by (vm_compute; reflexivity).
      assert (0 < 2 ^ (-48))%Q as Hd by (vm_compute; reflexivity).
      unfold w.
      set (a := inject_Z (Zpos m)) in *. set (b := (2 ^ ef)%Q) in *.
      set (c := inject_Z (2 ^ 53)) in *. set (d := (2 ^ (-48))%Q) in *.
      clearbody a b c d. clear - Hp Hm H32 Hc Hd Hpos Hm0.
      assert (a * b <= c * d)%Q; [| lra].
      apply Qle_trans with (c * b)%Q.
      * apply Qmult_le_compat_r; [exact Hm | apply Qlt_le_weak; exact Hpos].
      * rewrite !(Qmult_comm c). apply Qmult_le_compat_r;
          [exact Hp | apply Qlt_le_weak; exact Hc].
    + (* same exponent as 50: compare the mantissas *)
      subst ef. rewrite Z.ltb_irrefl, Z.eqb_refl. cbn [orb andb].
      assert (2 ^ (-47) == 1 # 140737488355328)%Q as H47
        by (vm_compute; reflexivity).
      assert (50 == inject_Z (Zpos m50) * (1 # 140737488355328))%Q as H50
        by (vm_compute; reflexivity).
      unfold w. rewrite H47.
      clearbody m50.
      destruct (Z.ltb_spec (Zpos m50) (Zpos m)) as [Hl | Hge].
      * split; [| reflexivity].
        intros Hw. exfalso. revert Hw. apply Qlt_not_le. rewrite H50.
        apply Qmult_lt_compat_r; [reflexivity |]. rewrite <- Zlt_Qlt. lia.
      * split; [destruct (Zpos m <? Zpos m50); reflexivity |].
        intros Hw. exfalso. revert Hw. apply Qle_not_lt. rewrite H50.
        apply Qmult_le_compat_r; [| discriminate]. rewrite <- Zle_Qle. lia.
    + (* larger exponent: at least 64 *)
      assert ((-47 <? ef) = true) as -> by (apply Z.ltb_lt; lia).
      cbn [orb].
      split; [| reflexivity].
      intros Hw. exfalso. revert Hw. apply Qlt_not_le.
      assert (2 ^ (-46) <= 2 ^ ef)%Q as Hp by (apply Qpow2_le; lia).
      assert (inject_Z (2 ^ 52) <= inject_Z (Zpos m))%Q as Hm
        by (rewrite <- Zle_Qle; apply Hnorm; lia).
      assert (inject_Z (2 ^ 52) * 2 ^ (-46) == 64)%Q as H64
        by (vm_compute; reflexivity).
      assert (0 < inject_Z (2 ^ 52))%Q as Hc by (vm_compute; reflexivity).
      assert (0 < 2 ^ (-46))%Q as Hd by (vm_compute; reflexivity).
      unfold w.
      set (a := inject_Z (Zpos m)) in *. set (b := (2 ^ ef)%Q) in *.
      set (c := inject_Z (2 ^ 52)) in *. set (d := (2 ^ (-46))%Q) in *.
      clearbody a b c d. clear - Hp Hm H64 Hc Hd Hpos Hm0.
      assert (c * d <= a * b)%Q; [| lra].
      apply Qle_trans with (c * b)%Q.
      * rewrite !(Qmult_comm c). apply Qmult_le_compat_r;
          [exact Hp | apply Qlt_le_weak; exact Hc].
      * apply Qmult_le_compat_r; [exact Hm | apply Qlt_le_weak; exact Hpos].
Qed.

End Values.

(** ** The drop speed of my-work, in doubles *)

Section DropSpeed.
Import MyWork MyWork.State.

Lemma rate_power_le_1 (n : nat) :
  (0 < (9 # 10) ^ Z.of_nat n /\ (9 # 10) ^ Z.of_nat n <= 1)%Q.
Proof.
  split; [apply Qpower_0_lt; reflexivity |].
  induction n as [| n IH]; [discriminate |].
  rewrite Nat2Z.inj_succ. unfold Z.succ.
  rewrite Qpower_plus by discriminate.
  assert (0 < (9 # 10) ^ Z.of_nat n)%Q by (apply Qpower_0_lt; reflexivity).
  change ((9 # 10) ^ 1)%Q with (9 # 10)%Q. lra.
Qed.

Lemma rate_power_antitone (a b : Z) :
  0 <= a <= b -> ((9 # 10) ^ b <= (9 # 10) ^ a)%Q.
Proof.
  intros Hab.
  replace b with (a + Z.of_nat (Z.to_nat (b - a))) by lia.
  rewrite Qpower_plus by discriminate.
  destruct (rate_power_le_1 (Z.to_nat (b - a))) as [Hpos Hle].
  assert (0 < (9 # 10) ^ a)%Q as Ha by (apply Qpower_0_lt; reflexivity).
  nra.
Qed.

Lemma rate_power_bounds (n : Z) :
  0 <= n -> (0 < (9 # 10) ^ n /\ (9 # 10) ^ n <= 1)%Q.
Proof.
  intros Hn. rewrite <- (Z2Nat.id n Hn). apply rate_power_le_1.
Qed.

(** A double read as a non-negative rational is a zero or a positive
    finite double. *)
Lemma F2Q_nonneg (p : float) (q : Q) :
  F2Q p = Some q -> (0 <= q)%Q ->
  (exists s, Prim2SF p = S754_zero s /\ q = 0%Q)
  \/ (exists m e, Prim2SF p = S754_finite false m e
                  /\ q = (inject_Z (Zpos m) * 2 ^ e)%Q).
Proof.
  unfold F2Q, SF2Q. intros Hq Hpos.
  destruct (Prim2SF p) as [s | s | | [|] m e]; try discriminate.
  - left. exists s. split; [reflexivity | congruence].
  - exfalso. injection Hq as <-. revert Hpos. apply Qlt_not_le.
    pose proof (Qpow2_pos e).
    assert (0 < inject_Z (Zpos m))%Q by (rewrite <- (Zlt_Qlt 0); lia).
    nra.
  - right. exists m, e. split; [reflexivity | congruence].
Qed.

Lemma mul_1000_zero (p : float) (s : bool) :
  Prim2SF p = S754_zero s -> Prim2SF (1000 * p)%float = S754_zero s.
Proof.
  intros Hp. rewrite mul_spec, Hp.
  replace (Prim2SF 1000) with (S754_finite false 8796093022208000 (-43))
    by (vm_compute; reflexivity).
  destruct s; reflexivity.
Qed.

Lemma Math_max_50_zero (y : float) (s : bool) :
  Prim2SF y = S754_zero s -> Math_max 50 y = 50%float.
Proof.
  intros Hy.
  assert (is_nan 50 = false) as Hn50 by (vm_compute; reflexivity).
  assert (get_sign 50 = false) as Hs50 by (vm_compute; reflexivity).
  unfold Math_max. rewrite Hn50, Hs50. unfold is_nan.
  rewrite FloatAxioms.eqb_spec, !FloatAxioms.ltb_spec, Prim2SF_50, Hy.
  destruct s; reflexivity.
Qed.

(** The error budget: a power within [delta] of [r], multiplied by 1000
    with a rounding error of [eps], is within [delta + (1 + delta) * eps] of
    [1000 * r], relative to [I >= max(50, 1000 * r)]. *)
Lemma rounding_budget (delta eps r T q I M w : Q) :
  (0 <= delta -> 0 <= eps -> 50 <= I -> 1000 * r <= I -> 1000 * T <= I ->
   q - r <= delta * T -> r - q <= delta * T ->
   M == Qmax (1000 * q) 50 ->
   w - 1000 * q <= eps * M -> 1000 * q - w <= eps * M ->
   w - 1000 * r <= (delta + (1 + delta) * eps) * I
   /\ 1000 * r - w <= (delta + (1 + delta) * eps) * I)%Q.
Proof.
  intros Hd He HI Hr HT Hhi Hlo HM Hup Hdown.
  assert (1000 * (delta * T) <= delta * I)%Q as HdI by nra.
  assert (0 <= delta * I)%Q as HdI0 by nra.
  assert (M <= I + delta * I)%Q as HMI.
  { rewrite HM. apply Q.max_lub; lra. }
  assert (eps * M <= eps * (I + delta * I))%Q as HeM by nra.
  split; nra.
Qed.

(** The value of [getDropSpeed()] when [Math.pow] is accurate to [delta]:
    the product [w] computed before [Math.max] is within
    [delta + (1 + delta) * 2^-53], relative to the clamped ideal value, of
    [1000 * 0.9^(level-1)]; the result is the double 50 when [w <= 50] and
    [w] otherwise. *)
Lemma getDropSpeed_rounded (Math_pow : float -> Z -> float) (delta : Q)
    (s : GameState) :
  1 <= level s -> (0 <= delta)%Q -> (delta <= 1)%Q ->
  pow_accurate Math_pow delta (level s - 1) ->
  exists w : Q,
    (0 <= w)%Q
    /\ (w - 1000 * (9 # 10) ^ (level s - 1)
        <= (delta + (1 + delta) * 2 ^ (-53))
           * Qmax 50 (1000 * (9 # 10) ^ (level s - 1)))%Q
    /\ (1000 * (9 # 10) ^ (level s - 1) - w
        <= (delta + (1 + delta) * 2 ^ (-53))
           * Qmax 50 (1000 * (9 # 10) ^ (level s - 1)))%Q
    /\ ((w <= 50)%Q -> getDropSpeed Math_pow s = 50%float)
    /\ ((50 < w)%Q -> F2Q (getDropSpeed Math_pow s) = Some w).
Proof.
  intros HL Hd0 Hd1 (q & Hq & Hq0 & Hhi & Hlo).
  unfold getDropSpeed, INITIAL_DROP_SPEED. cbv zeta.
  destruct (rate_power_bounds (level s - 1) ltac:(lia)) as [Hr0 Hr1].
  generalize dependent (Math_pow SPEED_INCREASE_RATE (level s - 1)).
  generalize dependent ((9 # 10) ^ (level s - 1))%Q.
  intros r Hhi Hlo Hr0 Hr1 p Hq.
  pose proof (Q.le_max_l 50 (1000 * r)) as HI50.
  pose proof (Q.le_max_r 50 (1000 * r)) as HXI.
  assert (1000 * Qmax r (2 ^ (-1022)) <= Qmax 50 (1000 * r))%Q as HT.
  { destruct (Q.max_spec r (2 ^ (-1022))) as [[_ ->] | [_ ->]].
    - eapply Qle_trans; [| exact HI50]. vm_compute. discriminate.
    - exact HXI. }
  assert (Qmax r (2 ^ (-1022)) <= 1)%Q as HT1.
  { apply Q.max_lub; [exact Hr1 | vm_compute; discriminate]. }
  pose proof (Qpow2_pos (-53)) as Heps.
  generalize dependent (Qmax 50 (1000 * r)). intros I HI50 HXI HT.
  generalize dependent (Qmax r (2 ^ (-1022))). intros T Hhi Hlo HT HT1.
  set (eps := (2 ^ (-53))%Q) in *.
  destruct (F2Q_nonneg p q Hq Hq0) as [(sg & Hp & ->) | (m & e & Hp & ->)].
  - (* Math.pow underflowed to a zero *)
    exists 0%Q. split; [apply Qle_refl |].
    assert (1000 * (delta * T) <= delta * I)%Q as HdI by nra.
    assert (0 <= (1 + delta) * eps * I)%Q
      by (apply Qmult_le_0_compat; [apply Qmult_le_0_compat |]; lra).
    split; [| split; [| split]].
    + nra.
    + nra.
    + intros _. apply (Math_max_50_zero _ sg), mul_1000_zero, Hp.
    + intros Hw. exfalso. revert Hw. apply Qle_not_lt. discriminate.
  - assert (e <= 900) as He.
    { destruct (Z_le_gt_dec e 900) as [Hle | Hgt]; [exact Hle | exfalso].
      assert (2 ^ 2 <= 2 ^ e)%Q as Hp2 by (apply Qpow2_le; lia).
      change (2 ^ 2)%Q with 4%Q in Hp2.
      assert (inject_Z 1 <= inject_Z (Zpos m))%Q as Hm1
        by (rewrite <- Zle_Qle; lia).
      change (inject_Z 1) with 1%Q in Hm1.
      pose proof (Qpow2_pos e).
      generalize dependent (inject_Z (Zpos m)).
      generalize dependent (2 ^ e)%Q. intros. nra. }
    destruct (mul_1000_finite p m e Hp He)
      as (mf & ef & Hprod & Hmf & Hef & Hnorm & Hup & Hdown).
    destruct (Math_max_50 (1000 * p)%float mf ef Hprod Hmf Hef Hnorm)
      as [Hsmall Hbig].
    exists (inject_Z mf * 2 ^ ef)%Q.
    split.
    { pose proof (Qpow2_pos ef).
      assert (inject_Z 0 <= inject_Z mf)%Q as Hm0 by (rewrite <- Zle_Qle; lia).
      change (inject_Z 0) with 0%Q in Hm0.
      apply Qmult_le_0_compat; [exact Hm0 | apply Qlt_le_weak; assumption]. }
    split; [| split; [| split]].
    + eapply (rounding_budget delta eps r T); try eassumption;
        [apply Qlt_le_weak; exact Heps | reflexivity].
    + eapply (rounding_budget delta eps r T); try eassumption;
        [apply Qlt_le_weak; exact Heps | reflexivity].
    + exact Hsmall.
    + intros Hw. rewrite (Hbig Hw). unfold F2Q. rewrite Hprod.
      destruct mf as [| m' |]; [| reflexivity | lia].
      exfalso. revert Hw. apply Qle_not_lt.
      assert (inject_Z 0 * 2 ^ ef == 0)%Q as -> by (unfold inject_Z; ring).
      discriminate.
Qed.

Lemma F2Q_50 :
  F2Q 50 = Some (inject_Z 7036874417766400 * 2 ^ (-47))%Q.
Proof. unfold F2Q. rewrite Prim2SF_50. reflexivity. Qed.

(** [getDropSpeed()] against the formula of the specification: the
    returned double is at least 50 and within [delta + (1 + delta) * 2^-53]
    of [max(50, 1000 * 0.9^(level-1))], relatively. *)
Lemma getDropSpeed_value (Math_pow : float -> Z -> float) (delta : Q)
    (s : GameState) :
  1 <= level s -> (0 <= delta)%Q -> (delta <= 1)%Q ->
  pow_accurate Math_pow delta (level s - 1) ->
  exists v : Q,
    F2Q (getDropSpeed Math_pow s) = Some v
    /\ (50 <= v)%Q
    /\ (v - Qmax 50 (1000 * (9 # 10) ^ (level s - 1))
        <= (delta + (1 + delta) * 2 ^ (-53))
           * Qmax 50 (1000 * (9 # 10) ^ (level s - 1)))%Q
    /\ (Qmax 50 (1000 * (9 # 10) ^ (level s - 1)) - v
        <= (delta + (1 + delta) * 2 ^ (-53))
           * Qmax 50 (1000 * (9 # 10) ^ (level s - 1)))%Q.
Proof.
  intros HL Hd0 Hd1 Hacc.
  destruct (getDropSpeed_rounded Math_pow delta s HL Hd0 Hd1 Hacc)
    as (w & Hw0 & Hup & Hdown & Hsmall & Hbig).
  pose proof (Qpow2_pos (-53)) as Heps.
  pose proof (Q.le_max_l 50 (1000 * (9 # 10) ^ (level s - 1))) as HI50.
  assert (0 <= (delta + (1 + delta) * 2 ^ (-53))
               * Qmax 50 (1000 * (9 # 10) ^ (level s - 1)))%Q as HB0.
  { apply Qmult_le_0_compat; [| lra].
    assert (0 <= (1 + delta) * 2 ^ (-53))%Q
      by (apply Qmult_le_0_compat; lra).
    lra. }
  set (B := ((delta + (1 + delta) * 2 ^ (-53))
             * Qmax 50 (1000 * (9 # 10) ^ (level s - 1)))%Q) in *.
  clearbody B.
  set (X := (1000 * (9 # 10) ^ (level s - 1))%Q) in *. clearbody X.
  destruct (Qlt_le_dec 50 w) as [Hgt | Hle].
  - exists w. split; [exact (Hbig Hgt) |].
    split; [lra |].
    destruct (Q.max_spec 50 X) as [[HX HI] | [HX HI]]; rewrite HI; lra.
  - exists (inject_Z 7036874417766400 * 2 ^ (-47))%Q.
    split; [rewrite (Hsmall Hle); exact F2Q_50 |].
    assert (inject_Z 7036874417766400 * 2 ^ (-47) == 50)%Q as ->
      by (vm_compute; reflexivity).
    split; [lra |].
    destruct (Q.max_spec 50 X) as [[HX HI] | [HX HI]]; rewrite HI; lra.
Qed.

(** The drop speed level by level, for a [Math.pow] accurate to one
    percent that returns 1 at exponent 0. *)
Lemma getDropSpeed_levels (Math_pow : float -> Z -> float) (delta : Q)
    (s : GameState) :
  (0 <= delta)%Q -> (delta <= 1 # 100)%Q ->
  Math_pow SPEED_INCREASE_RATE 0 = 1%float ->
  1 <= level s ->
  pow_accurate Math_pow delta (level s - 1) ->
  exists v : Q,
    F2Q (getDropSpeed Math_pow s) = Some v
    /\ (level s = 1 ->
        getDropSpeed Math_pow s = 1000%float /\ (v == 1000)%Q)
    /\ (level s <= 29 ->
        ((989 # 1000) * (1000 * (9 # 10) ^ (level s - 1)) <= v
         /\ v <= (1011 # 1000) * (1000 * (9 # 10) ^ (level s - 1))
         /\ 50 < v)%Q)
    /\ (30 <= level s ->
        getDropSpeed Math_pow s = 50%float /\ (v == 50)%Q).
Proof.
  intros Hd0 Hd1 Hpow0 HL Hacc.
  destruct (getDropSpeed_rounded Math_pow delta s HL Hd0 ltac:(lra) Hacc)
    as (w & Hw0 & Hup & Hdown & Hsmall & Hbig).
  pose proof (Q.le_max_l 50 (1000 * (9 # 10) ^ (level s - 1))) as HI50.
  assert ((delta + (1 + delta) * 2 ^ (-53))
          * Qmax 50 (1000 * (9 # 10) ^ (level s - 1))
          <= (11 # 1000) * Qmax 50 (1000 * (9 # 10) ^ (level s - 1)))%Q
    as Heta.
  { apply Qmult_le_compat_r; [| lra].
    assert (0 < 2 ^ (-53))%Q as Heps by apply Qpow2_pos.
    assert (2 ^ (-53) <= 1 # 2000)%Q as Heps' by (vm_compute; discriminate).
    generalize dependent (2 ^ (-53))%Q. intros eps _ _ Heps Heps'. nra. }
  assert (level s = 1 -> getDropSpeed Math_pow s = 1000%float) as Hone.
  { intros H1. unfold getDropSpeed. rewrite H1. cbv zeta.
    change (1 - 1) with 0. rewrite Hpow0. vm_compute. reflexivity. }
  assert (F2Q 1000 = Some (inject_Z 8796093022208000 * 2 ^ (-43))%Q) as H1000
    by (vm_compute; reflexivity).
  assert (inject_Z 8796093022208000 * 2 ^ (-43) == 1000)%Q as Hv1000
    by (vm_compute; reflexivity).
  assert (inject_Z 7036874417766400 * 2 ^ (-47) == 50)%Q as Hv50
    by (vm_compute; reflexivity).
  destruct (Z_le_gt_dec (level s) 29) as [H29 | H30].
  - (* above the floor *)
    assert (52 <= 1000 * (9 # 10) ^ (level s - 1))%Q as HX.
    { eapply Qle_trans;
        [| apply Qmult_le_l; [reflexivity |];
           apply (rate_power_antitone (level s - 1) 28); lia].
      vm_compute. discriminate. }
    assert (Qmax 50 (1000 * (9 # 10) ^ (level s - 1))
            == 1000 * (9 # 10) ^ (level s - 1))%Q as HI
      by (apply Q.max_r; lra).
    rewrite HI in *.
    generalize dependent (1000 * (9 # 10) ^ (level s - 1))%Q.
    intros X Hup Hdown _ Heta HX _.
    assert (50 < w)%Q as Hgt by lra.
    exists w. split; [exact (Hbig Hgt) |].
    split; [| split; [intros _; lra | intros; lia]].
    intros H1. split; [exact (Hone H1) |].
    pose proof (Hbig Hgt) as Hv. rewrite (Hone H1), H1000 in Hv.
    injection Hv as <-. exact Hv1000.
  - (* on the floor *)
    assert (1000 * (9 # 10) ^ (level s - 1) <= 48)%Q as HX.
    { eapply Qle_trans;
        [apply Qmult_le_l; [reflexivity |];
         apply (rate_power_antitone 29 (level s - 1)); lia |].
      vm_compute. discriminate. }
    assert (Qmax 50 (1000 * (9 # 10) ^ (level s - 1)) == 50)%Q as HI
      by (apply Q.max_l; lra).
    rewrite HI in *.
    assert (w <= 50)%Q as Hle by lra.
    exists (inject_Z 7036874417766400 * 2 ^ (-47))%Q.
    split; [rewrite (Hsmall Hle); exact F2Q_50 |].
    split; [intros; lia |]. split; [intros; lia |].
    intros _. split; [exact (Hsmall Hle) | exact Hv50].
Qed.

Lemma pow2_not_div5 (k : Z) : 0 <= k -> forall c, 2 ^ k <> 5 * c.
Proof.
  intros Hk. pattern k. apply natlike_ind; [| | exact Hk].
  - intros c. change (2 ^ 0) with 1. lia.
  - intros n Hn IH c Hc. rewrite Z.pow_succ_r in Hc by exact Hn.
    pose proof (Z.div_mod c 2 ltac:(lia)) as Hdm.
    pose proof (Z.mod_pos_bound c 2 ltac:(lia)) as Hb.
    apply (IH (c / 2)). lia.
Qed.

Lemma dyadic_scale (a e : Z) :
  exists a' k, 0 <= k /\ (inject_Z a * 2 ^ e * inject_Z (2 ^ k) == inject_Z a')%Q.
Proof.
  destruct (Z_le_gt_dec 0 e) as [He | He].
  - exists (a * 2 ^ e), 0. split; [lia |].
    rewrite (Qpow2_inj e He), inject_Z_mult.
    change (inject_Z (2 ^ 0)) with 1%Q. ring.
  - exists a, (- e). split; [lia |].
    rewrite <- (Qpow2_inj (- e)) by lia.
    rewrite <- Qmult_assoc, <- Qpow2_add.
    replace (e + - e) with 0 by lia. change (2 ^ 0)%Q with 1%Q. ring.
Qed.

(** The rational a double stands for is dyadic. *)
Lemma SF2Q_dyadic (f : spec_float) (v : Q) :
  SF2Q f = Some v ->
  exists a k, 0 <= k /\ (v * inject_Z (2 ^ k) == inject_Z a)%Q.
Proof.
  destruct f as [s | s | | s m e]; unfold SF2Q; intros Hv;
    try discriminate; injection Hv as <-.
  - exists 0, 0. split; [lia | reflexivity].
  - destruct s.
    + change (- inject_Z (Zpos m))%Q with (inject_Z (Zneg m)).
      apply dyadic_scale.
    + apply dyadic_scale.
Qed.

(** No double is 656.1, the value of the formula at level 5. *)
Lemma F2Q_not_6561_10 (x : float) (v : Q) :
  F2Q x = Some v -> ~ (v == 6561 # 10)%Q.
Proof.
  intros Hv Heq. destruct (SF2Q_dyadic _ _ Hv) as (a & k & Hk & Ha).
  rewrite Heq in Ha. unfold Qeq in Ha. cbn [Qnum Qden Qmult inject_Z] in Ha.
  rewrite Pos.mul_1_r in Ha.
  apply (pow2_not_div5 k Hk (2 * a - 1312 * 2 ^ k)). lia.
Qed.

End DropSpeed.

Lemma sample_pow_accurate_0 :
  MyWork.State.pow_accurate sample_pow (1 # 1000000000000000) 0.
Proof.
  exists (inject_Z 4503599627370496 * 2 ^ (-52))%Q.
  split; [vm_compute; reflexivity |].
  split; [vm_compute; discriminate |].
  split; vm_compute; discriminate.
Defined.

Lemma sample_pow_accurate_2 :
  MyWork.State.pow_accurate sample_pow (1 # 1000000000000000) 2.
Proof.
  exists (inject_Z 7295831396340204 * 2 ^ (-53))%Q.
  split; [vm_compute; reflexivity |].
  split; [vm_compute; discriminate |].
  split; vm_compute; discriminate.
Defined.

Lemma sample_pow_accurate_3 :
  MyWork.State.pow_accurate sample_pow (1 # 1000000000000000) 3.
Proof.
  exists (inject_Z 6566248256706184 * 2 ^ (-53))%Q.
  split; [vm_compute; reflexivity |].
  split; [vm_compute; discriminate |].
  split; vm_compute; discriminate.
Defined.


(** Whatever the base interval, the rate and the minimum, the interval
    kept by [TetrisGame.updateScore] is not [max(min, base * rate^(L-1))] at
    all of the levels 1, 2 and 3 (it is 1000, 900 and 800 there). *)
Lemma examples_interval_not_geometric :
  ~ exists baseInterval rate minInterval : Q,
      forall g, Examples.scored g ->
        inject_Z (Examples.dropInterval g)
        == Qmax minInterval (baseInterval * rate ^ (Examples.level g - 1)).
Proof.
  intros (b & r & m & H).
  destruct (scored_level 1 1000 []) as (g1 & Hs1 & Hl1 & Hd1);
    [eexists; split; [reflexivity | split; reflexivity] |].
  destruct (scored_level 2 900 [4; 4; 4]) as (g2 & Hs2 & Hl2 & Hd2);
    [eexists; split; [reflexivity | split; reflexivity] |].
  destruct (scored_level 3 800 [4; 4; 4; 4; 4]) as (g3 & Hs3 & Hl3 & Hd3);
    [eexists; split; [reflexivity | split; reflexivity] |].
  pose proof (H g1 Hs1) as E1. pose proof (H g2 Hs2) as E2.
  pose proof (H g3 Hs3) as E3.
  rewrite Hl1, Hd1 in E1. rewrite Hl2, Hd2 in E2. rewrite Hl3, Hd3 in E3.
  simpl in E1, E2, E3. unfold inject_Z in E1, E2, E3.
  assert (m <= 800)%Q as Hm by (rewrite E3; apply Q.le_max_l).
  assert (b * (r * r) <= 800)%Q as H3 by (rewrite E3; apply Q.le_max_r).
  assert (b * 1 == 1000)%Q as Hb.
  { destruct (Q.max_spec m (b * 1)) as [[_ Hx] | [_ Hx]];
      rewrite Hx in E1; [symmetry; exact E1 | lra]. }
  assert (b * r == 900)%Q as Hr.
  { destruct (Q.max_spec m (b * r)) as [[_ Hx] | [_ Hx]];
      rewrite Hx in E2; [symmetry; exact E2 | lra]. }
  assert (b == 1000)%Q as Hb' by lra.
  rewrite Hb' in Hr, H3.
  assert (r == 9 # 10)%Q as Hr' by lra.
  rewrite Hr' in H3. revert H3. apply Qlt_not_le. reflexivity.
Qed.


(** C5, as stated, fails in both variants.  In the examples variant the
    interval is not geometric (see [examples_interval_not_geometric]).  In
    the my-work variant the value is a double and not the exact value of
    the formula: with [Math.pow(0.9, 3) = 0.7290000000000001] (the product
    0.9 * 0.9 * 0.9 in doubles) [getDropSpeed] at level 4 is above
    [max(50, 1000 * 0.9^3) = 729]; and whatever [Math.pow] returns, the
    value at level 5 is not [max(50, 1000 * 0.9^4) = 656.1], which no double
    equals. *)
Lemma C5_interval_not_geometric_nor_exact :
  (~ exists baseInterval rate minInterval : Q,
       forall g, Examples.scored g ->
         inject_Z (Examples.dropInterval g)
         == Qmax minInterval (baseInterval * rate ^ (Examples.level g - 1)))
  /\ (exists v : Q,
        F2Q (MyWork.State.getDropSpeed sample_pow state_level_4) = Some v
        /\ (Qmax 50 (1000 * (9 # 10) ^ (MyWork.State.level state_level_4 - 1))
            < v)%Q)
  /\ (forall (Math_pow : float -> Z -> float) (s : MyWork.State.GameState)
        (v : Q),
        MyWork.State.level s = 5 ->
        F2Q (MyWork.State.getDropSpeed Math_pow s) = Some v ->
        ~ (v == Qmax 50 (1000 * (9 # 10) ^ (MyWork.State.level s - 1)))%Q).
Proof.
  split; [exact examples_interval_not_geometric |].
  split.
  - exists (inject_Z 6412351813189633 * 2 ^ (-43))%Q.
    split; vm_compute; reflexivity.
  - intros Math_pow s v H5 Hv Heq. rewrite H5 in Heq.
    apply (F2Q_not_6561_10 _ v Hv). rewrite Heq. vm_compute. reflexivity.
Qed.

(** C5, amended.  In the my-work variant [getDropSpeed] returns the double
    [Math.max(50, 1000 * Math.pow(0.9, L-1))] for the level [L >= 1]: when
    [Math.pow(0.9, L-1)] is a non-negative double within relative error
    [delta <= 1] of [0.9^(L-1)], the value [v] returned is at least 50 and
    differs from [max(50, 1000 * 0.9^(L-1))] by at most
    [delta + (1 + delta) * 2^-53] times that number.  In the examples
    variant the interval falls linearly: in every state that follows
    [startNewGame] through [updateScore] calls it is
    [max(100, 1000 - 100 * (L-1))] for the current level [L >= 1]. *)
Theorem C5_drop_interval (Math_pow : float -> Z -> float) (delta : Q)
    (s : MyWork.State.GameState) (g : Examples.TetrisGame) :
  1 <= MyWork.State.level s ->
  (0 <= delta)%Q -> (delta <= 1)%Q ->
  MyWork.State.pow_accurate Math_pow delta (MyWork.State.level s - 1) ->
  Examples.scored g ->
  (exists v : Q,
     F2Q (MyWork.State.getDropSpeed Math_pow s) = Some v
     /\ (50 <= v)%Q
     /\ (v - Qmax 50 (1000 * (9 # 10) ^ (MyWork.State.level s - 1))
         <= (delta + (1 + delta) * 2 ^ (-53))
            * Qmax 50 (1000 * (9 # 10) ^ (MyWork.State.level s - 1)))%Q
     /\ (Qmax 50 (1000 * (9 # 10) ^ (MyWork.State.level s - 1)) - v
         <= (delta + (1 + delta) * 2 ^ (-53))
            * Qmax 50 (1000 * (9 # 10) ^ (MyWork.State.level s - 1)))%Q)
  /\ 1 <= Examples.level g
  /\ Examples.dropInterval g
     = Z.max 100 (1000 - 100 * (Examples.level g - 1)).
Proof.
  intros HL Hd0 Hd1 Hacc Hg. split.
  - exact (getDropSpeed_value Math_pow delta s HL Hd0 Hd1 Hacc).
  - destruct (scored_stats_ok g Hg) as (Hl & Hlev & Hdrop).
    split.
    + rewrite Hlev. assert (0 <= Examples.lines g / 10) by (apply Z.div_pos; lia). lia.
    + rewrite Hdrop. f_equal. lia.
Qed.

Lemma C5_drop_interval_witness :
  (exists v : Q,
     F2Q (MyWork.State.getDropSpeed sample_pow state_level_4) = Some v
     /\ (50 <= v)%Q
     /\ (v - Qmax 50 (1000 * (9 # 10) ^ (MyWork.State.level state_level_4 - 1))
         <= ((1 # 1000000000000000)
             + (1 + (1 # 1000000000000000)) * 2 ^ (-53))
            * Qmax 50 (1000 * (9 # 10) ^ (MyWork.State.level state_level_4 - 1)))%Q
     /\ (Qmax 50 (1000 * (9 # 10) ^ (MyWork.State.level state_level_4 - 1)) - v
         <= ((1 # 1000000000000000)
             + (1 + (1 # 1000000000000000)) * 2 ^ (-53))
            * Qmax 50 (1000 * (9 # 10) ^ (MyWork.State.level state_level_4 - 1)))%Q)
  /\ 1 <= Examples.level game_start
  /\ Examples.dropInterval game_start
     = Z.max 100 (1000 - 100 * (Examples.level game_start - 1)).
Proof.
  apply (C5_drop_interval sample_pow (1 # 1000000000000000)
           state_level_4 game_start);
    [simpl; lia | vm_compute; discriminate | vm_compute; discriminate
    | exact sample_pow_accurate_3 | apply Examples.scored_start].
Defined.

(** * Rotation (C6) *)

Section Rotation.
Import MyWork.

Lemma rotate_in_range (t : TetrominoType) (r : Z) :
  0 <= r < 4 ->
  exists sh, rotate (mkTetromino t r)
             = (mkTetromino t (Z.rem (r + 1) 4), Some sh).
Proof.
  intros Hr.
  assert (r = 0 \/ r = 1 \/ r = 2 \/ r = 3) as Hc by lia.
  destruct Hc as [-> | [-> | [-> | ->]]]; destruct t;
    eexists; reflexivity.
Qed.

Lemma length4_inv {A} (l : list A) :
  length l = 4%nat -> exists a b c d, l = [a; b; c; d].
Proof.
  destruct l as [| a [| b [| c [| d [| e l]]]]]; try discriminate.
  intros _. exists a, b, c, d. reflexivity.
Qed.

Lemma matrix4_inv (m : list (list Z)) :
  Examples.matrix4 m ->
  exists a0 a1 a2 a3 b0 b1 b2 b3 c0 c1 c2 c3 d0 d1 d2 d3,
    m = [[a0; a1; a2; a3]; [b0; b1; b2; b3];
         [c0; c1; c2; c3]; [d0; d1; d2; d3]].
Proof.
  intros [Hlen Hrows].
  destruct (length4_inv m Hlen) as (ra & rb & rc & rd & ->).
  apply Forall_cons in Hrows as [Ha Hrows].
  apply Forall_cons in Hrows as [Hb Hrows].
  apply Forall_cons in Hrows as [Hc Hrows].
  apply Forall_cons in Hrows as [Hd _].
  destruct (length4_inv ra Ha) as (a0 & a1 & a2 & a3 & ->).
  destruct (length4_inv rb Hb) as (b0 & b1 & b2 & b3 & ->).
  destruct (length4_inv rc Hc) as (c0 & c1 & c2 & c3 & ->).
  destruct (length4_inv rd Hd) as (d0 & d1 & d2 & d3 & ->).
  repeat eexists.
Qed.

Lemma rotateMatrix_four (m : list (list Z)) :
  Examples.matrix4 m ->
  Examples.rotateMatrix
    (Examples.rotateMatrix (Examples.rotateMatrix (Examples.rotateMatrix m)))
  = m.
Proof.
  intros Hm.
  destruct (matrix4_inv m Hm)
    as (a0 & a1 & a2 & a3 & b0 & b1 & b2 & b3
        & c0 & c1 & c2 & c3 & d0 & d1 & d2 & d3 & ->).
  reflexivity.
Qed.

Lemma set2_matrix4 (m : list (list Z)) (r c v : Z) :
  Examples.matrix4 m -> Examples.matrix4 (set2 m r c v).
Proof.
  intros [Hl Hr]. unfold set2.
  destruct ((r <? 0) || (c <? 0)); [split; assumption |].
  split.
  - rewrite length_alter. exact Hl.
  - apply Forall_alter; [exact Hr |].
    intros row _ Hrow. rewrite length_insert. exact Hrow.
Qed.

Lemma rotateMatrix_matrix4 (m : list (list Z)) :
  Examples.matrix4 (Examples.rotateMatrix m).
Proof.
  unfold Examples.rotateMatrix.
  apply foldl_inv; [split; [reflexivity | repeat constructor] |].
  intros rot i Hrot. apply foldl_inv; [exact Hrot |].
  intros rot' j Hrot'. apply set2_matrix4. exact Hrot'.
Qed.
End Rotation.

(** C6. Four clockwise rotations in a row restore a piece.  In the my-work
    variant, for each of the 7 types and each rotation index 0..3, the four
    calls of [Tetromino.rotate] all succeed and leave the original rotation
    index and the original shape; in the examples variant,
    [TetrisGame.rotateMatrix] applied four times to a 4x4 shape matrix gives
    the matrix back entry for entry. *)
Theorem C6_four_rotations (t : MyWork.TetrominoType) (r : Z)
    (m : list (list Z)) :
  0 <= r < 4 -> Examples.matrix4 m ->
  (exists p', MyWork.rotateTimes 4 (MyWork.mkTetromino t r) = Some p'
              /\ MyWork.rotation p' = r /\ MyWork.type p' = t
              /\ MyWork.getShape p' = MyWork.getShape (MyWork.mkTetromino t r))
  /\ Examples.rotateMatrix
       (Examples.rotateMatrix (Examples.rotateMatrix (Examples.rotateMatrix m)))
     = m.
Proof.
  intros Hr Hm. split; [| apply rotateMatrix_four; exact Hm].
  exists (MyWork.mkTetromino t r).
  assert (r = 0 \/ r = 1 \/ r = 2 \/ r = 3) as Hc by lia.
  destruct Hc as [-> | [-> | [-> | ->]]]; destruct t;
    repeat split; reflexivity.
Qed.

Lemma C6_four_rotations_witness :
  (exists p', MyWork.rotateTimes 4 (MyWork.mkTetromino MyWork.TJ 2) = Some p'
              /\ MyWork.rotation p' = 2 /\ MyWork.type p' = MyWork.TJ
              /\ MyWork.getShape p'
                 = MyWork.getShape (MyWork.mkTetromino MyWork.TJ 2))
  /\ Examples.rotateMatrix
       (Examples.rotateMatrix
          (Examples.rotateMatrix
             (Examples.rotateMatrix (Examples.TETROMINOS_shape Examples.PL))))
     = Examples.TETROMINOS_shape Examples.PL.
Proof.
  apply (C6_four_rotations MyWork.TJ 2 (Examples.TETROMINOS_shape Examples.PL));
    [lia | split; [reflexivity | repeat constructor]].
Defined.

(** * Status flags (C8) *)

Section Status.
Import MyWork.State.

End Status.




(** * Arrays and matrices *)

Lemma js_index_Some {A} (l : list A) (i : Z) (a : A) :
  js_index l i = Some a <-> 0 <= i /\ l !! Z.to_nat i = Some a.
Proof.
  unfold js_index. destruct (Z.ltb_spec i 0); split.
  - discriminate.
  - intros [? _]. lia.
  - auto.
  - intros [_ ?]. assumption.
Qed.

Lemma js_index_lt {A} (l : list A) (i : Z) :
  0 <= i < Z.of_nat (length l) -> exists a, js_index l i = Some a.
Proof.
  intros Hi.
  destruct (lookup_lt_is_Some_2 l (Z.to_nat i)) as [a Ha]; [lia |].
  exists a. apply js_index_Some. split; [lia | exact Ha].
Qed.

Lemma elem_of_indexed {A} (l : list A) (i : Z) (a : A) :
  (i, a) ∈ indexed l <-> js_index l i = Some a.
Proof.
  unfold indexed. rewrite elem_of_lookup_imap, js_index_Some. split.
  - intros (n & b & [= -> ->] & Hn). split; [lia |].
    rewrite Nat2Z.id. exact Hn.
  - intros [Hi Ha]. exists (Z.to_nat i), a.
    split; [f_equal; lia | exact Ha].
Qed.

Lemma elem_of_cells {A} (m : list (list A)) (r c : Z) (v : A) :
  (r, c, v) ∈ cells m <->
  exists row, js_index m r = Some row /\ js_index row c = Some v.
Proof.
  unfold cells. rewrite list_elem_of_join. split.
  - intros (l & Hin & Hl).
    apply list_elem_of_fmap in Hl as ([r' row] & -> & Hrow).
    apply list_elem_of_fmap in Hin as ([c' v'] & [= -> -> ->] & Hv).
    exists row. split; apply elem_of_indexed; assumption.
  - intros (row & Hrow & Hv).
    exists (map (fun '(c, v) => (r, c, v)) (indexed row)). split.
    + apply list_elem_of_fmap. exists (c, v).
      split; [reflexivity | apply elem_of_indexed; exact Hv].
    + apply list_elem_of_fmap. exists (r, row).
      split; [reflexivity | apply elem_of_indexed; exact Hrow].
Qed.
Lemma at2_Some (m : list (list Z)) (r c : Z) (row : list Z) (v : Z) :
  js_index m r = Some row -> js_index row c = Some v -> at2 m r c = v.
Proof. intros Hr Hc. unfold at2. rewrite Hr. simpl. rewrite Hc. reflexivity. Qed.

Lemma at2_nonzero (m : list (list Z)) (r c : Z) :
  at2 m r c <> 0 ->
  exists row, js_index m r = Some row /\ js_index row c = Some (at2 m r c).
Proof.
  unfold at2. destruct (js_index m r) as [row |]; simpl; [| congruence].
  destruct (js_index row c) as [v |] eqn:Hv; simpl; [| congruence].
  intros _. exists row. split; [reflexivity | exact Hv].
Qed.

Lemma at2_set2_eq (m : list (list Z)) (r c v : Z) (row : list Z) :
  js_index m r = Some row -> 0 <= c < Z.of_nat (length row) ->
  at2 (set2 m r c v) r c = v.
Proof.
  intros Hrow Hc. apply js_index_Some in Hrow as [Hr Hrow].
  unfold set2, at2, js_index.
  destruct (Z.ltb_spec r 0); [lia |]. destruct (Z.ltb_spec c 0); [lia |].
  simpl. rewrite list_lookup_alter_eq, Hrow. simpl.
  rewrite list_lookup_insert_eq by lia. reflexivity.
Qed.

Lemma at2_set2_ne (m : list (list Z)) (r c v r' c' : Z) :
  r <> r' \/ c <> c' ->
  at2 (set2 m r c v) r' c' = at2 m r' c'.
Proof.
  intros Hne. unfold set2.
  destruct ((r <? 0) || (c <? 0)) eqn:Hneg; [reflexivity |].
  apply orb_false_elim in Hneg as [Hr Hc].
  apply Z.ltb_ge in Hr. apply Z.ltb_ge in Hc.
  unfold at2, js_index.
  destruct (Z.ltb_spec r' 0); [reflexivity |].
  destruct (decide (r = r')) as [<- | Hr'].
  - rewrite list_lookup_alter_eq.
    destruct (m !! Z.to_nat r) as [row |]; simpl; [| reflexivity].
    destruct (Z.ltb_spec c' 0); [reflexivity |].
    rewrite list_lookup_insert_ne by lia. reflexivity.
  - rewrite list_lookup_alter_ne by lia. reflexivity.
Qed.

Lemma set2_length {A} (m : list (list A)) (r c : Z) (v : A) :
  length (set2 m r c v) = length m.
Proof.
  unfold set2. destruct ((r <? 0) || (c <? 0)); [reflexivity |].
  apply length_alter.
Qed.

Lemma set2_Forall {A} (P : list A -> Prop) (m : list (list A)) (r c : Z) (v : A) :
  (forall row, P row -> P (<[Z.to_nat c := v]> row)) ->
  Forall P m -> Forall P (set2 m r c v).
Proof.
  intros HP Hm. unfold set2.
  destruct ((r <? 0) || (c <? 0)); [exact Hm |].
  apply Forall_alter; [exact Hm |]. intros row _. apply HP.
Qed.

(** * Placement validity (C2) *)

Section Validity.
Import MyWork.

Lemma isInBounds_spec (gb : GameBoard) (r c : Z) :
  isInBounds gb r c = true <-> 0 <= r < height gb /\ 0 <= c < width gb.
Proof.
  unfold isInBounds.
  rewrite !andb_true_iff, !Z.geb_le, !Z.ltb_lt. lia.
Qed.

Lemma getCellValue_in (gb : GameBoard) (r c : Z) :
  0 <= r < height gb -> 0 <= c < width gb ->
  getCellValue gb r c = Some (at2 (board gb) r c).
Proof.
  intros Hr Hc. unfold getCellValue.
  destruct (Z.ltb_spec r 0); [lia |].
  destruct (Z.geb_spec r (height gb)); [lia |].
  destruct (Z.ltb_spec c 0); [lia |].
  destruct (Z.geb_spec c (width gb)); [lia | reflexivity].
Qed.

Lemma validateBoard_spec (gb : GameBoard) :
  validateBoard gb = true <->
  Z.of_nat (length (board gb)) = height gb
  /\ Forall (fun row => Z.of_nat (length row) = width gb
                        /\ Forall (fun v => 0 <= v) row) (board gb).
Proof.
  unfold validateBoard.
  rewrite andb_true_iff, Z.eqb_eq, forallb_forall, Forall_forall.
  split; intros [Hh Hrows]; (split; [exact Hh |]); intros row Hin.
  - apply list_elem_of_In in Hin. specialize (Hrows row Hin).
    apply andb_true_iff in Hrows as [Hw Hcells].
    apply Z.eqb_eq in Hw. split; [exact Hw |].
    apply Forall_forall. intros v Hv. apply list_elem_of_In in Hv.
    rewrite forallb_forall in Hcells. specialize (Hcells v Hv).
    apply negb_true_iff, Z.ltb_ge in Hcells. exact Hcells.
  - apply list_elem_of_In in Hin. destruct (Hrows row Hin) as [Hw Hcells].
    apply andb_true_iff. split; [apply Z.eqb_eq; exact Hw |].
    apply forallb_forall. intros v Hv. apply list_elem_of_In in Hv.
    rewrite Forall_forall in Hcells.
    apply negb_true_iff, Z.ltb_ge, Hcells, Hv.
Qed.

Lemma validateBoard_nonneg (gb : GameBoard) (r c : Z) :
  validateBoard gb = true -> 0 <= at2 (board gb) r c.
Proof.
  intros Hv. apply validateBoard_spec in Hv as [_ Hrows].
  unfold at2.
  destruct (js_index (board gb) r) as [row |] eqn:Hrow; simpl; [| lia].
  destruct (js_index row c) as [v |] eqn:Hc; simpl; [| lia].
  apply js_index_Some in Hrow as [_ Hrow]. apply js_index_Some in Hc as [_ Hc].
  apply list_elem_of_lookup_2 in Hrow, Hc.
  rewrite Forall_forall in Hrows. destruct (Hrows row Hrow) as [_ Hcells].
  rewrite Forall_forall in Hcells. apply Hcells, Hc.
Qed.

Lemma grid_ok_validateBoard (gb : GameBoard) :
  grid_ok gb -> validateBoard gb = true.
Proof.
  intros [Hh Hrows]. apply validateBoard_spec. split; [exact Hh |].
  eapply Forall_impl; [exact Hrows |]. intros row [Hw Hcells].
  split; [exact Hw |]. eapply Forall_impl; [exact Hcells |].
  intros v Hv. simpl in Hv. lia.
Qed.

(** The test [isValidPosition] makes on one cell of the shape. *)
Lemma cell_test_spec (gb : GameBoard) (x y row col : Z) :
  validateBoard gb = true ->
  (if negb (isInBounds gb (y + row) (x + col)) then false
   else if isFilled gb (y + row) (x + col) then false else true) = true
  <-> 0 <= y + row < height gb /\ 0 <= x + col < width gb
      /\ at2 (board gb) (y + row) (x + col) = 0.
Proof.
  intros Hv.
  destruct (isInBounds gb (y + row) (x + col)) eqn:Hin; simpl.
  - apply isInBounds_spec in Hin as [Hr Hc].
    unfold isFilled. rewrite getCellValue_in by assumption.
    pose proof (validateBoard_nonneg gb (y + row) (x + col) Hv) as Hge.
    destruct (Z.gtb_spec (at2 (board gb) (y + row) (x + col)) 0); split.
    + discriminate.
    + intros (_ & _ & H0). lia.
    + intros _. repeat split; lia.
    + reflexivity.
  - split; [discriminate |]. intros (Hr & Hc & _).
    assert (isInBounds gb (y + row) (x + col) = true) as Hin'
      by (apply isInBounds_spec; split; assumption).
    congruence.
Qed.

Lemma isValidPosition_fits (gb : GameBoard) (piece : Tetromino)
    (shape : Shape) (x y : Z) :
  validateBoard gb = true -> getShape piece = Some shape -> shape <> [] ->
  isValidPosition gb piece x y = true <-> fits gb shape x y.
Proof.
  intros Hv Hs Hne. unfold isValidPosition. rewrite Hs.
  destruct shape as [| row0 shape']; [congruence |].
  cbn [length Nat.eqb]. rewrite forallb_forall. split.
  - intros H row col Hfilled.
    destruct (at2_nonzero _ _ _ Hfilled) as (rw & Hrw & Hcell).
    specialize (H (row, col, at2 (row0 :: shape') row col)).
    cbv beta iota in H.
    apply Z.eqb_neq in Hfilled. rewrite Hfilled in H.
    apply cell_test_spec; [exact Hv |]. apply H.
    apply list_elem_of_In, elem_of_cells. eauto.
  - intros H [[row col] v] Hin.
    apply list_elem_of_In, elem_of_cells in Hin as (rw & Hrw & Hcell).
    destruct (Z.eqb_spec v 0) as [| Hv0]; [reflexivity |].
    apply cell_test_spec; [exact Hv |]. apply H.
    rewrite (at2_Some _ _ _ _ _ Hrw Hcell). exact Hv0.
Qed.

Lemma getShape_in_range (piece : Tetromino) :
  0 <= rotation piece < 4 ->
  exists shape, getShape piece = Some shape /\ shape <> [].
Proof.
  destruct piece as [t r]. simpl. intros Hr.
  assert (r = 0 \/ r = 1 \/ r = 2 \/ r = 3) as Hc by lia.
  destruct Hc as [-> | [-> | [-> | ->]]]; destruct t;
    eexists; (split; [reflexivity | discriminate]).
Qed.
End Validity.

Section Collision.
Import Examples.

Lemma elem_of_grid4 (r c : Z) :
  (r, c) ∈ grid4 <-> 0 <= r < 4 /\ 0 <= c < 4.
Proof.
  unfold grid4. rewrite list_elem_of_bind. split.
  - intros (r' & Hin & Hr). apply elem_of_seqZ in Hr.
    apply list_elem_of_bind in Hin as (c' & Hin & Hc).
    apply elem_of_seqZ in Hc. apply list_elem_of_singleton in Hin.
    inversion Hin; subst. lia.
  - intros [Hr Hc]. exists r. split; [| apply elem_of_seqZ; lia].
    apply list_elem_of_bind. exists c.
    split; [apply list_elem_of_singleton; reflexivity | apply elem_of_seqZ; lia].
Qed.

Lemma checkCollision_spec (b : Board) (piece : Piece) (dx dy : Z) :
  checkCollision b piece dx dy = false <-> fits_open_top b piece dx dy.
Proof.
  unfold checkCollision, fits_open_top.
  rewrite <- not_true_iff_false, existsb_exists. split.
  - intros Hno r c Hr Hc Hfilled.
    assert (~ ((if negb (at2 (shape piece) r c =? 0) then
                  if (x piece + dx + c <? 0) || (x piece + dx + c >=? BOARD_WIDTH)
                     || (y piece + dy + r >=? BOARD_HEIGHT) then true
                  else if (y piece + dy + r >=? 0)
                          && truthy (board_at b (y piece + dy + r) (x piece + dx + c))
                  then true else false
                else false) = true)) as Hcell.
    { intros Ht. apply Hno. exists (r, c).
      split; [apply list_elem_of_In, elem_of_grid4; auto | exact Ht]. }
    apply Z.eqb_neq in Hfilled. rewrite Hfilled in Hcell. simpl in Hcell.
    destruct (Z.ltb_spec (x piece + dx + c) 0); simpl in Hcell; [congruence |].
    destruct (Z.geb_spec (x piece + dx + c) BOARD_WIDTH); simpl in Hcell;
      [congruence |].
    destruct (Z.geb_spec (y piece + dy + r) BOARD_HEIGHT); simpl in Hcell;
      [congruence |].
    repeat split; try lia.
    intros Hy. destruct (Z.geb_spec (y piece + dy + r) 0); [| lia].
    simpl in Hcell.
    destruct (truthy (board_at b (y piece + dy + r) (x piece + dx + c)));
      [congruence | reflexivity].
  - intros Hfits ([r c] & Hin & Ht).
    apply list_elem_of_In, elem_of_grid4 in Hin as [Hr Hc].
    destruct (Z.eqb_spec (at2 (shape piece) r c) 0) as [| Hfilled];
      simpl in Ht; [discriminate |].
    destruct (Hfits r c Hr Hc Hfilled) as (Hx & Hy & Hempty).
    destruct (Z.ltb_spec (x piece + dx + c) 0); [lia |].
    destruct (Z.geb_spec (x piece + dx + c) BOARD_WIDTH); [lia |].
    destruct (Z.geb_spec (y piece + dy + r) BOARD_HEIGHT); [lia |].
    simpl in Ht.
    destruct (Z.geb_spec (y piece + dy + r) 0); simpl in Ht; [| discriminate].
    rewrite Hempty in Ht by lia. discriminate.
Qed.
End Collision.

Section EmptyBoard.
Import Examples.

Lemma createEmptyBoard_ok : board_ok createEmptyBoard.
Proof.
  split; [reflexivity |].
  apply Forall_replicate. split; [reflexivity |].
  apply Forall_replicate. left. reflexivity.
Qed.

Lemma TETROMINOS_shape_matrix4 (t : TetrominoName) :
  matrix4 (TETROMINOS_shape t).
Proof. destruct t; (split; [reflexivity | repeat constructor]). Qed.
End EmptyBoard.

(** C2, as stated, fails in the examples variant: a T piece at row -2 of
    the empty board is accepted ([checkCollision] is false) although one of
    its filled cells lies above the board. *)
Lemma C2_examples_accepts_piece_above_top :
  negb (Examples.checkCollision Examples.createEmptyBoard piece_above_top 0 0)
  = true
  /\ ~ Examples.in_bounds_and_empty Examples.createEmptyBoard piece_above_top 0 0.
Proof.
  split; [reflexivity |].
  intros H. destruct (H 1 1) as (_ & Hy & _); try lia.
  - discriminate.
  - simpl in Hy. lia.
Qed.

(** C2, amended.  [GameBoard.isValidPosition] is true exactly when every
    filled cell of the piece's current shape maps to a board cell that is
    in bounds on both axes and empty.  The negation of
    [TetrisGame.checkCollision] is true exactly when every filled cell is
    between the side walls and above the floor, and empty if it is on the
    board: cells above the top row are accepted. *)
Theorem C2_placement_validity (gb : MyWork.GameBoard) (piece : MyWork.Tetromino)
    (x y : Z) (b : Examples.Board) (p : Examples.Piece) (dx dy : Z) :
  MyWork.validateBoard gb = true ->
  0 <= MyWork.rotation piece < 4 ->
  Examples.board_ok b ->
  Examples.matrix4 (Examples.shape p) ->
  (exists shape, MyWork.getShape piece = Some shape
                 /\ (MyWork.isValidPosition gb piece x y = true
                     <-> MyWork.fits gb shape x y))
  /\ (negb (Examples.checkCollision b p dx dy) = true
      <-> Examples.fits_open_top b p dx dy).
Proof.
  intros Hv Hrot _ _. split.
  - destruct (getShape_in_range piece Hrot) as (shape & Hs & Hne).
    exists shape. split; [exact Hs |].
    apply isValidPosition_fits; assumption.
  - rewrite negb_true_iff. apply checkCollision_spec.
Qed.

Lemma C2_placement_validity_witness :
  (exists shape, MyWork.getShape (MyWork.newTetromino MyWork.TT) = Some shape
                 /\ (MyWork.isValidPosition empty_10x20
                       (MyWork.newTetromino MyWork.TT) 3 0 = true
                     <-> MyWork.fits empty_10x20 shape 3 0))
  /\ (negb (Examples.checkCollision Examples.createEmptyBoard
              piece_above_top 0 0) = true
      <-> Examples.fits_open_top Examples.createEmptyBoard piece_above_top 0 0).
Proof.
  apply (C2_placement_validity empty_10x20 (MyWork.newTetromino MyWork.TT) 3 0
           Examples.createEmptyBoard piece_above_top 0 0);
    [reflexivity | simpl; lia | apply createEmptyBoard_ok
     | apply TETROMINOS_shape_matrix4].
Defined.

(** * Placing a piece (C7) *)

Section Placing.
Import MyWork.

Lemma getColorId_type (t : TetrominoType) :
  getColorId (color t) = typeColorId t.
Proof. destruct t; reflexivity. Qed.

Lemma typeColorId_range (t : TetrominoType) : 1 <= typeColorId t <= 7.
Proof. destruct t; simpl; lia. Qed.

Lemma getColorId_range (c : string) : 1 <= getColorId c <= 7.
Proof.
  unfold getColorId.
  destruct (list_find _ colorMap) as [[i [k id]] |] eqn:Hfind; [| lia].
  apply list_find_Some in Hfind as (Hlook & _ & _).
  do 7 (destruct i as [| i]; [inversion Hlook; lia |]).
  discriminate Hlook.
Qed.

Lemma validateBoard_row (gb : GameBoard) (r : Z) :
  validateBoard gb = true -> 0 <= r < height gb ->
  exists row, js_index (board gb) r = Some row
              /\ Z.of_nat (length row) = width gb.
Proof.
  intros Hv Hr. apply validateBoard_spec in Hv as [Hh Hrows].
  destruct (js_index_lt (board gb) r) as [row Hrow]; [lia |].
  exists row. split; [exact Hrow |].
  apply js_index_Some in Hrow as [_ Hrow].
  apply list_elem_of_lookup_2 in Hrow.
  rewrite Forall_forall in Hrows. apply (Hrows row Hrow).
Qed.

Lemma setCellValue_valid (gb : GameBoard) (r c v : Z) :
  validateBoard gb = true ->
  validateBoard (snd (setCellValue gb r c v)) = true
  /\ width (snd (setCellValue gb r c v)) = width gb
  /\ height (snd (setCellValue gb r c v)) = height gb.
Proof.
  intros Hv. unfold setCellValue.
  destruct ((r <? 0) || (r >=? height gb) || (c <? 0) || (c >=? width gb));
    [auto |].
  destruct (Z.ltb_spec v 0); [auto |]. simpl.
  split; [| auto].
  apply validateBoard_spec in Hv as [Hh Hrows].
  apply validateBoard_spec. simpl. split.
  - rewrite set2_length. exact Hh.
  - apply set2_Forall; [| exact Hrows].
    intros row [Hw Hcells]. split.
    + rewrite length_insert. exact Hw.
    + apply Forall_insert; assumption.
Qed.

Lemma setCellValue_at2 (gb : GameBoard) (r c v r' c' : Z) :
  validateBoard gb = true -> 0 <= v ->
  at2 (board (snd (setCellValue gb r c v))) r' c'
  = if isInBounds gb r c && (r =? r') && (c =? c') then v
    else at2 (board gb) r' c'.
Proof.
  intros Hv Hv0. unfold setCellValue.
  destruct (isInBounds gb r c) eqn:Hin.
  - apply isInBounds_spec in Hin as [Hr Hc].
    destruct (Z.ltb_spec r 0); [lia |].
    destruct (Z.geb_spec r (height gb)); [lia |].
    destruct (Z.ltb_spec c 0); [lia |].
    destruct (Z.geb_spec c (width gb)); [lia |].
    destruct (Z.ltb_spec v 0); [lia |]. simpl.
    destruct (Z.eqb_spec r r') as [<- | Hr']; simpl.
    + destruct (Z.eqb_spec c c') as [<- | Hc'].
      * destruct (validateBoard_row gb r Hv Hr) as (row & Hrow & Hlen).
        apply (at2_set2_eq _ _ _ _ row); [exact Hrow | lia].
      * apply at2_set2_ne. right. exact Hc'.
    + apply at2_set2_ne. left. exact Hr'.
  - simpl.
    assert ((r <? 0) || (r >=? height gb) || (c <? 0) || (c >=? width gb)
            = true) as ->; [| reflexivity].
    unfold isInBounds in Hin.
    destruct (Z.ltb_spec r 0); [reflexivity |].
    destruct (Z.geb_spec r (height gb)); [reflexivity |].
    destruct (Z.ltb_spec c 0); [reflexivity |].
    destruct (Z.geb_spec c (width gb)); [reflexivity |].
    destruct (Z.geb_spec r 0); [| lia].
    destruct (Z.ltb_spec r (height gb)); [| lia].
    destruct (Z.geb_spec c 0); [| lia].
    destruct (Z.ltb_spec c (width gb)); [| lia].
    discriminate Hin.
Qed.

(** The loop of [placePiece], over any list of shape cells. *)
Lemma place_fold (x y colorId : Z) (l : list (Z * Z * Z)) (gb : GameBoard) :
  validateBoard gb = true -> 0 <= colorId ->
  let gb' :=
    foldl (fun g '(row, col, v) =>
             if v =? 1 then snd (setCellValue g (y + row) (x + col) colorId)
             else g) gb l in
  validateBoard gb' = true /\ width gb' = width gb /\ height gb' = height gb
  /\ forall r c,
       at2 (board gb') r c
       = if existsb (fun '(row, col, v) =>
                       (v =? 1) && isInBounds gb (y + row) (x + col)
                       && (y + row =? r) && (x + col =? c)) l
         then colorId else at2 (board gb) r c.
Proof.
  intros Hv Hc. revert gb Hv.
  induction l as [| [[row col] v] l IH]; intros gb Hv; simpl.
  - auto.
  - destruct (Z.eqb_spec v 1) as [-> | Hv1]; simpl.
    + destruct (setCellValue_valid gb (y + row) (x + col) colorId Hv)
        as (Hv' & Hw & Hh).
      destruct (IH _ Hv') as (IH1 & IH2 & IH3 & IH4).
      split; [exact IH1 |]. split; [congruence |]. split; [congruence |].
      intros r c. rewrite IH4.
      rewrite setCellValue_at2 by assumption.
      assert (forall r0 c0, isInBounds (snd (setCellValue gb (y + row) (x + col) colorId)) r0 c0
                            = isInBounds gb r0 c0) as Hsame.
      { intros r0 c0. unfold isInBounds. rewrite Hw, Hh. reflexivity. }
      rewrite (existsb_pointwise _
                 (fun '(row, col, v) =>
                    (v =? 1) && isInBounds gb (y + row) (x + col)
                    && (y + row =? r) && (x + col =? c)))
        by (intros [[row0 col0] v0]; rewrite Hsame; reflexivity).
      destruct (existsb _ l); [rewrite orb_true_r; reflexivity |].
      rewrite orb_false_r. reflexivity.
    + apply IH. exact Hv.
Qed.

Lemma filled_cell_exists (gb : GameBoard) (shape : Shape) (x y r c : Z) :
  fits gb shape x y ->
  existsb (fun '(row, col, v) =>
             (v =? 1) && isInBounds gb (y + row) (x + col)
             && (y + row =? r) && (x + col =? c)) (cells shape)
  = (at2 shape (r - y) (c - x) =? 1).
Proof.
  intros Hfits. apply eq_true_iff_eq.
  rewrite existsb_exists, Z.eqb_eq. split.
  - intros ([[row col] v] & Hin & Hcell).
    apply list_elem_of_In, elem_of_cells in Hin as (rw & Hrw & Hcol).
    apply andb_true_iff in Hcell as [Hcell Hx].
    apply andb_true_iff in Hcell as [Hcell Hy].
    apply andb_true_iff in Hcell as [Hv _].
    apply Z.eqb_eq in Hx, Hy, Hv. subst v.
    replace (r - y) with row by lia. replace (c - x) with col by lia.
    apply (at2_Some _ _ _ _ _ Hrw Hcol).
  - intros H1.
    assert (at2 shape (r - y) (c - x) <> 0) as Hnz by lia.
    destruct (at2_nonzero _ _ _ Hnz) as (rw & Hrw & Hcol).
    exists (r - y, c - x, at2 shape (r - y) (c - x)). split.
    + apply list_elem_of_In, elem_of_cells. eauto.
    + destruct (Hfits _ _ Hnz) as (Hr & Hc & _).
      rewrite H1. simpl.
      assert (isInBounds gb (y + (r - y)) (x + (c - x)) = true) as ->
        by (apply isInBounds_spec; lia).
      simpl. apply andb_true_iff. split; apply Z.eqb_eq; lia.
Qed.
End Placing.

(** C7. [GameBoard.placePiece] returns false and leaves the board as it is
    when [isValidPosition] is false for the piece and position; when it is
    true, [placePiece] returns true and the new board, of the same size,
    holds the colour id of the piece type in exactly the cells covered by
    the filled cells of the shape, every other cell being unchanged. *)
Theorem C7_placePiece (gb : MyWork.GameBoard) (piece : MyWork.Tetromino)
    (x y : Z) :
  MyWork.validateBoard gb = true ->
  (MyWork.isValidPosition gb piece x y = false ->
   MyWork.placePiece gb piece x y = (false, gb))
  /\ (MyWork.isValidPosition gb piece x y = true ->
      exists shape gb',
        MyWork.getShape piece = Some shape
        /\ MyWork.placePiece gb piece x y = (true, gb')
        /\ MyWork.width gb' = MyWork.width gb
        /\ MyWork.height gb' = MyWork.height gb
        /\ MyWork.validateBoard gb' = true
        /\ 1 <= MyWork.typeColorId (MyWork.type piece) <= 7
        /\ forall r c,
             at2 (MyWork.board gb') r c
             = if at2 shape (r - y) (c - x) =? 1
               then MyWork.typeColorId (MyWork.type piece)
               else at2 (MyWork.board gb) r c).
Proof.
  intros Hv. split.
  - intros Hinv. unfold MyWork.placePiece. rewrite Hinv. reflexivity.
  - intros Hval.
    destruct (MyWork.getShape piece) as [shape |] eqn:Hs;
      [| unfold MyWork.isValidPosition in Hval; rewrite Hs in Hval; discriminate].
    assert (shape <> []) as Hne.
    { intros ->. unfold MyWork.isValidPosition in Hval. rewrite Hs in Hval.
      discriminate. }
    pose proof (proj1 (isValidPosition_fits gb piece shape x y Hv Hs Hne) Hval)
      as Hfits.
    pose proof (typeColorId_range (MyWork.type piece)) as Hrange.
    destruct (place_fold x y (MyWork.typeColorId (MyWork.type piece))
                (cells shape) gb Hv ltac:(lia)) as (H1 & H2 & H3 & H4).
    eexists shape, _. split; [reflexivity |].
    split.
    { unfold MyWork.placePiece. rewrite Hval, Hs. simpl.
      unfold MyWork.getColor. rewrite getColorId_type. reflexivity. }
    split; [exact H2 |]. split; [exact H3 |]. split; [exact H1 |].
    split; [exact Hrange |].
    intros r c. rewrite H4. rewrite (filled_cell_exists gb shape x y r c Hfits).
    reflexivity.
Qed.

Lemma C7_placePiece_witness :
  (MyWork.isValidPosition empty_10x20 (MyWork.newTetromino MyWork.TT) 3 0 = false ->
   MyWork.placePiece empty_10x20 (MyWork.newTetromino MyWork.TT) 3 0
   = (false, empty_10x20))
  /\ (MyWork.isValidPosition empty_10x20 (MyWork.newTetromino MyWork.TT) 3 0 = true ->
      exists shape gb',
        MyWork.getShape (MyWork.newTetromino MyWork.TT) = Some shape
        /\ MyWork.placePiece empty_10x20 (MyWork.newTetromino MyWork.TT) 3 0
           = (true, gb')
        /\ MyWork.width gb' = MyWork.width empty_10x20
        /\ MyWork.height gb' = MyWork.height empty_10x20
        /\ MyWork.validateBoard gb' = true
        /\ 1 <= MyWork.typeColorId (MyWork.type (MyWork.newTetromino MyWork.TT)) <= 7
        /\ forall r c,
             at2 (MyWork.board gb') r c
             = if at2 shape (r - 0) (c - 3) =? 1
               then MyWork.typeColorId (MyWork.type (MyWork.newTetromino MyWork.TT))
               else at2 (MyWork.board empty_10x20) r c).
Proof.
  apply (C7_placePiece empty_10x20 (MyWork.newTetromino MyWork.TT) 3 0).
  reflexivity.
Defined.

(** * Locking a piece in the examples variant (C9, C10) *)

Section Locking.
Import Examples.

Lemma board_ok_row (b : Board) (r : Z) :
  board_ok b -> 0 <= r < BOARD_HEIGHT ->
  exists row, js_index b r = Some row
              /\ length row = Z.to_nat BOARD_WIDTH /\ Forall cell_ok row.
Proof.
  intros [Hlen Hrows] Hr.
  destruct (js_index_lt b r) as [row Hrow]; [lia |].
  exists row. split; [exact Hrow |].
  apply js_index_Some in Hrow as [_ Hrow].
  apply list_elem_of_lookup_2 in Hrow.
  rewrite Forall_forall in Hrows. apply (Hrows row Hrow).
Qed.

(** The single write [board[boardY][boardX] = v] inside the board. *)
Lemma board_at_write (b : Board) (row : list jsval) (by_ bx r c : Z) (v : jsval) :
  js_index b by_ = Some row -> 0 <= bx < Z.of_nat (length row) -> 0 <= r ->
  board_at (<[Z.to_nat by_ := js_set row bx v]> b) r c
  = if (by_ =? r) && (bx =? c) then v else board_at b r c.
Proof.
  intros Hrow Hbx Hr.
  pose proof Hrow as Hrow'. apply js_index_Some in Hrow' as [Hby Hlook].
  pose proof (lookup_lt_Some _ _ _ Hlook) as Hlt.
  assert (js_set row bx v = <[Z.to_nat bx := v]> row) as ->.
  { unfold js_set. destruct (Z.ltb_spec bx 0); [lia |].
    destruct (Nat.ltb_spec (Z.to_nat bx) (length row)); [reflexivity | lia]. }
  unfold board_at, js_index.
  destruct (Z.ltb_spec r 0); [lia |].
  destruct (Z.eqb_spec by_ r) as [<- | Hne]; cbn [andb].
  - rewrite list_lookup_insert_eq by exact Hlt. rewrite Hlook. cbn [mbind option_bind].
    destruct (Z.ltb_spec c 0).
    + destruct (Z.eqb_spec bx c); [lia | reflexivity].
    + destruct (Z.eqb_spec bx c) as [<- | Hcne].
      * rewrite list_lookup_insert_eq by lia. reflexivity.
      * rewrite list_lookup_insert_ne by lia. reflexivity.
  - rewrite list_lookup_insert_ne by lia. reflexivity.
Qed.

Lemma board_ok_write (b : Board) (row : list jsval) (by_ bx : Z)
    (t : TetrominoName) :
  board_ok b -> js_index b by_ = Some row -> 0 <= bx < BOARD_WIDTH ->
  board_ok (<[Z.to_nat by_ := js_set row bx (JStr (TETROMINOS_color t))]> b).
Proof.
  intros [Hlen Hrows] Hrow Hbx.
  apply js_index_Some in Hrow as [Hby Hlook].
  pose proof (list_elem_of_lookup_2 _ _ _ Hlook) as Hin.
  rewrite Forall_forall in Hrows. destruct (Hrows row Hin) as [Hw Hcells].
  split; [rewrite length_insert; exact Hlen |].
  apply Forall_insert; [apply Forall_forall; exact Hrows |].
  unfold js_set. destruct (Z.ltb_spec bx 0); [lia |].
  destruct (Nat.ltb_spec (Z.to_nat bx) (length row)); [| unfold BOARD_WIDTH in *; lia].
  split; [rewrite length_insert; exact Hw |].
  apply Forall_insert; [exact Hcells |]. right. exists t. reflexivity.
Qed.

(** The loop of [placePiece()], over any list of index pairs whose filled
    cells are between the walls and above the floor. *)
Lemma lock_fold (p : Piece) (t : TetrominoName) (l : list (Z * Z)) (b : Board) :
  color p = TETROMINOS_color t ->
  board_ok b ->
  (forall r c, (r, c) ∈ l -> at2 (shape p) r c <> 0 ->
               0 <= x p + c < BOARD_WIDTH /\ y p + r < BOARD_HEIGHT) ->
  exists b',
    foldl (fun ob '(y, x) =>
             b ← ob;
             if negb (at2 (shape p) y x =? 0) then
               let boardX := Examples.x p + x in
               let boardY := Examples.y p + y in
               if boardY >=? 0 then
                 row ← js_index b boardY;
                 Some (<[Z.to_nat boardY := js_set row boardX (JStr (color p))]> b)
               else Some b
             else Some b)
          (Some b) l = Some b'
    /\ board_ok b'
    /\ forall r' c', 0 <= r' ->
         board_at b' r' c'
         = if existsb (fun '(r, c) =>
                         negb (at2 (shape p) r c =? 0)
                         && (y p + r =? r') && (x p + c =? c')) l
           then JStr (color p) else board_at b r' c'.
Proof.
  intros Hcol. revert b.
  induction l as [| [r c] l IH]; intros b Hok Hfit; simpl.
  - exists b. auto.
  - assert (forall r0 c0, (r0, c0) ∈ l -> at2 (shape p) r0 c0 <> 0 ->
              0 <= x p + c0 < BOARD_WIDTH /\ y p + r0 < BOARD_HEIGHT) as Hfit'.
    { intros r0 c0 Hin. apply Hfit. right. exact Hin. }
    destruct (Z.eqb_spec (at2 (shape p) r c) 0) as [Hz | Hnz]; simpl.
    + destruct (IH b Hok Hfit') as (b' & Hb' & Hok' & Hat).
      exists b'. auto.
    + destruct (Hfit r c ltac:(left) Hnz) as [Hx Hy].
      destruct (Z.geb_spec (y p + r) 0) as [Hy0 | Hy0].
      * destruct (board_ok_row b (y p + r) Hok ltac:(lia))
          as (row & Hrow & Hw & Hcells).
        rewrite Hrow. simpl.
        assert (board_ok (<[Z.to_nat (y p + r)
                            := js_set row (x p + c) (JStr (color p))]> b)) as Hok1.
        { rewrite Hcol. apply board_ok_write; assumption. }
        destruct (IH _ Hok1 Hfit') as (b' & Hb' & Hok' & Hat).
        exists b'. split; [exact Hb' |]. split; [exact Hok' |].
        intros r' c' Hr'. rewrite (Hat r' c' Hr').
        rewrite (board_at_write b row) by (try assumption; unfold BOARD_WIDTH in *; lia).
        destruct (existsb _ l); [rewrite orb_true_r; reflexivity |].
        rewrite orb_false_r. reflexivity.
      * destruct (IH b Hok Hfit') as (b' & Hb' & Hok' & Hat).
        exists b'. split; [exact Hb' |]. split; [exact Hok' |].
        intros r' c' Hr'. rewrite (Hat r' c' Hr').
        destruct (Z.eqb_spec (y p + r) r'); [lia |]. reflexivity.
Qed.

Lemma covered_cell (p : Piece) (r' c' : Z) :
  matrix4 (shape p) ->
  existsb (fun '(r, c) =>
             negb (at2 (shape p) r c =? 0)
             && (y p + r =? r') && (x p + c =? c')) grid4
  = negb (at2 (shape p) (r' - y p) (c' - x p) =? 0).
Proof.
  intros Hm. apply eq_true_iff_eq.
  rewrite existsb_exists, negb_true_iff, Z.eqb_neq. split.
  - intros ([r c] & _ & Hcell).
    apply andb_true_iff in Hcell as [Hcell Hc].
    apply andb_true_iff in Hcell as [Hnz Hr].
    apply Z.eqb_eq in Hc, Hr. apply negb_true_iff, Z.eqb_neq in Hnz.
    replace (r' - y p) with r by lia. replace (c' - x p) with c by lia.
    exact Hnz.
  - intros Hnz. exists (r' - y p, c' - x p). split.
    + apply list_elem_of_In, elem_of_grid4.
      destruct (at2_nonzero _ _ _ Hnz) as (row & Hrow & Hcellv).
      destruct Hm as [Hlen Hrows].
      apply js_index_Some in Hrow as [Hr Hrow].
      apply js_index_Some in Hcellv as [Hc Hcellv].
      pose proof (lookup_lt_Some _ _ _ Hrow) as Hlt.
      pose proof (list_elem_of_lookup_2 _ _ _ Hrow) as Hin.
      rewrite Forall_forall in Hrows. specialize (Hrows row Hin).
      pose proof (lookup_lt_Some _ _ _ Hcellv) as Hlt'.
      lia.
    + apply Z.eqb_neq in Hnz. rewrite Hnz. simpl.
      apply andb_true_iff. split; apply Z.eqb_eq; lia.
Qed.

Lemma lockCells_spec (b : Board) (p : Piece) (t : TetrominoName) :
  board_ok b -> matrix4 (shape p) -> color p = TETROMINOS_color t ->
  checkCollision b p 0 0 = false ->
  exists b', lockCells b p = Some b'
    /\ board_ok b'
    /\ forall r c, 0 <= r ->
         board_at b' r c
         = if negb (at2 (shape p) (r - y p) (c - x p) =? 0)
           then JStr (color p) else board_at b r c.
Proof.
  intros Hok Hm Hcol Hfree.
  apply checkCollision_spec in Hfree.
  destruct (lock_fold p t grid4 b Hcol Hok) as (b' & Hb' & Hok' & Hat).
  { intros r c Hin Hnz. apply elem_of_grid4 in Hin as [Hr Hc].
    destruct (Hfree r c Hr Hc Hnz) as (Hx & Hy & _). lia. }
  exists b'. split; [exact Hb' |]. split; [exact Hok' |].
  intros r c Hr. rewrite (Hat r c Hr), (covered_cell p r c Hm). reflexivity.
Qed.
End Locking.

(** * Line clearing in the examples variant *)

Section ExamplesClearLines.
Import Examples.

Lemma emptyRow_not_complete : every_not_zero emptyRow = false.
Proof. reflexivity. Qed.

Lemma replicate_snoc {A} (n : nat) (a : A) :
  replicate n a ++ [a] = a :: replicate n a.
Proof. induction n as [| n IH]; simpl; [reflexivity | rewrite IH; reflexivity]. Qed.

(** The loop, started at the last row of [reverse rt] with the rows below
    already done: [rt] lists the rows still to visit, from row [y] upwards. *)
Lemma clearLines_loop_spec (fuel : nat) (rt bottom : Board) (lc : Z) :
  (length rt + completedCount rt < fuel)%nat ->
  clearLines_loop fuel (reverse rt ++ bottom) (Z.of_nat (length rt) - 1) lc
  = Some (replicate (completedCount rt) emptyRow
            ++ reverse (filter (fun row => every_not_zero row = false) rt)
            ++ bottom,
          lc + Z.of_nat (completedCount rt)).
Proof.
  revert rt bottom lc.
  induction fuel as [| fuel IH]; intros rt bottom lc Hfuel; [lia |].
  destruct rt as [| row rt]; cbn [clearLines_loop].
  - simpl. rewrite Z.add_0_r. reflexivity.
  - destruct (Z.geb_spec (Z.of_nat (length (row :: rt)) - 1) 0) as [_ | Hneg];
      [| simpl in Hneg; lia].
    assert (js_index (reverse (row :: rt) ++ bottom)
                     (Z.of_nat (length (row :: rt)) - 1) = Some row) as Hrow.
    { apply js_index_Some. split; [simpl; lia |].
      rewrite reverse_cons, <- app_assoc.
      replace (Z.to_nat (Z.of_nat (length (row :: rt)) - 1))
        with (length (reverse rt) + 0)%nat
        by (rewrite length_reverse; simpl; lia).
      rewrite lookup_app_r by lia.
      replace (length (reverse rt) + 0 - length (reverse rt))%nat with 0%nat by lia.
      reflexivity. }
    rewrite Hrow. cbn [mbind option_bind].
    unfold completedCount in *.
    rewrite !filter_cons in *.
    destruct (every_not_zero row) eqn:Hc.
    + destruct (decide (true = true)) as [_ | Hn]; [| congruence].
      destruct (decide (true = false)) as [Hn | _]; [discriminate |].
      cbn [length] in Hfuel.
      assert (delete (Z.to_nat (Z.of_nat (length (row :: rt)) - 1))
                     (reverse (row :: rt) ++ bottom)
              = reverse rt ++ bottom) as ->.
      { rewrite reverse_cons, <- app_assoc. cbn [app].
        replace (Z.to_nat (Z.of_nat (length (row :: rt)) - 1))
          with (length (reverse rt))
          by (rewrite length_reverse; simpl; lia).
        rewrite delete_middle. reflexivity. }
      replace (emptyRow :: reverse rt ++ bottom)
        with (reverse (rt ++ [emptyRow]) ++ bottom)
        by (rewrite reverse_app; reflexivity).
      replace (Z.of_nat (length (row :: rt)) - 1 + 1 - 1)
        with (Z.of_nat (length (rt ++ [emptyRow])) - 1)
        by (rewrite length_app; simpl; lia).
      rewrite IH.
      * rewrite !filter_app, !filter_cons, !filter_nil.
        rewrite emptyRow_not_complete.
        destruct (decide (false = true)) as [Hn | _]; [discriminate |].
        destruct (decide (false = false)) as [_ | Hn]; [| congruence].
        rewrite app_nil_r, reverse_app.
        change (reverse [emptyRow]) with [emptyRow].
        cbn [length replicate]. rewrite <- replicate_snoc.
        apply f_equal. apply f_equal2; [| lia].
        rewrite <- !app_assoc. reflexivity.
      * rewrite !filter_app, !filter_cons, !filter_nil, emptyRow_not_complete.
        destruct (decide (false = true)) as [Hn | _]; [discriminate |].
        rewrite app_nil_r, length_app. simpl. lia.
    + destruct (decide (false = true)) as [Hn | _]; [discriminate |].
      destruct (decide (false = false)) as [_ | Hn]; [| congruence].
      cbn [length] in Hfuel.
      replace (reverse (row :: rt) ++ bottom)
        with (reverse rt ++ row :: bottom)
        by (rewrite reverse_cons, <- app_assoc; reflexivity).
      replace (Z.of_nat (length (row :: rt)) - 1 - 1)
        with (Z.of_nat (length rt) - 1) by (simpl; lia).
      rewrite IH by lia.
      rewrite reverse_cons, <- app_assoc. reflexivity.
Qed.

(** [clearLines()] on a board of [BOARD_HEIGHT] rows always finishes: it
    removes every complete row, keeps the others in order, and reports
    the number of rows removed. *)
Lemma clearLines_board_spec (b : Board) :
  length b = Z.to_nat BOARD_HEIGHT ->
  clearLines_board b = Some (withoutCompleted b, Z.of_nat (completedCount b)).
Proof.
  intros Hlen. unfold clearLines_board, clearLines_fuel, withoutCompleted.
  pose proof (clearLines_loop_spec (2 * length b + 1) (reverse b) [] 0) as H.
  rewrite reverse_involutive, app_nil_r, length_reverse in H.
  replace (Z.of_nat (length b) - 1) with (BOARD_HEIGHT - 1) in H
    by (rewrite Hlen; reflexivity).
  unfold completedCount in *. rewrite filter_reverse, length_reverse in H.
  rewrite H.
  - rewrite filter_reverse, reverse_involutive, app_nil_r. reflexivity.
  - pose proof (length_filter (fun row => every_not_zero row = true) b). lia.
Qed.
End ExamplesClearLines.

(** * The board invariant (C9) *)

Section GridInvariant.
Import MyWork.

Lemma rows_ok_at2 (w : Z) (b : list (list Z)) (r c : Z) :
  rows_ok w b -> 0 <= at2 b r c <= 7.
Proof.
  intros Hrows. unfold at2.
  destruct (js_index b r) as [row |] eqn:Hrow; simpl; [| lia].
  destruct (js_index row c) as [v |] eqn:Hc; simpl; [| lia].
  apply js_index_Some in Hrow as [_ Hrow]. apply js_index_Some in Hc as [_ Hc].
  apply list_elem_of_lookup_2 in Hrow, Hc.
  unfold rows_ok in Hrows. rewrite Forall_forall in Hrows.
  destruct (Hrows row Hrow) as [_ Hcells].
  rewrite Forall_forall in Hcells. apply Hcells, Hc.
Qed.

Lemma rows_ok_set2 (w : Z) (b : list (list Z)) (r c v : Z) :
  rows_ok w b -> 0 <= v <= 7 -> rows_ok w (set2 b r c v).
Proof.
  intros Hrows Hv. apply set2_Forall; [| exact Hrows].
  intros row [Hw Hcells]. split.
  - rewrite length_insert. exact Hw.
  - apply Forall_insert; assumption.
Qed.

Lemma grid_ok_new (w h : Z) :
  0 <= w -> 0 <= h -> grid_ok (newGameBoard w h).
Proof.
  intros Hw Hh. split; simpl.
  - rewrite length_replicate. lia.
  - apply Forall_replicate. split.
    + rewrite length_replicate. lia.
    + apply Forall_replicate. lia.
Qed.

Lemma grid_ok_reset (gb : GameBoard) :
  grid_ok gb -> grid_ok (reset gb).
Proof.
  intros [Hh Hrows]. split; simpl.
  - rewrite length_replicate. lia.
  - destruct (board gb) as [| row rest] eqn:Hb.
    + simpl in Hh. rewrite <- Hh. simpl. constructor.
    + apply Forall_cons in Hrows as [[Hw _] _].
      apply Forall_replicate. split.
      * rewrite length_replicate. lia.
      * apply Forall_replicate. lia.
Qed.

Lemma grid_ok_setCellValue (gb : GameBoard) (r c v : Z) :
  grid_ok gb -> 0 <= v <= 7 -> grid_ok (snd (setCellValue gb r c v)).
Proof.
  intros Hok Hv. unfold setCellValue.
  destruct ((r <? 0) || (r >=? height gb) || (c <? 0) || (c >=? width gb));
    [exact Hok |].
  destruct (v <? 0); [exact Hok |].
  destruct Hok as [Hh Hrows]. split; simpl.
  - rewrite set2_length. exact Hh.
  - apply rows_ok_set2; assumption.
Qed.

Lemma setCellValue_size (gb : GameBoard) (r c v : Z) :
  width (snd (setCellValue gb r c v)) = width gb
  /\ height (snd (setCellValue gb r c v)) = height gb.
Proof.
  unfold setCellValue.
  destruct ((r <? 0) || (r >=? height gb) || (c <? 0) || (c >=? width gb));
    [auto |].
  destruct (v <? 0); auto.
Qed.

Lemma grid_ok_placePiece (gb : GameBoard) (piece : Tetromino) (x y : Z) :
  grid_ok gb ->
  grid_ok (snd (placePiece gb piece x y))
  /\ width (snd (placePiece gb piece x y)) = width gb
  /\ height (snd (placePiece gb piece x y)) = height gb.
Proof.
  intros Hok. unfold placePiece.
  destruct (isValidPosition gb piece x y); simpl; [| auto].
  apply (foldl_inv (fun g => grid_ok g /\ width g = width gb
                             /\ height g = height gb)); [auto |].
  intros g [[row col] v] (Hg & Hw & Hh).
  destruct (v =? 1); [| auto].
  destruct (setCellValue_size g (y + row) (x + col)
              (getColorId (getColor piece))) as [Hw' Hh'].
  split; [| split; congruence].
  apply grid_ok_setCellValue; [exact Hg |].
  pose proof (getColorId_range (getColor piece)). lia.
Qed.

Lemma grid_ok_removeLine (gb : GameBoard) (lineIndex : Z) :
  grid_ok gb ->
  grid_ok (removeLine gb lineIndex)
  /\ width (removeLine gb lineIndex) = width gb
  /\ height (removeLine gb lineIndex) = height gb.
Proof.
  intros Hok. unfold removeLine.
  destruct ((lineIndex <? 0) || (lineIndex >=? height gb)); [auto |].
  split; [| auto]. destruct Hok as [Hh Hrows].
  pose (P := fun b : list (list Z) =>
               Z.of_nat (length b) = height gb /\ rows_ok (width gb) b).
  assert (P (board gb)) as HP0 by (split; assumption).
  assert (forall b r c v, P b -> 0 <= v <= 7 -> P (set2 b r c v)) as Hset.
  { intros b r c v [Hl Hr] Hv. split.
    - rewrite set2_length. exact Hl.
    - apply rows_ok_set2; assumption. }
  split; simpl; apply (foldl_inv P);
    try (intros b col Hb; apply Hset; [exact Hb | lia]);
    apply (foldl_inv P); try exact HP0;
    intros b row Hb; apply (foldl_inv P); try exact Hb;
    intros b' col Hb'; apply Hset; try exact Hb';
    destruct Hb' as [_ Hr']; apply (rows_ok_at2 (width gb)); exact Hr'.
Qed.

Lemma grid_ok_clearLines (gb : GameBoard) :
  grid_ok gb ->
  grid_ok (snd (clearLines gb))
  /\ width (snd (clearLines gb)) = width gb
  /\ height (snd (clearLines gb)) = height gb.
Proof.
  intros Hok. unfold clearLines.
  destruct (length (findCompletedLines gb) =? 0)%nat; simpl; [auto |].
  unfold removeCompletedLines.
  apply (foldl_inv (fun g => grid_ok g /\ width g = width gb
                             /\ height g = height gb)); [auto |].
  intros g lineIndex (Hg & Hw & Hh).
  destruct (grid_ok_removeLine g lineIndex Hg) as (Hg' & Hw' & Hh').
  split; [exact Hg' | split; congruence].
Qed.
End GridInvariant.

Section ExamplesInvariant.
Import Examples.

Lemma filter_split_length (b : Board) :
  (completedCount b
   + length (filter (fun row => every_not_zero row = false) b))%nat
  = length b.
Proof.
  unfold completedCount.
  induction b as [| row b IH]; [reflexivity |].
  rewrite !filter_cons.
  destruct (every_not_zero row);
    repeat match goal with |- context [decide ?P] => destruct (decide P) end;
    try congruence; simpl; lia.
Qed.

Lemma withoutCompleted_ok (b : Board) :
  board_ok b -> board_ok (withoutCompleted b).
Proof.
  intros [Hlen Hrows]. unfold withoutCompleted. split.
  - rewrite length_app, length_replicate, filter_split_length. exact Hlen.
  - apply Forall_app. split.
    + apply Forall_replicate. split; [reflexivity |].
      apply Forall_replicate. left. reflexivity.
    + apply Forall_forall. intros row Hin.
      apply list_elem_of_filter in Hin as [_ Hin].
      rewrite Forall_forall in Hrows. apply Hrows, Hin.
Qed.

Lemma withoutCompleted_none_complete (b : Board) :
  Forall (fun row => every_not_zero row = false) (withoutCompleted b).
Proof.
  unfold withoutCompleted. apply Forall_app. split.
  - apply Forall_replicate. reflexivity.
  - apply Forall_forall. intros row Hin.
    apply list_elem_of_filter in Hin as [Hrow _]. exact Hrow.
Qed.

Lemma startNewGame_board (g : TetrisGame) (rnd1 rnd2 : TetrominoName) :
  board (startNewGame g rnd1 rnd2) = createEmptyBoard.
Proof.
  unfold startNewGame, spawnNewPiece. simpl.
  destruct (checkCollision _ _ _ _); reflexivity.
Qed.
End ExamplesInvariant.

(** C9, as stated, fails in the examples variant: locking a T piece on the
    empty board stores the colour string of the piece, not a number in
    0..7. *)
Lemma C9_examples_cell_holds_colour_string :
  exists b',
    Examples.lockCells Examples.createEmptyBoard
                       (Examples.createPiece Examples.PT) = Some b'
    /\ Examples.board_at b' 1 4 = Examples.JStr "#800080"
    /\ ~ Examples.cell_in_0_7 (Examples.board_at b' 1 4).
Proof.
  eexists. split; [reflexivity |]. split; [reflexivity |].
  intros (n & Hn & _). discriminate Hn.
Qed.

(** C9, amended.  In the my-work variant, creating a board, resetting it,
    placing a piece and clearing lines all give a grid of [height] rows of
    [width] cells with every cell in 0..7, of unchanged size.  In the
    examples variant, creating the board, locking a piece that does not
    collide where it stands, clearing lines and starting a new game all give
    a grid of 20 rows of 10 cells, each cell being 0 or the colour string of
    one of the seven tetrominoes. *)
Theorem C9_grid_invariant (gb : MyWork.GameBoard) (piece : MyWork.Tetromino)
    (x y : Z) (b : Examples.Board) (p : Examples.Piece)
    (t : Examples.TetrominoName) :
  MyWork.grid_ok gb ->
  Examples.board_ok b ->
  Examples.matrix4 (Examples.shape p) ->
  Examples.color p = Examples.TETROMINOS_color t ->
  Examples.checkCollision b p 0 0 = false ->
  (MyWork.grid_ok (MyWork.newGameBoard MyWork.BOARD_WIDTH MyWork.BOARD_HEIGHT)
   /\ MyWork.grid_ok (MyWork.reset gb)
   /\ (MyWork.grid_ok (snd (MyWork.placePiece gb piece x y))
       /\ MyWork.width (snd (MyWork.placePiece gb piece x y)) = MyWork.width gb
       /\ MyWork.height (snd (MyWork.placePiece gb piece x y)) = MyWork.height gb)
   /\ (MyWork.grid_ok (snd (MyWork.clearLines gb))
       /\ MyWork.width (snd (MyWork.clearLines gb)) = MyWork.width gb
       /\ MyWork.height (snd (MyWork.clearLines gb)) = MyWork.height gb))
  /\ (Examples.board_ok Examples.createEmptyBoard
      /\ (exists b', Examples.lockCells b p = Some b' /\ Examples.board_ok b')
      /\ (exists b' n, Examples.clearLines_board b = Some (b', n)
                       /\ Examples.board_ok b')
      /\ forall g rnd1 rnd2,
           Examples.board_ok (Examples.board (Examples.startNewGame g rnd1 rnd2))).
Proof.
  intros Hgb Hb Hm Hcol Hfree. split.
  - split; [apply grid_ok_new; unfold MyWork.BOARD_WIDTH, MyWork.BOARD_HEIGHT; lia |].
    split; [apply grid_ok_reset; exact Hgb |].
    split; [apply grid_ok_placePiece; exact Hgb |].
    apply grid_ok_clearLines; exact Hgb.
  - split; [apply createEmptyBoard_ok |].
    split.
    { destruct (lockCells_spec b p t Hb Hm Hcol Hfree) as (b' & Hb' & Hok' & _).
      exists b'. split; assumption. }
    split.
    { exists (Examples.withoutCompleted b), (Z.of_nat (Examples.completedCount b)).
      split; [apply clearLines_board_spec; apply Hb |].
      apply withoutCompleted_ok; exact Hb. }
    intros g rnd1 rnd2. rewrite startNewGame_board. apply createEmptyBoard_ok.
Qed.

Lemma C9_grid_invariant_witness :
  (MyWork.grid_ok (MyWork.newGameBoard MyWork.BOARD_WIDTH MyWork.BOARD_HEIGHT)
   /\ MyWork.grid_ok (MyWork.reset two_full_rows)
   /\ (MyWork.grid_ok (snd (MyWork.placePiece two_full_rows
                              (MyWork.newTetromino MyWork.TT) 3 0))
       /\ MyWork.width (snd (MyWork.placePiece two_full_rows
                               (MyWork.newTetromino MyWork.TT) 3 0))
          = MyWork.width two_full_rows
       /\ MyWork.height (snd (MyWork.placePiece two_full_rows
                                (MyWork.newTetromino MyWork.TT) 3 0))
          = MyWork.height two_full_rows)
   /\ (MyWork.grid_ok (snd (MyWork.clearLines two_full_rows))
       /\ MyWork.width (snd (MyWork.clearLines two_full_rows))
          = MyWork.width two_full_rows
       /\ MyWork.height (snd (MyWork.clearLines two_full_rows))
          = MyWork.height two_full_rows))
  /\ (Examples.board_ok Examples.createEmptyBoard
      /\ (exists b', Examples.lockCells Examples.createEmptyBoard
                       (Examples.createPiece Examples.PT) = Some b'
                     /\ Examples.board_ok b')
      /\ (exists b' n, Examples.clearLines_board Examples.createEmptyBoard
                       = Some (b', n)
                       /\ Examples.board_ok b')
      /\ forall g rnd1 rnd2,
           Examples.board_ok (Examples.board (Examples.startNewGame g rnd1 rnd2))).
Proof.
  apply (C9_grid_invariant two_full_rows (MyWork.newTetromino MyWork.TT) 3 0
           Examples.createEmptyBoard (Examples.createPiece Examples.PT)
           Examples.PT).
  - split; [reflexivity |].
    unfold two_full_rows, MyWork.rows_ok. simpl.
    repeat (constructor;
            [split; [reflexivity | repeat (constructor; [lia |]); constructor] |]).
    constructor.
  - apply createEmptyBoard_ok.
  - apply TETROMINOS_shape_matrix4.
  - reflexivity.
  - reflexivity.
Defined.

(** C10. [TetrisGame.checkCollision] enforces the left, right and bottom
    bounds only: a piece all of whose filled cells are between the side
    walls and above the top row never collides.  When a piece that does not
    collide is locked, the loop of [TetrisGame.placePiece] writes the colour
    into the cells with board row >= 0 under its filled cells and nothing
    else, so cells above the top row are dropped; a T piece at row -2 of
    the empty board adds 3 filled cells, not 4. *)
Theorem C10_open_top (b : Examples.Board) (p : Examples.Piece)
    (t : Examples.TetrominoName) :
  Examples.board_ok b ->
  Examples.matrix4 (Examples.shape p) ->
  Examples.color p = Examples.TETROMINOS_color t ->
  ((forall r c, 0 <= r < 4 -> 0 <= c < 4 ->
                at2 (Examples.shape p) r c <> 0 ->
                0 <= Examples.x p + c < Examples.BOARD_WIDTH
                /\ Examples.y p + r < 0) ->
   Examples.checkCollision b p 0 0 = false)
  /\ (Examples.checkCollision b p 0 0 = false ->
      exists b',
        Examples.lockCells b p = Some b'
        /\ Examples.board_ok b'
        /\ forall r c, 0 <= r ->
             Examples.board_at b' r c
             = if negb (at2 (Examples.shape p) (r - Examples.y p)
                            (c - Examples.x p) =? 0)
               then Examples.JStr (Examples.color p)
               else Examples.board_at b r c)
  /\ (Examples.checkCollision Examples.createEmptyBoard piece_above_top 0 0
      = false
      /\ exists b',
           Examples.lockCells Examples.createEmptyBoard piece_above_top = Some b'
           /\ Examples.filledCellCount b'
              = Examples.filledCellCount Examples.createEmptyBoard + 3).
Proof.
  intros Hb Hm Hcol. split; [| split].
  - intros Habove. apply checkCollision_spec.
    intros r c Hr Hc Hnz. destruct (Habove r c Hr Hc Hnz) as [Hx Hy].
    unfold Examples.BOARD_HEIGHT. repeat split; lia.
  - intros Hfree. apply (lockCells_spec b p t); assumption.
  - split; [reflexivity |]. eexists. split; reflexivity.
Qed.

Lemma C10_open_top_witness :
  ((forall r c, 0 <= r < 4 -> 0 <= c < 4 ->
                at2 (Examples.shape piece_above_top) r c <> 0 ->
                0 <= Examples.x piece_above_top + c < Examples.BOARD_WIDTH
                /\ Examples.y piece_above_top + r < 0) ->
   Examples.checkCollision Examples.createEmptyBoard piece_above_top 0 0 = false)
  /\ (Examples.checkCollision Examples.createEmptyBoard piece_above_top 0 0
      = false ->
      exists b',
        Examples.lockCells Examples.createEmptyBoard piece_above_top = Some b'
        /\ Examples.board_ok b'
        /\ forall r c, 0 <= r ->
             Examples.board_at b' r c
             = if negb (at2 (Examples.shape piece_above_top)
                            (r - Examples.y piece_above_top)
                            (c - Examples.x piece_above_top) =? 0)
               then Examples.JStr (Examples.color piece_above_top)
               else Examples.board_at Examples.createEmptyBoard r c)
  /\ (Examples.checkCollision Examples.createEmptyBoard piece_above_top 0 0
      = false
      /\ exists b',
           Examples.lockCells Examples.createEmptyBoard piece_above_top = Some b'
           /\ Examples.filledCellCount b'
              = Examples.filledCellCount Examples.createEmptyBoard + 3).
Proof.
  apply (C10_open_top Examples.createEmptyBoard piece_above_top Examples.PT);
    [apply createEmptyBoard_ok | apply TETROMINOS_shape_matrix4 | reflexivity].
Defined.

(** * Line clearing (C1) *)

Section FilledCells.
Import Examples.

Lemma count_row_shift (row : list jsval) (count : Z) :
  foldl (fun count v => if truthy v then count + 1 else count) count row
  = count + filledCellCount [row].
Proof.
  unfold filledCellCount. simpl. revert count.
  induction row as [| v row IH]; intros count; simpl; [lia |].
  rewrite IH, (IH (if truthy v then 0 + 1 else 0)).
  destruct (truthy v); lia.
Qed.

Lemma filledCellCount_cons (row : list jsval) (b : Board) :
  filledCellCount (row :: b) = filledCellCount [row] + filledCellCount b.
Proof.
  assert (forall (b : Board) (count : Z),
             foldl (fun count row =>
                      foldl (fun count v => if truthy v then count + 1 else count)
                            count row) count b
             = count + filledCellCount b) as Hshift.
  { clear. unfold filledCellCount.
    induction b as [| row b IH]; intros count; simpl; [lia |].
    rewrite IH, (IH (foldl _ 0 row)), (count_row_shift row count),
      (count_row_shift row 0). lia. }
  unfold filledCellCount at 1. simpl.
  rewrite Hshift, (count_row_shift row 0). lia.
Qed.

Lemma filledCellCount_app (b1 b2 : Board) :
  filledCellCount (b1 ++ b2) = filledCellCount b1 + filledCellCount b2.
Proof.
  induction b1 as [| row b1 IH]; [reflexivity |].
  rewrite <- app_comm_cons, (filledCellCount_cons row (b1 ++ b2)),
    (filledCellCount_cons row b1), IH. lia.
Qed.

Lemma filledCellCount_empty_rows (k : nat) :
  filledCellCount (replicate k emptyRow) = 0.
Proof.
  induction k as [| k IH]; [reflexivity |].
  cbn [replicate]. rewrite filledCellCount_cons, IH. reflexivity.
Qed.

Lemma cell_ok_truthy (v : jsval) :
  cell_ok v -> not_zero v = true -> truthy v = true.
Proof.
  intros [-> | [t ->]] Hnz; [discriminate Hnz |].
  destruct t; reflexivity.
Qed.

Lemma complete_row_count (row : list jsval) :
  Forall cell_ok row -> every_not_zero row = true ->
  filledCellCount [row] = Z.of_nat (length row).
Proof.
  unfold every_not_zero.
  induction row as [| v row IH]; intros Hok Hall; [reflexivity |].
  apply Forall_cons in Hok as [Hv Hok].
  simpl in Hall. apply andb_true_iff in Hall as [Hnz Hall].
  unfold filledCellCount in *. simpl in *.
  rewrite (cell_ok_truthy v Hv Hnz), count_row_shift.
  unfold filledCellCount. simpl. rewrite (IH Hok Hall). lia.
Qed.

(** Removing the complete rows of a well-formed board removes
    [BOARD_WIDTH] filled cells per row, and no others. *)
Lemma withoutCompleted_count (b : Board) :
  Forall (fun row => length row = Z.to_nat BOARD_WIDTH /\ Forall cell_ok row) b ->
  filledCellCount (withoutCompleted b)
  = filledCellCount b - Z.of_nat (completedCount b) * BOARD_WIDTH.
Proof.
  intros Hrows. unfold withoutCompleted.
  rewrite filledCellCount_app, filledCellCount_empty_rows.
  unfold completedCount.
  induction b as [| row b IH]; [reflexivity |].
  apply Forall_cons in Hrows as [[Hw Hcells] Hrows].
  rewrite !filter_cons, (filledCellCount_cons row b).
  destruct (every_not_zero row) eqn:Hc;
    repeat match goal with |- context [decide ?P] => destruct (decide P) end;
    try congruence.
  - cbn [length]. rewrite (complete_row_count row Hcells Hc), Hw.
    specialize (IH Hrows). unfold BOARD_WIDTH in *. lia.
  - rewrite (filledCellCount_cons row (filter _ b)). specialize (IH Hrows). lia.
Qed.
End FilledCells.

(** The examples variant clears lines as the specification asks: on a
    well-formed board one call removes all [k] complete rows, keeps the
    other rows in their order under [k] new empty rows, and lowers the
    filled-cell count by [k * BOARD_WIDTH]. *)
Lemma examples_clearLines_correct (b : Examples.Board) :
  Examples.board_ok b ->
  exists b', Examples.clearLines_board b
             = Some (b', Z.of_nat (Examples.completedCount b))
    /\ b' = replicate (Examples.completedCount b) Examples.emptyRow
            ++ filter (fun row => Examples.every_not_zero row = false) b
    /\ Examples.board_ok b'
    /\ Forall (fun row => Examples.every_not_zero row = false) b'
    /\ Examples.filledCellCount b'
       = Examples.filledCellCount b
         - Z.of_nat (Examples.completedCount b) * Examples.BOARD_WIDTH.
Proof.
  intros Hok. exists (Examples.withoutCompleted b).
  split; [apply clearLines_board_spec; apply Hok |].
  split; [reflexivity |].
  split; [apply withoutCompleted_ok; exact Hok |].
  split; [apply withoutCompleted_none_complete |].
  apply withoutCompleted_count. apply Hok.
Qed.

(** C1 fails in the my-work variant.  On the 10x20 board whose rows 18 and
    19 are complete and whose row 17 holds one block,
    [GameBoard.clearLines] reports 2 cleared lines, but after the call row
    19 is still complete, the block of row 17 is gone, and the filled-cell
    count has dropped by 11, not by 2 * 10: [removeCompletedLines] removes
    index 19, which moves the second complete row from 18 to 19, and then
    removes index 18, which by then holds the former row 17.  The examples
    variant, on the same board, removes both rows and keeps the block. *)
Theorem C1_clearLines_two_rows :
  MyWork.validateBoard two_full_rows = true
  /\ MyWork.findCompletedLines two_full_rows = [19; 18]
  /\ fst (MyWork.clearLines two_full_rows) = 2
  /\ MyWork.board (snd (MyWork.clearLines two_full_rows))
     = replicate 19 (replicate 10 0) ++ [replicate 10 1]
  /\ MyWork.findCompletedLines (snd (MyWork.clearLines two_full_rows)) = [19]
  /\ MyWork.getFilledCellCount two_full_rows
     - MyWork.getFilledCellCount (snd (MyWork.clearLines two_full_rows)) = 11
  /\ Examples.clearLines_board two_full_rows_examples
     = Some (replicate 19 Examples.emptyRow
               ++ [ <[1%nat := Examples.JStr "#800080"]> Examples.emptyRow ],
             2).
Proof.
  split; [vm_compute; reflexivity |].
  split; [vm_compute; reflexivity |].
  split; [vm_compute; reflexivity |].
  split; [vm_compute; reflexivity |].
  split; [vm_compute; reflexivity |].
  split; [vm_compute; reflexivity |].
  vm_compute; reflexivity.
Qed.

(** * Further properties of the my-work variant *)

(** ** Tetromino *)

(** A clockwise rotation followed by a counter-clockwise one, or the other
    way round, gives the piece back; neither call throws. *)
Theorem rotate_counter_roundtrip (t : MyWork.TetrominoType) (r : Z) :
  0 <= r < 4 ->
  (exists p1 s1 s2,
      MyWork.rotate (MyWork.mkTetromino t r) = (p1, Some s1)
      /\ MyWork.rotateCounterClockwise p1 = (MyWork.mkTetromino t r, Some s2))
  /\ (exists p1 s1 s2,
         MyWork.rotateCounterClockwise (MyWork.mkTetromino t r) = (p1, Some s1)
         /\ MyWork.rotate p1 = (MyWork.mkTetromino t r, Some s2)).
Proof.
  intros Hr.
  assert (r = 0 \/ r = 1 \/ r = 2 \/ r = 3) as Hc by lia.
  destruct Hc as [-> | [-> | [-> | ->]]]; destruct t;
    (split; do 3 eexists; split; reflexivity).
Qed.

Lemma rotate_counter_roundtrip_witness :
  (exists p1 s1 s2,
      MyWork.rotate (MyWork.mkTetromino MyWork.TL 3) = (p1, Some s1)
      /\ MyWork.rotateCounterClockwise p1
         = (MyWork.mkTetromino MyWork.TL 3, Some s2))
  /\ (exists p1 s1 s2,
         MyWork.rotateCounterClockwise (MyWork.mkTetromino MyWork.TL 3)
         = (p1, Some s1)
         /\ MyWork.rotate p1 = (MyWork.mkTetromino MyWork.TL 3, Some s2)).
Proof. apply (rotate_counter_roundtrip MyWork.TL 3). lia. Defined.

(** [getRotatedShape] previews [rotate]: it answers the shape the next
    [rotate] call returns, and that is the current shape of the rotated
    piece. *)
Theorem getRotatedShape_previews_rotate (t : MyWork.TetrominoType) (r : Z) :
  0 <= r < 4 ->
  let p := MyWork.mkTetromino t r in
  MyWork.getRotatedShape p = snd (MyWork.rotate p)
  /\ MyWork.getRotatedShape p = MyWork.getShape (fst (MyWork.rotate p))
  /\ MyWork.getRotatedShape p <> None.
Proof.
  intros Hr.
  assert (r = 0 \/ r = 1 \/ r = 2 \/ r = 3) as Hc by lia.
  destruct Hc as [-> | [-> | [-> | ->]]]; destruct t;
    (split; [reflexivity | split; [reflexivity | discriminate]]).
Qed.

Lemma getRotatedShape_previews_rotate_witness :
  let p := MyWork.mkTetromino MyWork.TS 1 in
  MyWork.getRotatedShape p = snd (MyWork.rotate p)
  /\ MyWork.getRotatedShape p = MyWork.getShape (fst (MyWork.rotate p))
  /\ MyWork.getRotatedShape p <> None.
Proof. apply (getRotatedShape_previews_rotate MyWork.TS 1). lia. Defined.

Section Blocks.
Import MyWork.

Lemma validateCurrentShape_in_range (t : TetrominoType) (r : Z) :
  0 <= r < 4 -> validateCurrentShape (mkTetromino t r) = true.
Proof.
  intros Hr.
  assert (r = 0 \/ r = 1 \/ r = 2 \/ r = 3) as Hc by lia.
  destruct Hc as [-> | [-> | [-> | ->]]]; destruct t; reflexivity.
Qed.

(** What a validated shape is: rows of one positive width. *)
Lemma validateCurrentShape_rect (p : Tetromino) :
  validateCurrentShape p = true ->
  exists row0 rest,
    getShape p = Some (row0 :: rest)
    /\ Forall (fun row => length row = length row0) (row0 :: rest).
Proof.
  unfold validateCurrentShape.
  destruct (getShape p) as [[| row0 rest] |]; try discriminate.
  destruct (length row0 =? 0)%nat; [discriminate |].
  destruct (forallb _ (row0 :: rest)) eqn:Hall; [| discriminate].
  intros _. exists row0, rest. split; [reflexivity |].
  apply Forall_forall. intros row Hin.
  rewrite forallb_forall in Hall.
  specialize (Hall row (proj1 (list_elem_of_In _ _) Hin)).
  apply andb_true_iff in Hall as [Hlen _].
  apply Nat.eqb_eq in Hlen. exact Hlen.
Qed.

Lemma elem_of_getFilledBlocks (p : Tetromino) (shape : Shape) (row col : Z) :
  getShape p = Some shape ->
  (row, col) ∈ getFilledBlocks p <-> at2 shape row col = 1.
Proof.
  intros Hs. unfold getFilledBlocks. rewrite Hs.
  rewrite list_elem_of_bind. split.
  - intros ([[r c] v] & Hin & Hcell). simpl in Hin.
    destruct (Z.eqb_spec v 1) as [Hv1 | Hne].
    + apply list_elem_of_singleton in Hin. inversion Hin; subst.
      apply elem_of_cells in Hcell as (rw & Hrw & Hv).
      apply (at2_Some _ _ _ _ _ Hrw Hv).
    + inversion Hin.
  - intros H1.
    assert (at2 shape row col <> 0) as Hnz by lia.
    destruct (at2_nonzero _ _ _ Hnz) as (rw & Hrw & Hv).
    exists (row, col, at2 shape row col). split.
    + simpl. rewrite H1. simpl. apply list_elem_of_singleton. reflexivity.
    + apply elem_of_cells. eauto.
Qed.
End Blocks.

(** The two views of a piece's blocks agree: [isBlockAt(row, col)] is true
    exactly for the positions [getFilledBlocks()] lists; and every piece,
    in each of its rotation states, has exactly 4 blocks. *)
Theorem filled_blocks_agree (t : MyWork.TetrominoType) (r : Z) (row col : Z) :
  0 <= r < 4 ->
  let p := MyWork.mkTetromino t r in
  (MyWork.isBlockAt p row col = true <-> (row, col) ∈ MyWork.getFilledBlocks p)
  /\ length (MyWork.getFilledBlocks p) = 4%nat.
Proof.
  intros Hr p. split.
  - pose proof (validateCurrentShape_in_range t r Hr) as Hval.
    destruct (validateCurrentShape_rect _ Hval) as (row0 & rest & Hs & Hrect).
    fold p in Hs.
    rewrite (elem_of_getFilledBlocks p _ row col Hs).
    unfold MyWork.isBlockAt. rewrite Hs.
    assert (at2 (row0 :: rest) row col = 1 ->
            (row <? 0) || (row >=? Z.of_nat (length (row0 :: rest)))
            || (col <? 0) || (col >=? Z.of_nat (length row0)) = false) as Hb.
    { intros H1.
      assert (at2 (row0 :: rest) row col <> 0) as Hnz by lia.
      destruct (at2_nonzero _ _ _ Hnz) as (rw & Hrw & Hv).
      apply js_index_Some in Hrw as [Hrow Hrw].
      apply js_index_Some in Hv as [Hcol Hv].
      pose proof (lookup_lt_Some _ _ _ Hrw) as Hlt.
      pose proof (lookup_lt_Some _ _ _ Hv) as Hlt'.
      apply list_elem_of_lookup_2 in Hrw.
      rewrite Forall_forall in Hrect. specialize (Hrect rw Hrw).
      destruct (Z.ltb_spec row 0); [lia |].
      destruct (Z.geb_spec row (Z.of_nat (length (row0 :: rest)))); [lia |].
      destruct (Z.ltb_spec col 0); [lia |].
      destruct (Z.geb_spec col (Z.of_nat (length row0))); [lia |].
      reflexivity. }
    split.
    + destruct ((row <? 0) || (row >=? Z.of_nat (length (row0 :: rest)))
                || (col <? 0) || (col >=? Z.of_nat (length row0)));
        [discriminate | apply Z.eqb_eq].
    + intros H1. rewrite (Hb H1). apply Z.eqb_eq. exact H1.
  - assert (r = 0 \/ r = 1 \/ r = 2 \/ r = 3) as Hc by lia.
    subst p. destruct Hc as [-> | [-> | [-> | ->]]]; destruct t; reflexivity.
Qed.

Lemma filled_blocks_agree_witness :
  let p := MyWork.mkTetromino MyWork.TZ 1 in
  (MyWork.isBlockAt p 2 0 = true <-> (2, 0) ∈ MyWork.getFilledBlocks p)
  /\ length (MyWork.getFilledBlocks p) = 4%nat.
Proof. apply (filled_blocks_agree MyWork.TZ 1 2 0). lia. Defined.

(** ** GameBoard *)

Section BoardQueries.
Import MyWork.

Lemma forallb_andb {A} (f g : A -> bool) (l : list A) :
  forallb (fun a => f a && g a) l = forallb f l && forallb g l.
Proof.
  induction l as [| a l IH]; simpl; [reflexivity |].
  rewrite IH. destruct (f a), (g a), (forallb f l); reflexivity.
Qed.

Lemma forallb_negb_existsb {A} (f : A -> bool) (l : list A) :
  forallb (fun a => negb (f a)) l = negb (existsb f l).
Proof.
  induction l as [| a l IH]; simpl; [reflexivity |].
  rewrite IH. destruct (f a); reflexivity.
Qed.

Lemma forallb_pointwise {A} (f g : A -> bool) (l : list A) :
  (forall a, f a = g a) -> forallb f l = forallb g l.
Proof.
  intros Hfg. induction l as [| a l IH]; simpl; [reflexivity |].
  rewrite Hfg, IH. reflexivity.
Qed.
End BoardQueries.

(** [isValidPosition] is the conjunction of the two partial checks: a
    position is valid exactly when the piece is within the bounds and does
    not collide with a placed block; this holds for every board, piece and
    position, a piece without shape included. *)
Theorem isValidPosition_splits (gb : MyWork.GameBoard) (piece : MyWork.Tetromino)
    (x y : Z) :
  MyWork.isValidPosition gb piece x y
  = MyWork.isWithinBounds gb piece x y && negb (MyWork.hasCollision gb piece x y).
Proof.
  unfold MyWork.isValidPosition, MyWork.isWithinBounds, MyWork.hasCollision.
  destruct (MyWork.getShape piece) as [shape |]; [| reflexivity].
  destruct (length shape =? 0)%nat; [reflexivity |].
  rewrite <- forallb_negb_existsb, <- forallb_andb.
  apply forallb_pointwise. intros [[row col] v].
  destruct (v =? 0); [reflexivity |].
  destruct (MyWork.isInBounds gb (y + row) (x + col)); simpl; [| reflexivity].
  destruct (MyWork.isFilled gb (y + row) (x + col)); reflexivity.
Qed.

(** Writing a cell and reading it back: inside the board and for a value
    that is not negative, [setCellValue] succeeds, [getCellValue] then
    answers the value written, and every other cell reads as before;
    outside the board, or for a negative value, [setCellValue] returns
    false and changes nothing. *)
Theorem setCellValue_getCellValue (gb : MyWork.GameBoard) (row col value : Z) :
  MyWork.validateBoard gb = true ->
  (MyWork.isInBounds gb row col = true -> 0 <= value ->
   fst (MyWork.setCellValue gb row col value) = true
   /\ MyWork.getCellValue (snd (MyWork.setCellValue gb row col value)) row col
      = Some value
   /\ forall row' col', (row', col') <> (row, col) ->
        MyWork.getCellValue (snd (MyWork.setCellValue gb row col value)) row' col'
        = MyWork.getCellValue gb row' col')
  /\ (MyWork.isInBounds gb row col = false \/ value < 0 ->
      MyWork.setCellValue gb row col value = (false, gb)).
Proof.
  intros Hv. split.
  - intros Hin Hval.
    destruct (setCellValue_valid gb row col value Hv) as (_ & Hw & Hh).
    pose proof Hin as Hin'. apply isInBounds_spec in Hin' as [Hr Hc].
    split.
    { unfold MyWork.setCellValue.
      destruct (Z.ltb_spec row 0); [lia |].
      destruct (Z.geb_spec row (MyWork.height gb)); [lia |].
      destruct (Z.ltb_spec col 0); [lia |].
      destruct (Z.geb_spec col (MyWork.width gb)); [lia |].
      destruct (Z.ltb_spec value 0); [lia | reflexivity]. }
    split.
    { rewrite getCellValue_in by lia.
      rewrite setCellValue_at2 by assumption.
      rewrite Hin, !Z.eqb_refl. reflexivity. }
    intros row' col' Hne.
    unfold MyWork.getCellValue. rewrite Hw, Hh.
    destruct ((row' <? 0) || (row' >=? MyWork.height gb) || (col' <? 0)
              || (col' >=? MyWork.width gb)); [reflexivity |].
    rewrite setCellValue_at2 by assumption. rewrite Hin. simpl.
    destruct (Z.eqb_spec row row') as [<- | ?]; [| reflexivity].
    destruct (Z.eqb_spec col col') as [<- | ?]; [congruence | reflexivity].
  - intros [Hout | Hneg]; unfold MyWork.setCellValue.
    + assert ((row <? 0) || (row >=? MyWork.height gb) || (col <? 0)
              || (col >=? MyWork.width gb) = true) as ->; [| reflexivity].
      unfold MyWork.isInBounds in Hout.
      destruct (Z.ltb_spec row 0); [reflexivity |].
      destruct (Z.geb_spec row (MyWork.height gb)); [reflexivity |].
      destruct (Z.ltb_spec col 0); [reflexivity |].
      destruct (Z.geb_spec col (MyWork.width gb)); [reflexivity |].
      destruct (Z.geb_spec row 0); [| lia].
      destruct (Z.ltb_spec row (MyWork.height gb)); [| lia].
      destruct (Z.geb_spec col 0); [| lia].
      destruct (Z.ltb_spec col (MyWork.width gb)); [| lia].
      discriminate Hout.
    + destruct ((row <? 0) || (row >=? MyWork.height gb) || (col <? 0)
                || (col >=? MyWork.width gb)); [reflexivity |].
      destruct (Z.ltb_spec value 0); [reflexivity | lia].
Qed.

Lemma setCellValue_getCellValue_witness :
  (MyWork.isInBounds two_full_rows 17 3 = true -> 0 <= 5 ->
   fst (MyWork.setCellValue two_full_rows 17 3 5) = true
   /\ MyWork.getCellValue (snd (MyWork.setCellValue two_full_rows 17 3 5)) 17 3
      = Some 5
   /\ forall row' col', (row', col') <> (17, 3) ->
        MyWork.getCellValue (snd (MyWork.setCellValue two_full_rows 17 3 5))
                            row' col'
        = MyWork.getCellValue two_full_rows row' col')
  /\ (MyWork.isInBounds two_full_rows 17 3 = false \/ 5 < 0 ->
      MyWork.setCellValue two_full_rows 17 3 5 = (false, two_full_rows)).
Proof.
  apply (setCellValue_getCellValue two_full_rows 17 3 5). reflexivity.
Defined.

(** [setBoard] accepts a new board exactly when it has the board's height,
    every row has the board's width and no cell is negative, that is when
    [validateBoard] holds of the result; an accepted board is stored as
    given, a rejected one leaves the old board in place; and a board's own
    copy is always accepted back. *)
Theorem setBoard_accepts_valid (gb : MyWork.GameBoard) (newBoard : list (list Z)) :
  let candidate := MyWork.mkGameBoard (MyWork.width gb) (MyWork.height gb) newBoard in
  fst (MyWork.setBoard gb newBoard) = MyWork.validateBoard candidate
  /\ (MyWork.validateBoard candidate = true ->
      MyWork.setBoard gb newBoard = (true, candidate))
  /\ (MyWork.validateBoard candidate = false ->
      MyWork.setBoard gb newBoard = (false, gb))
  /\ (MyWork.validateBoard gb = true ->
      snd (MyWork.setBoard gb (MyWork.getBoardCopy gb)) = gb
      /\ fst (MyWork.setBoard gb (MyWork.getBoardCopy gb)) = true).
Proof.
  intros candidate.
  assert (forall nb : list (list Z), map (fun row => row) nb = nb) as Hid
    by (intros nb; apply map_id).
  unfold MyWork.setBoard, MyWork.validateBoard, candidate. simpl.
  rewrite Hid.
  split; [| split; [| split]].
  - destruct (Z.of_nat (length newBoard) =? MyWork.height gb); simpl;
      [| reflexivity].
    destruct (forallb _ newBoard); reflexivity.
  - intros Hval. apply andb_true_iff in Hval as [-> ->]. reflexivity.
  - intros Hval.
    destruct (Z.of_nat (length newBoard) =? MyWork.height gb); simpl in *;
      [| reflexivity].
    rewrite Hval. reflexivity.
  - intros Hval. unfold MyWork.getBoardCopy. rewrite !Hid.
    apply andb_true_iff in Hval as [-> ->]. simpl.
    destruct gb; split; reflexivity.
Qed.

Lemma setBoard_accepts_valid_witness :
  let candidate :=
    MyWork.mkGameBoard (MyWork.width empty_10x20) (MyWork.height empty_10x20)
                       (MyWork.board one_full_row) in
  fst (MyWork.setBoard empty_10x20 (MyWork.board one_full_row))
  = MyWork.validateBoard candidate
  /\ (MyWork.validateBoard candidate = true ->
      MyWork.setBoard empty_10x20 (MyWork.board one_full_row) = (true, candidate))
  /\ (MyWork.validateBoard candidate = false ->
      MyWork.setBoard empty_10x20 (MyWork.board one_full_row)
      = (false, empty_10x20))
  /\ (MyWork.validateBoard empty_10x20 = true ->
      snd (MyWork.setBoard empty_10x20 (MyWork.getBoardCopy empty_10x20))
      = empty_10x20
      /\ fst (MyWork.setBoard empty_10x20 (MyWork.getBoardCopy empty_10x20))
         = true).
Proof.
  apply (setBoard_accepts_valid empty_10x20 (MyWork.board one_full_row)).
Defined.

Section Colours.
Import MyWork.

Lemma getColorFromId_in_range (id : Z) :
  1 <= id <= 7 -> getColorId (getColorFromId id) = id.
Proof.
  intros Hid.
  assert (id = 1 \/ id = 2 \/ id = 3 \/ id = 4 \/ id = 5 \/ id = 6 \/ id = 7)
    as Hc by lia.
  destruct Hc as [-> | [-> | [-> | [-> | [-> | [-> | ->]]]]]]; reflexivity.
Qed.

Lemma getColorFromId_unknown (id : Z) :
  id < 1 \/ 7 < id -> getColorFromId id = "#ffffff".
Proof.
  intros Hid. unfold getColorFromId.
  destruct (list_find _ colorFromIdMap) as [[i [k c]] |] eqn:Hfind;
    [| reflexivity].
  apply list_find_Some in Hfind as (Hlook & Hk & _). simpl in Hk.
  apply Is_true_true, Z.eqb_eq in Hk. subst k.
  do 7 (destruct i as [| i]; [inversion Hlook; lia |]).
  discriminate Hlook.
Qed.
End Colours.

(** Colours and colour ids convert back and forth: the id of a piece's
    colour maps back to that colour, an id in 1..7 maps to a colour with
    that id, and an id outside 1..7 maps to white, whose id is the default
    1. *)
Theorem colour_id_roundtrip (t : MyWork.TetrominoType) (id : Z) :
  MyWork.getColorFromId (MyWork.getColorId (MyWork.color t)) = MyWork.color t
  /\ (1 <= id <= 7 -> MyWork.getColorId (MyWork.getColorFromId id) = id)
  /\ (id < 1 \/ 7 < id ->
      MyWork.getColorFromId id = "#ffffff"
      /\ MyWork.getColorId (MyWork.getColorFromId id) = 1).
Proof.
  split; [destruct t; reflexivity |].
  split; [apply getColorFromId_in_range |].
  intros Hid. rewrite (getColorFromId_unknown id Hid).
  split; reflexivity.
Qed.

Lemma colour_id_roundtrip_witness :
  MyWork.getColorFromId (MyWork.getColorId (MyWork.color MyWork.TS))
  = MyWork.color MyWork.TS
  /\ (1 <= 3 <= 7 -> MyWork.getColorId (MyWork.getColorFromId 3) = 3)
  /\ (3 < 1 \/ 7 < 3 ->
      MyWork.getColorFromId 3 = "#ffffff"
      /\ MyWork.getColorId (MyWork.getColorFromId 3) = 1).
Proof. apply (colour_id_roundtrip MyWork.TS 3). Defined.

Section CompletedLines.
Import MyWork.

Lemma isLineComplete_spec (gb : GameBoard) (row : Z) :
  isLineComplete gb row = true <->
  0 <= row < height gb
  /\ forall col, 0 <= col < width gb -> at2 (board gb) row col <> 0.
Proof.
  unfold isLineComplete.
  destruct (Z.ltb_spec row 0); simpl; [split; [discriminate | lia] |].
  destruct (Z.geb_spec row (height gb)); simpl; [split; [discriminate | lia] |].
  rewrite forallb_forall. split.
  - intros Hall. split; [lia |]. intros col Hcol.
    specialize (Hall col). rewrite negb_true_iff, Z.eqb_neq in Hall.
    apply Hall, list_elem_of_In, elem_of_seqZ. lia.
  - intros [_ Hall] col Hin.
    apply list_elem_of_In, elem_of_seqZ in Hin.
    apply negb_true_iff, Z.eqb_neq, Hall. lia.
Qed.

(** Strictly descending lists, by positions. *)
Lemma descending_tail (a : Z) (l : list Z) :
  (forall i j x y, (a :: l) !! i = Some x -> (a :: l) !! j = Some y ->
                   (i < j)%nat -> y < x) ->
  (forall i j x y, l !! i = Some x -> l !! j = Some y -> (i < j)%nat -> y < x).
Proof.
  intros H i j x y Hi Hj Hij. apply (H (S i) (S j)); [exact Hi | exact Hj | lia].
Qed.

Lemma sort_desc_descending (l : list Z) :
  (forall i j x y, l !! i = Some x -> l !! j = Some y -> (i < j)%nat -> y < x) ->
  sort_desc l = l.
Proof.
  induction l as [| a l IH]; intros Hdesc; [reflexivity |].
  unfold sort_desc in *. simpl. rewrite (IH (descending_tail a l Hdesc)).
  destruct l as [| b l']; [reflexivity |]. simpl.
  assert (b < a) as Hba by (apply (Hdesc 0%nat 1%nat); [reflexivity | reflexivity | lia]).
  destruct (Z.ltb_spec b a); [reflexivity | lia].
Qed.

Lemma reverse_seqZ_descending (n : nat) (i j : nat) (x y : Z) :
  reverse (seqZ 0 (Z.of_nat n)) !! i = Some x ->
  reverse (seqZ 0 (Z.of_nat n)) !! j = Some y ->
  (i < j)%nat -> y < x.
Proof.
  revert i j x y. induction n as [| n IH]; intros i j x y Hi Hj Hij.
  - discriminate Hi.
  - rewrite seqZ_S, reverse_snoc in Hi, Hj.
    destruct j as [| j]; [lia |]. simpl in Hj.
    assert (y < Z.of_nat n) as Hy.
    { apply list_elem_of_lookup_2, elem_of_reverse, elem_of_seqZ in Hj. lia. }
    destruct i as [| i]; simpl in Hi.
    + inversion Hi; subst. lia.
    + apply (IH i j); [exact Hi | exact Hj | lia].
Qed.

Lemma filter_descending (P : Z -> Prop) `{forall z, Decision (P z)} (l : list Z) :
  (forall i j x y, l !! i = Some x -> l !! j = Some y -> (i < j)%nat -> y < x) ->
  (forall i j x y, filter P l !! i = Some x -> filter P l !! j = Some y ->
                   (i < j)%nat -> y < x).
Proof.
  induction l as [| a l IH]; intros Hdesc i j x y Hi Hj Hij.
  - discriminate Hi.
  - pose proof (descending_tail a l Hdesc) as Htail.
    rewrite filter_cons in Hi, Hj.
    destruct (decide (P a)).
    + destruct j as [| j]; [lia |]. simpl in Hj.
      destruct i as [| i]; simpl in Hi.
      * inversion Hi; subst.
        apply list_elem_of_lookup_2, list_elem_of_filter in Hj as [_ Hj].
        apply list_elem_of_lookup_1 in Hj as [k Hk].
        apply (Hdesc 0%nat (S k)); [reflexivity | exact Hk | lia].
      * apply (IH Htail i j); [exact Hi | exact Hj | lia].
    + apply (IH Htail i j); assumption.
Qed.

Lemma findCompletedLines_unsorted (gb : GameBoard) :
  findCompletedLines gb
  = filter (fun row => isLineComplete gb row = true)
           (reverse (seqZ 0 (height gb))).
Proof.
  unfold findCompletedLines. apply sort_desc_descending.
  apply filter_descending.
  destruct (Z.le_gt_cases 0 (height gb)) as [Hh | Hh].
  - rewrite <- (Z2Nat.id (height gb) Hh). apply reverse_seqZ_descending.
  - rewrite seqZ_nil by lia. intros i j x y Hi. discriminate Hi.
Qed.
End CompletedLines.

(** [findCompletedLines] lists exactly the rows of the board all of whose
    cells are filled, from the bottom row upwards and each once; and
    [simulateLineClear] announces the list and the count that [clearLines]
    then returns. *)
Theorem findCompletedLines_spec (gb : MyWork.GameBoard) :
  (forall row,
      row ∈ MyWork.findCompletedLines gb <->
      0 <= row < MyWork.height gb
      /\ forall col, 0 <= col < MyWork.width gb ->
                     at2 (MyWork.board gb) row col <> 0)
  /\ (forall i j x y,
         MyWork.findCompletedLines gb !! i = Some x ->
         MyWork.findCompletedLines gb !! j = Some y ->
         (i < j)%nat -> y < x)
  /\ MyWork.simulateLineClear gb
     = (fst (MyWork.clearLines gb), MyWork.findCompletedLines gb).
Proof.
  split; [| split].
  - intros row. rewrite findCompletedLines_unsorted, list_elem_of_filter.
    rewrite isLineComplete_spec, elem_of_reverse, elem_of_seqZ.
    split; [intros [H _]; exact H | intros H; split; [exact H | lia]].
  - rewrite findCompletedLines_unsorted. apply filter_descending.
    destruct (Z.le_gt_cases 0 (MyWork.height gb)) as [Hh | Hh].
    + rewrite <- (Z2Nat.id (MyWork.height gb) Hh). apply reverse_seqZ_descending.
    + rewrite seqZ_nil by lia. intros i j x y Hi. discriminate Hi.
  - unfold MyWork.simulateLineClear, MyWork.clearLines.
    destruct (MyWork.findCompletedLines gb) as [| a l]; reflexivity.
Qed.

Lemma findCompletedLines_spec_witness :
  (forall row,
      row ∈ MyWork.findCompletedLines one_full_row <->
      0 <= row < MyWork.height one_full_row
      /\ forall col, 0 <= col < MyWork.width one_full_row ->
                     at2 (MyWork.board one_full_row) row col <> 0)
  /\ (forall i j x y,
         MyWork.findCompletedLines one_full_row !! i = Some x ->
         MyWork.findCompletedLines one_full_row !! j = Some y ->
         (i < j)%nat -> y < x)
  /\ MyWork.simulateLineClear one_full_row
     = (fst (MyWork.clearLines one_full_row),
        MyWork.findCompletedLines one_full_row).
Proof. apply (findCompletedLines_spec one_full_row). Defined.

Section RemoveLine.
Import MyWork.

(** A board of [h] rows of [w] cells. *)
Lemma set2_dims (w h : Z) (b : list (list Z)) (r c v : Z) :
  Z.of_nat (length b) = h /\ Forall (fun row => Z.of_nat (length row) = w) b ->
  Z.of_nat (length (set2 b r c v)) = h
  /\ Forall (fun row => Z.of_nat (length row) = w) (set2 b r c v).
Proof.
  intros [Hh Hrows]. split; [rewrite set2_length; exact Hh |].
  apply set2_Forall; [| exact Hrows].
  intros row Hrow. rewrite length_insert. exact Hrow.
Qed.

Lemma dims_row (w h : Z) (b : list (list Z)) (r : Z) :
  Z.of_nat (length b) = h /\ Forall (fun row => Z.of_nat (length row) = w) b ->
  0 <= r < h ->
  exists row, js_index b r = Some row /\ Z.of_nat (length row) = w.
Proof.
  intros [Hh Hrows] Hr.
  destruct (js_index_lt b r) as [row Hrow]; [lia |].
  exists row. split; [exact Hrow |].
  apply js_index_Some in Hrow as [_ Hrow].
  apply list_elem_of_lookup_2 in Hrow.
  rewrite Forall_forall in Hrows. apply (Hrows row Hrow).
Qed.

(** Writing into row [R], column by column, values that do not depend on
    row [R]. *)
Lemma write_row (w h R : Z) (val : list (list Z) -> Z -> Z) (l : list Z)
    (b : list (list Z)) :
  (forall b' c x col, val (set2 b' R c x) col = val b' col) ->
  Z.of_nat (length b) = h /\ Forall (fun row => Z.of_nat (length row) = w) b ->
  0 <= R < h ->
  (forall col, col ∈ l -> 0 <= col < w) ->
  let b' := foldl (fun b col => set2 b R col (val b col)) b l in
  (Z.of_nat (length b') = h
   /\ Forall (fun row => Z.of_nat (length row) = w) b')
  /\ forall r c,
       at2 b' r c
       = if (r =? R) && existsb (fun col => col =? c) l then val b c
         else at2 b r c.
Proof.
  intros Hval. revert b.
  induction l as [| col l IH]; intros b Hdims HR Hl; simpl.
  - split; [exact Hdims |]. intros r c. rewrite andb_false_r. reflexivity.
  - assert (0 <= col < w) as Hcol by (apply Hl; left).
    pose proof (set2_dims w h b R col (val b col) Hdims) as Hdims1.
    destruct (IH (set2 b R col (val b col)) Hdims1 HR) as [Hd Hat].
    { intros c Hc. apply Hl. right. exact Hc. }
    split; [exact Hd |].
    intros r c. rewrite Hat, Hval.
    destruct (Z.eqb_spec r R) as [-> | Hr]; simpl.
    + destruct (existsb (fun col0 => col0 =? c) l);
        [rewrite orb_true_r; reflexivity |].
      rewrite orb_false_r.
      destruct (Z.eqb_spec col c) as [<- | Hc].
      * destruct (dims_row w h b R Hdims HR) as (row & Hrow & Hlen).
        apply (at2_set2_eq _ _ _ _ row); [exact Hrow | lia].
      * apply at2_set2_ne. right. exact Hc.
    + apply at2_set2_ne. left. congruence.
Qed.

Lemma in_seqZ_existsb (w c : Z) :
  existsb (fun col => col =? c) (seqZ 0 w) = (0 <=? c) && (c <? w).
Proof.
  apply eq_true_iff_eq.
  rewrite existsb_exists, andb_true_iff, Z.leb_le, Z.ltb_lt. split.
  - intros (col & Hin & Heq). apply Z.eqb_eq in Heq. subst col.
    apply list_elem_of_In, elem_of_seqZ in Hin. lia.
  - intros Hc. exists c. split; [| apply Z.eqb_refl].
    apply list_elem_of_In, elem_of_seqZ. lia.
Qed.

(** The first loop of [removeLine]: rows [n], ..., 1 each receive the row
    above. *)
Lemma shift_rows (w h : Z) (n : nat) (b : list (list Z)) :
  Z.of_nat (length b) = h /\ Forall (fun row => Z.of_nat (length row) = w) b ->
  Z.of_nat n < h ->
  let b' := foldl (fun b row =>
                     foldl (fun b col => set2 b row col (at2 b (row - 1) col))
                           b (seqZ 0 w))
                  b (reverse (seqZ 1 (Z.of_nat n))) in
  (Z.of_nat (length b') = h
   /\ Forall (fun row => Z.of_nat (length row) = w) b')
  /\ forall r c, 0 <= c < w ->
       at2 b' r c
       = if (1 <=? r) && (r <=? Z.of_nat n) then at2 b (r - 1) c
         else at2 b r c.
Proof.
  revert b. induction n as [| n IH]; intros b Hdims Hn.
  - simpl. split; [exact Hdims |]. intros r c Hc.
    change (Z.of_nat 0) with 0.
    destruct (Z.leb_spec 1 r), (Z.leb_spec r 0); simpl; try reflexivity; lia.
  - rewrite seqZ_S, reverse_snoc. cbn [foldl].
    destruct (write_row w h (1 + Z.of_nat n)
                (fun b col => at2 b (1 + Z.of_nat n - 1) col) (seqZ 0 w) b)
      as [Hd1 Hat1]; try assumption; try lia.
    { intros b' c x col. apply at2_set2_ne. left. lia. }
    { intros col Hin. apply elem_of_seqZ in Hin. lia. }
    destruct (IH _ Hd1 ltac:(lia)) as [Hd Hat].
    split; [exact Hd |].
    intros r c Hc. rewrite (Hat r c Hc), !Hat1, in_seqZ_existsb.
    destruct (Z.leb_spec 0 c); [| lia]. destruct (Z.ltb_spec c w); [| lia].
    cbn [andb]. rewrite !andb_true_r.
    destruct (Z.leb_spec 1 r); simpl.
    + destruct (Z.leb_spec r (Z.of_nat n)); simpl.
      * destruct (Z.eqb_spec (r - 1) (1 + Z.of_nat n)); [lia |].
        destruct (Z.leb_spec r (Z.of_nat (S n))); [reflexivity | lia].
      * destruct (Z.eqb_spec r (1 + Z.of_nat n)) as [-> | Hne].
        -- destruct (Z.leb_spec (1 + Z.of_nat n) (Z.of_nat (S n))); [| lia].
           reflexivity.
        -- destruct (Z.leb_spec r (Z.of_nat (S n))); [lia | reflexivity].
    + destruct (Z.eqb_spec r (1 + Z.of_nat n)); [lia | reflexivity].
Qed.

Lemma removeLine_at2 (gb : GameBoard) (lineIndex : Z) :
  validateBoard gb = true -> 0 <= lineIndex < height gb ->
  let gb' := removeLine gb lineIndex in
  width gb' = width gb /\ height gb' = height gb
  /\ Z.of_nat (length (board gb')) = height gb
  /\ Forall (fun row => Z.of_nat (length row) = width gb) (board gb')
  /\ forall r c, 0 <= c < width gb ->
       at2 (board gb') r c
       = if r =? 0 then 0
         else if (1 <=? r) && (r <=? lineIndex) then at2 (board gb) (r - 1) c
         else at2 (board gb) r c.
Proof.
  intros Hv Hi. apply validateBoard_spec in Hv as [Hh Hrows].
  assert (Z.of_nat (length (board gb)) = height gb
          /\ Forall (fun row => Z.of_nat (length row) = width gb) (board gb))
    as Hdims.
  { split; [exact Hh |]. eapply Forall_impl; [exact Hrows |].
    intros row [Hw _]. exact Hw. }
  unfold removeLine.
  destruct (Z.ltb_spec lineIndex 0); [lia |].
  destruct (Z.geb_spec lineIndex (height gb)); [lia |]. cbn [orb].
  cbv zeta. cbn [width height board].
  assert (exists n : nat, lineIndex = Z.of_nat n) as [n ->]
    by (exists (Z.to_nat lineIndex); lia).
  destruct (shift_rows (width gb) (height gb) n (board gb)
              Hdims ltac:(lia)) as [Hd1 Hat1].
  destruct (write_row (width gb) (height gb) 0 (fun _ _ => 0)
              (seqZ 0 (width gb)) _ ltac:(reflexivity) Hd1 ltac:(lia))
    as [Hd2 Hat2].
  { intros col Hin. apply elem_of_seqZ in Hin. lia. }
  split; [reflexivity |]. split; [reflexivity |].
  destruct Hd2 as [Hl2 Hr2].
  split; [exact Hl2 |]. split; [exact Hr2 |].
  intros r c Hc. rewrite Hat2, in_seqZ_existsb.
  destruct (Z.leb_spec 0 c); [| lia]. destruct (Z.ltb_spec c (width gb)); [| lia].
  cbn [andb]. rewrite andb_true_r.
  destruct (Z.eqb_spec r 0); [reflexivity |].
  rewrite (Hat1 r c Hc). reflexivity.
Qed.
End RemoveLine.

(** [removeLine] removes one row correctly: for a row index on the board,
    the rows above it move down by one, a row of empty cells enters at the
    top (so [isLineEmpty] holds of row 0) and the rows below stay; the size
    of the board is unchanged.  For an
    index off the board nothing changes.  So when exactly one row is
    complete, [clearLines] returns 1 and removes exactly that row. *)
Theorem removeLine_single (gb : MyWork.GameBoard) (lineIndex : Z) :
  MyWork.validateBoard gb = true ->
  (0 <= lineIndex < MyWork.height gb ->
   let gb' := MyWork.removeLine gb lineIndex in
   MyWork.width gb' = MyWork.width gb /\ MyWork.height gb' = MyWork.height gb
   /\ Z.of_nat (length (MyWork.board gb')) = MyWork.height gb
   /\ Forall (fun row => Z.of_nat (length row) = MyWork.width gb)
             (MyWork.board gb')
   /\ forall r c, 0 <= c < MyWork.width gb ->
        at2 (MyWork.board gb') r c
        = if r =? 0 then 0
          else if (1 <=? r) && (r <=? lineIndex)
               then at2 (MyWork.board gb) (r - 1) c
               else at2 (MyWork.board gb) r c)
  /\ (0 <= lineIndex < MyWork.height gb ->
      MyWork.isLineEmpty (MyWork.removeLine gb lineIndex) 0 = true)
  /\ (lineIndex < 0 \/ MyWork.height gb <= lineIndex ->
      MyWork.removeLine gb lineIndex = gb)
  /\ (MyWork.findCompletedLines gb = [lineIndex] ->
      MyWork.clearLines gb = (1, MyWork.removeLine gb lineIndex)).
Proof.
  intros Hv. split; [| split; [| split]].
  - intros Hi. apply removeLine_at2; assumption.
  - intros Hi.
    destruct (removeLine_at2 gb lineIndex Hv Hi) as (Hw & Hh & _ & _ & Hat).
    unfold MyWork.isLineEmpty. rewrite Hh, Hw.
    destruct (Z.ltb_spec 0 0); [lia |].
    destruct (Z.geb_spec 0 (MyWork.height gb)); [lia |]. simpl.
    apply forallb_forall. intros c Hc.
    apply list_elem_of_In, elem_of_seqZ in Hc.
    rewrite Hat by lia. reflexivity.
  - intros Hout. unfold MyWork.removeLine.
    destruct (Z.ltb_spec lineIndex 0); [reflexivity |].
    destruct (Z.geb_spec lineIndex (MyWork.height gb)); [reflexivity | lia].
  - intros Hone. unfold MyWork.clearLines. rewrite Hone. reflexivity.
Qed.

Lemma removeLine_single_witness :
  (0 <= 19 < MyWork.height one_full_row ->
   let gb' := MyWork.removeLine one_full_row 19 in
   MyWork.width gb' = MyWork.width one_full_row
   /\ MyWork.height gb' = MyWork.height one_full_row
   /\ Z.of_nat (length (MyWork.board gb')) = MyWork.height one_full_row
   /\ Forall (fun row => Z.of_nat (length row) = MyWork.width one_full_row)
             (MyWork.board gb')
   /\ forall r c, 0 <= c < MyWork.width one_full_row ->
        at2 (MyWork.board gb') r c
        = if r =? 0 then 0
          else if (1 <=? r) && (r <=? 19)
               then at2 (MyWork.board one_full_row) (r - 1) c
               else at2 (MyWork.board one_full_row) r c)
  /\ (0 <= 19 < MyWork.height one_full_row ->
      MyWork.isLineEmpty (MyWork.removeLine one_full_row 19) 0 = true)
  /\ (19 < 0 \/ MyWork.height one_full_row <= 19 ->
      MyWork.removeLine one_full_row 19 = one_full_row)
  /\ (MyWork.findCompletedLines one_full_row = [19] ->
      MyWork.clearLines one_full_row = (1, MyWork.removeLine one_full_row 19)).
Proof. apply (removeLine_single one_full_row 19). reflexivity. Defined.

(** ** GameState *)

Section StateNumbers.
Import MyWork.State.

Lemma numbers_ok_call (s : GameState) (c : Call) :
  0 <= score s /\ 1 <= level s /\ 0 <= lines s ->
  0 <= score (call s c) /\ 1 <= level (call s c) /\ 0 <= lines (call s c).
Proof.
  intros (Hs & Hl & Hn).
  destruct c; simpl.
  - lia.
  - unfold setPaused. destruct (isGameOver s); simpl; lia.
  - unfold setGameOver. destruct gameOver; simpl; lia.
  - unfold setRunning. destruct running; simpl; lia.
  - unfold updateScore.
    destruct ((linesCleared <? 0) || (linesCleared >? 4)); simpl; [lia |].
    destruct (linesCleared =? 0); simpl; [lia |].
    split; [| lia].
    destruct (lookupZ scoreMultipliers linesCleared) as [m |] eqn:Hm; [| lia].
    assert (1 <= m) as Hm1.
    { unfold lookupZ in Hm.
      destruct (list_find _ scoreMultipliers) as [[i [k m']] |] eqn:Hfind;
        [| discriminate].
      simpl in Hm. inversion Hm; subst.
      apply list_find_Some in Hfind as (Hlook & _ & _).
      do 4 (destruct i as [| i]; [inversion Hlook; lia |]).
      discriminate Hlook. }
    destruct (Z.eqb_spec m 0); nia.
  - unfold addLines. destruct (Z.ltb_spec linesCleared 0); simpl; [lia |].
    destruct (Z.gtb_spec ((lines s + linesCleared) / 10 + 1) (level s)); lia.
  - unfold awardSoftDropPoints.
    destruct (Z.leb_spec cellsDropped 0); simpl; lia.
  - unfold awardHardDropPoints.
    destruct (Z.leb_spec cellsDropped 0); simpl; lia.
  - unfold processLineClear.
    destruct (updateScore s linesCleared) as [pts s1] eqn:Hup.
    destruct (addLines s1 linesCleared) as [inc s2] eqn:Hadd.
    assert (0 <= score s1 /\ 1 <= level s1 /\ 0 <= lines s1) as (Hs1 & Hl1 & Hn1).
    { change s1 with (snd (pts, s1)). rewrite <- Hup.
      unfold updateScore.
      destruct ((linesCleared <? 0) || (linesCleared >? 4)); simpl; [lia |].
      destruct (linesCleared =? 0); simpl; [lia |].
      split; [| lia].
      destruct (lookupZ scoreMultipliers linesCleared) as [m |] eqn:Hm; [| lia].
      assert (1 <= m) as Hm1.
      { unfold lookupZ in Hm.
        destruct (list_find _ scoreMultipliers) as [[i [k m']] |] eqn:Hfind;
          [| discriminate].
        simpl in Hm. inversion Hm; subst.
        apply list_find_Some in Hfind as (Hlook & _ & _).
        do 4 (destruct i as [| i]; [inversion Hlook; lia |]).
        discriminate Hlook. }
      destruct (Z.eqb_spec m 0); nia. }
    change s2 with (snd (inc, s2)). rewrite <- Hadd.
    unfold addLines. destruct (Z.ltb_spec linesCleared 0); simpl; [lia |].
    destruct (Z.gtb_spec ((lines s1 + linesCleared) / 10 + 1) (level s1)); lia.
  - destruct s as [sc lv ln pa go ru]. unfold fixInvalidState. simpl in *.
    repeat (match goal with
            | |- context [Z.ltb ?a ?b] => is_var a; destruct (Z.ltb_spec a b)
            | |- context [Z.gtb ?a ?b] => is_var a; destruct (Z.gtb_spec a b)
            end; simpl);
      lia.
Qed.
End StateNumbers.

(** Whatever is called on a [GameState], in whatever order, the score never
    goes negative, the level never goes below 1 and the line count never
    goes negative. *)
Theorem state_numbers_in_range (s : MyWork.State.GameState) :
  MyWork.State.reachable s ->
  0 <= MyWork.State.score s /\ 1 <= MyWork.State.level s
  /\ 0 <= MyWork.State.lines s.
Proof.
  induction 1 as [| s c Hs IH].
  - simpl. lia.
  - apply numbers_ok_call. exact IH.
Qed.

Lemma state_numbers_in_range_witness :
  0 <= MyWork.State.score
         (MyWork.State.call MyWork.State.initial (MyWork.State.CAddLines 25))
  /\ 1 <= MyWork.State.level
            (MyWork.State.call MyWork.State.initial (MyWork.State.CAddLines 25))
  /\ 0 <= MyWork.State.lines
            (MyWork.State.call MyWork.State.initial (MyWork.State.CAddLines 25)).
Proof.
  apply (state_numbers_in_range
           (MyWork.State.call MyWork.State.initial (MyWork.State.CAddLines 25))).
  apply MyWork.State.reach_call. apply MyWork.State.reach_initial.
Defined.

(** [fixInvalidState] repairs every state: what it returns passes
    [validateState], so [validateAndFix] always answers true; and a state
    that already passes is returned unchanged. *)
Theorem fixInvalidState_repairs (s : MyWork.State.GameState) :
  MyWork.State.validateState (MyWork.State.fixInvalidState s) = true
  /\ fst (MyWork.State.validateAndFix s) = true
  /\ MyWork.State.validateState (snd (MyWork.State.validateAndFix s)) = true
  /\ (MyWork.State.validateState s = true ->
      MyWork.State.fixInvalidState s = s
      /\ MyWork.State.validateAndFix s = (true, s)).
Proof.
  assert (MyWork.State.validateState (MyWork.State.fixInvalidState s) = true)
    as Hfix.
  { destruct s as [sc lv ln pa go ru].
    unfold MyWork.State.validateState, MyWork.State.fixInvalidState. simpl.
    destruct go, ru, pa; simpl;
      repeat (match goal with
              | |- context [Z.ltb ?a ?b] => is_var a; destruct (Z.ltb_spec a b)
              | |- context [Z.gtb ?a ?b] => is_var a; destruct (Z.gtb_spec a b)
              end; simpl);
      try reflexivity; lia. }
  split; [exact Hfix |].
  unfold MyWork.State.validateAndFix.
  destruct (MyWork.State.validateState s) eqn:Hval; simpl.
  - split; [reflexivity |]. split; [exact Hval |].
    intros _. split; [| reflexivity].
    unfold MyWork.State.validateState in Hval.
    repeat (apply andb_true_iff in Hval as [Hval ?]).
    repeat match goal with
           | H : negb _ = true |- _ => apply negb_true_iff in H
           end.
    destruct s as [sc lv ln pa go ru]; simpl in *.
    unfold MyWork.State.fixInvalidState; simpl.
    repeat match goal with
           | H : Z.ltb _ _ = false |- _ => rewrite H
           | H : Z.gtb _ _ = false |- _ => rewrite H
           end.
    destruct go, ru, pa; simpl in *; try discriminate; reflexivity.
  - split; [exact Hfix |]. split; [exact Hfix |]. discriminate.
Qed.

Lemma fixInvalidState_repairs_witness :
  MyWork.State.validateState (MyWork.State.fixInvalidState sample_state) = true
  /\ fst (MyWork.State.validateAndFix sample_state) = true
  /\ MyWork.State.validateState (snd (MyWork.State.validateAndFix sample_state))
     = true
  /\ (MyWork.State.validateState sample_state = true ->
      MyWork.State.fixInvalidState sample_state = sample_state
      /\ MyWork.State.validateAndFix sample_state = (true, sample_state)).
Proof. apply (fixInvalidState_repairs sample_state). Defined.

(** [calculateScorePreview] announces what [updateScore] then awards, for
    every argument: the points returned and the growth of the score are the
    previewed amount; a count outside 1..4 previews and awards nothing. *)
Theorem calculateScorePreview_matches (s : MyWork.State.GameState) (n : Z) :
  MyWork.State.calculateScorePreview s n = fst (MyWork.State.updateScore s n)
  /\ MyWork.State.score (snd (MyWork.State.updateScore s n))
     = MyWork.State.score s + MyWork.State.calculateScorePreview s n
  /\ (n < 1 \/ 4 < n ->
      MyWork.State.calculateScorePreview s n = 0
      /\ MyWork.State.updateScore s n = (0, s)).
Proof.
  unfold MyWork.State.calculateScorePreview, MyWork.State.updateScore.
  destruct (Z.ltb_spec n 0); simpl.
  { split; [reflexivity |]. split; [lia |]. auto. }
  destruct (Z.gtb_spec n 4); simpl.
  { split; [reflexivity |]. split; [lia |]. auto. }
  destruct (Z.eqb_spec n 0); simpl.
  { split; [reflexivity |]. split; [lia |]. auto. }
  split; [reflexivity |]. split; [reflexivity |]. lia.
Qed.

Lemma calculateScorePreview_matches_witness :
  MyWork.State.calculateScorePreview sample_state 5
  = fst (MyWork.State.updateScore sample_state 5)
  /\ MyWork.State.score (snd (MyWork.State.updateScore sample_state 5))
     = MyWork.State.score sample_state
       + MyWork.State.calculateScorePreview sample_state 5
  /\ (5 < 1 \/ 4 < 5 ->
      MyWork.State.calculateScorePreview sample_state 5 = 0
      /\ MyWork.State.updateScore sample_state 5 = (0, sample_state)).
Proof. apply (calculateScorePreview_matches sample_state 5). Defined.

(** While the level is in step with the line count,
    [getLinesUntilNextLevel] is between 1 and 10 and is exactly the number
    of further lines that raises the level, by one: fewer lines leave the
    level where it is. *)
Theorem getLinesUntilNextLevel_exact (s : MyWork.State.GameState) (n : Z) :
  MyWork.State.counts_ok s ->
  let k := MyWork.State.getLinesUntilNextLevel s in
  1 <= k <= 10
  /\ k = 10 - MyWork.State.lines s mod 10
  /\ MyWork.State.level (snd (MyWork.State.addLines s k))
     = MyWork.State.level s + 1
  /\ fst (MyWork.State.addLines s k) = true
  /\ (0 <= n < k ->
      MyWork.State.level (snd (MyWork.State.addLines s n)) = MyWork.State.level s
      /\ fst (MyWork.State.addLines s n) = false).
Proof.
  intros [Hl Hlev] k.
  pose proof (Z.div_mod (MyWork.State.lines s) 10 ltac:(lia)) as Hdm.
  pose proof (Z.mod_pos_bound (MyWork.State.lines s) 10 ltac:(lia)) as Hmod.
  assert (k = 10 - MyWork.State.lines s mod 10) as Hk.
  { unfold k, MyWork.State.getLinesUntilNextLevel. rewrite Hlev. lia. }
  split; [lia |]. split; [exact Hk |].
  assert ((MyWork.State.lines s + k) / 10 = MyWork.State.lines s / 10 + 1) as Hdiv.
  { replace (MyWork.State.lines s + k)
      with ((MyWork.State.lines s / 10 + 1) * 10) by lia.
    apply Z.div_mul. lia. }
  assert (MyWork.State.level (snd (MyWork.State.addLines s k))
          = MyWork.State.level s + 1) as Hup.
  { rewrite addLines_level by lia. lia. }
  split; [exact Hup |].
  split; [rewrite addLines_flag by lia; rewrite Hup; apply Z.gtb_lt; lia |].
  intros Hn.
  assert ((MyWork.State.lines s + n) / 10 = MyWork.State.lines s / 10) as Hsame.
  { symmetry. apply (Z.div_unique _ 10 _ (MyWork.State.lines s mod 10 + n)); lia. }
  assert (MyWork.State.level (snd (MyWork.State.addLines s n))
          = MyWork.State.level s) as Hstay.
  { rewrite addLines_level by lia. lia. }
  split; [exact Hstay |].
  rewrite addLines_flag by lia. rewrite Hstay, Z.gtb_ltb. apply Z.ltb_irrefl.
Qed.

Lemma getLinesUntilNextLevel_exact_witness :
  let k := MyWork.State.getLinesUntilNextLevel state_8_lines in
  1 <= k <= 10
  /\ k = 10 - MyWork.State.lines state_8_lines mod 10
  /\ MyWork.State.level (snd (MyWork.State.addLines state_8_lines k))
     = MyWork.State.level state_8_lines + 1
  /\ fst (MyWork.State.addLines state_8_lines k) = true
  /\ (0 <= 1 < k ->
      MyWork.State.level (snd (MyWork.State.addLines state_8_lines 1))
      = MyWork.State.level state_8_lines
      /\ fst (MyWork.State.addLines state_8_lines 1) = false).
Proof.
  apply (getLinesUntilNextLevel_exact state_8_lines 1).
  split; [simpl; lia | reflexivity].
Defined.

(** While the level is in step with the line count, [getLevelProgress] is
    ten times the number of lines cleared in the current level: a
    percentage from 0 to 90, never 100. *)
Theorem getLevelProgress_value (s : MyWork.State.GameState) :
  MyWork.State.counts_ok s ->
  (MyWork.State.getLevelProgress s
   == inject_Z (MyWork.State.lines s mod 10 * 10))%Q
  /\ (0 <= MyWork.State.getLevelProgress s)%Q
  /\ (MyWork.State.getLevelProgress s <= 90)%Q.
Proof.
  intros [Hl Hlev].
  pose proof (Z.div_mod (MyWork.State.lines s) 10 ltac:(lia)) as Hdm.
  pose proof (Z.mod_pos_bound (MyWork.State.lines s) 10 ltac:(lia)) as Hmod.
  assert (MyWork.State.getLevelProgress s
          == inject_Z (MyWork.State.lines s mod 10 * 10))%Q as Heq.
  { unfold MyWork.State.getLevelProgress. cbv zeta.
    replace (MyWork.State.level s * 10 - (MyWork.State.level s - 1) * 10)
      with 10 by lia.
    replace (MyWork.State.lines s - (MyWork.State.level s - 1) * 10)
      with (MyWork.State.lines s mod 10) by lia.
    assert (inject_Z (MyWork.State.lines s mod 10) / inject_Z 10 * 100
            == inject_Z (MyWork.State.lines s mod 10 * 10))%Q as Hval.
    { unfold Qeq, Qdiv, inject_Z. simpl. lia. }
    rewrite Hval. apply Q.min_r.
    change 100%Q with (inject_Z 100). rewrite <- Zle_Qle. lia. }
  split; [exact Heq |].
  rewrite Heq. split.
  - change 0%Q with (inject_Z 0). rewrite <- Zle_Qle. lia.
  - change 90%Q with (inject_Z 90). rewrite <- Zle_Qle. lia.
Qed.

Lemma getLevelProgress_value_witness :
  (MyWork.State.getLevelProgress state_8_lines
   == inject_Z (MyWork.State.lines state_8_lines mod 10 * 10))%Q
  /\ (0 <= MyWork.State.getLevelProgress state_8_lines)%Q
  /\ (MyWork.State.getLevelProgress state_8_lines <= 90)%Q.
Proof.
  apply (getLevelProgress_value state_8_lines).
  split; [simpl; lia | reflexivity].
Defined.

(** [processLineClear] scores a clear at the level held before it: for 1
    to 4 lines the score grows by the table points times the old level,
    and the lines and the level move as with [addLines].  A count above 4
    scores nothing, yet its lines are still counted. *)
Theorem processLineClear_composes (s : MyWork.State.GameState) (n : Z) :
  MyWork.State.counts_ok s ->
  let s' := MyWork.State.processLineClear s n in
  (1 <= n <= 4 ->
   MyWork.State.score s'
   = MyWork.State.score s + scoreForClear n (MyWork.State.level s))
  /\ (4 < n -> MyWork.State.score s' = MyWork.State.score s)
  /\ (0 <= n ->
      MyWork.State.lines s' = MyWork.State.lines s + n
      /\ MyWork.State.level s' = MyWork.State.lines s' / 10 + 1)
  /\ MyWork.State.isPaused s' = MyWork.State.isPaused s
  /\ MyWork.State.isGameOver s' = MyWork.State.isGameOver s
  /\ MyWork.State.isRunning s' = MyWork.State.isRunning s.
Proof.
  intros [Hl Hlev] s'. subst s'. unfold MyWork.State.processLineClear.
  destruct (MyWork.State.updateScore s n) as [pts s1] eqn:Hup.
  destruct (MyWork.State.addLines s1 n) as [inc s2] eqn:Hadd.
  assert (MyWork.State.lines s1 = MyWork.State.lines s
          /\ MyWork.State.level s1 = MyWork.State.level s
          /\ MyWork.State.isPaused s1 = MyWork.State.isPaused s
          /\ MyWork.State.isGameOver s1 = MyWork.State.isGameOver s
          /\ MyWork.State.isRunning s1 = MyWork.State.isRunning s)
    as (Hl1 & Hlev1 & Hp1 & Hg1 & Hr1).
  { unfold MyWork.State.updateScore in Hup.
    destruct ((n <? 0) || (n >? 4)); [inversion Hup; subst; auto 6 |].
    destruct (n =? 0); inversion Hup; subst; auto 6. }
  assert (MyWork.State.score s2 = MyWork.State.score s1
          /\ MyWork.State.isPaused s2 = MyWork.State.isPaused s1
          /\ MyWork.State.isGameOver s2 = MyWork.State.isGameOver s1
          /\ MyWork.State.isRunning s2 = MyWork.State.isRunning s1)
    as (Hs2 & Hp2 & Hg2 & Hr2).
  { unfold MyWork.State.addLines in Hadd.
    destruct (n <? 0); inversion Hadd; subst; auto. }
  split; [| split; [| split; [| repeat split; congruence]]].
  - intros Hn. rewrite Hs2.
    change s1 with (snd (pts, s1)). rewrite <- Hup.
    rewrite (updateScore_points s n Hn). reflexivity.
  - intros Hn. rewrite Hs2.
    unfold MyWork.State.updateScore in Hup.
    destruct (Z.ltb_spec n 0); [lia |]. destruct (Z.gtb_spec n 4); [| lia].
    simpl in Hup. inversion Hup; subst. reflexivity.
  - intros Hn.
    change s2 with (snd (inc, s2)). rewrite <- Hadd.
    rewrite addLines_lines by lia.
    rewrite addLines_level; [rewrite Hl1; split; reflexivity | lia |].
    rewrite Hl1, Hlev1, Hlev.
    assert (MyWork.State.lines s / 10 <= (MyWork.State.lines s + n) / 10)
      by (apply Z.div_le_mono; lia).
    lia.
Qed.

Lemma processLineClear_composes_witness :
  let s' := MyWork.State.processLineClear state_8_lines 4 in
  (1 <= 4 <= 4 ->
   MyWork.State.score s'
   = MyWork.State.score state_8_lines
     + scoreForClear 4 (MyWork.State.level state_8_lines))
  /\ (4 < 4 -> MyWork.State.score s' = MyWork.State.score state_8_lines)
  /\ (0 <= 4 ->
      MyWork.State.lines s' = MyWork.State.lines state_8_lines + 4
      /\ MyWork.State.level s' = MyWork.State.lines s' / 10 + 1)
  /\ MyWork.State.isPaused s' = MyWork.State.isPaused state_8_lines
  /\ MyWork.State.isGameOver s' = MyWork.State.isGameOver state_8_lines
  /\ MyWork.State.isRunning s' = MyWork.State.isRunning state_8_lines.
Proof.
  apply (processLineClear_composes state_8_lines 4).
  split; [simpl; lia | reflexivity].
Defined.

(** The drop speed falls as the level rises, from 1000 ms at level 1 to the
    floor of 50 ms, which it reaches at level 30 and keeps from there on.
    This is of the doubles the code returns, for a [Math.pow] that returns
    1 at exponent 0 and is accurate to one percent at the two levels
    compared: the value at the higher level is not above the value at the
    lower one; a value lies between 50 and 1000, is the double 1000 at level
    1, is above 50 up to level 29 and is the double 50 from level 30 on. *)
Theorem getDropSpeed_curve (Math_pow : float -> Z -> float) (delta : Q)
    (s s' : MyWork.State.GameState) :
  (0 <= delta)%Q -> (delta <= 1 # 100)%Q ->
  Math_pow MyWork.SPEED_INCREASE_RATE 0 = 1%float ->
  1 <= MyWork.State.level s <= MyWork.State.level s' ->
  MyWork.State.pow_accurate Math_pow delta (MyWork.State.level s - 1) ->
  MyWork.State.pow_accurate Math_pow delta (MyWork.State.level s' - 1) ->
  exists v v' : Q,
    F2Q (MyWork.State.getDropSpeed Math_pow s) = Some v
    /\ F2Q (MyWork.State.getDropSpeed Math_pow s') = Some v'
    /\ (v' <= v)%Q
    /\ (50 <= v)%Q
    /\ (v <= 1000)%Q
    /\ (MyWork.State.level s = 1 ->
        MyWork.State.getDropSpeed Math_pow s = 1000%float)
    /\ (MyWork.State.level s <= 29 -> (50 < v)%Q)
    /\ (30 <= MyWork.State.level s ->
        MyWork.State.getDropSpeed Math_pow s = 50%float).
Proof.
  intros Hd0 Hd1 Hp0 HL Ha Ha'.
  destruct (getDropSpeed_levels Math_pow delta s Hd0 Hd1 Hp0 ltac:(lia) Ha)
    as (v & Hv & H1 & H29 & H30).
  destruct (getDropSpeed_levels Math_pow delta s' Hd0 Hd1 Hp0 ltac:(lia) Ha')
    as (v' & Hv' & H1' & H29' & H30').
  exists v, v'. split; [exact Hv |]. split; [exact Hv' |].
  assert (50 <= v)%Q as Hv50.
  { destruct (Z_le_gt_dec (MyWork.State.level s) 29) as [Hle | Hgt].
    - destruct (H29 Hle) as (_ & _ & Hlt). lra.
    - destruct (H30 ltac:(lia)) as [_ ->]. lra. }
  split.
  { (* non-increasing *)
    destruct (Z_le_gt_dec (MyWork.State.level s') 29) as [Hle' | Hgt'].
    - destruct (Z.eq_dec (MyWork.State.level s) (MyWork.State.level s'))
        as [Heq | Hne].
      + assert (MyWork.State.getDropSpeed Math_pow s
                = MyWork.State.getDropSpeed Math_pow s') as Hsame
          by (unfold MyWork.State.getDropSpeed; rewrite Heq; reflexivity).
        rewrite Hsame, Hv' in Hv. injection Hv as ->. apply Qle_refl.
      + destruct (H29 ltac:(lia)) as (Hlow & _ & _).
        destruct (H29' Hle') as (_ & Hhigh' & _).
        pose proof (rate_power_antitone (MyWork.State.level s - 1 + 1)
                      (MyWork.State.level s' - 1) ltac:(lia)) as Hstep.
        rewrite Qpower_plus in Hstep by discriminate.
        change ((9 # 10) ^ 1)%Q with (9 # 10)%Q in Hstep.
        destruct (rate_power_bounds (MyWork.State.level s - 1) ltac:(lia))
          as [Hr0 _].
        generalize dependent ((9 # 10) ^ (MyWork.State.level s - 1))%Q.
        generalize dependent ((9 # 10) ^ (MyWork.State.level s' - 1))%Q.
        intros. lra.
    - destruct (H30' ltac:(lia)) as [_ ->]. exact Hv50. }
  split; [exact Hv50 |].
  split.
  { destruct (Z.eq_dec (MyWork.State.level s) 1) as [Heq | Hne];
      [destruct (H1 Heq) as [_ ->]; lra |].
    destruct (Z_le_gt_dec (MyWork.State.level s) 29) as [Hle | Hgt].
    - destruct (H29 Hle) as (_ & Hhigh & _).
      pose proof (rate_power_antitone 1 (MyWork.State.level s - 1)
                    ltac:(lia)) as Hstep.
      change ((9 # 10) ^ 1)%Q with (9 # 10)%Q in Hstep.
      generalize dependent ((9 # 10) ^ (MyWork.State.level s - 1))%Q.
      intros. lra.
    - destruct (H30 ltac:(lia)) as [_ ->]. lra. }
  split; [intros Heq; apply (H1 Heq) |].
  split; [intros Hle; apply (H29 Hle) |].
  intros Hge. apply (H30 Hge).
Qed.

Lemma getDropSpeed_curve_witness :
  exists v v' : Q,
    F2Q (MyWork.State.getDropSpeed sample_pow state_8_lines) = Some v
    /\ F2Q (MyWork.State.getDropSpeed sample_pow sample_state) = Some v'
    /\ (v' <= v)%Q
    /\ (50 <= v)%Q
    /\ (v <= 1000)%Q
    /\ (MyWork.State.level state_8_lines = 1 ->
        MyWork.State.getDropSpeed sample_pow state_8_lines = 1000%float)
    /\ (MyWork.State.level state_8_lines <= 29 -> (50 < v)%Q)
    /\ (30 <= MyWork.State.level state_8_lines ->
        MyWork.State.getDropSpeed sample_pow state_8_lines = 50%float).
Proof.
  apply (getDropSpeed_curve sample_pow (1 # 1000000000000000)
           state_8_lines sample_state);
    [vm_compute; discriminate | vm_compute; discriminate | reflexivity
    | simpl; lia | exact sample_pow_accurate_0 | exact sample_pow_accurate_2].
Defined.


(** * The game engine of my-work *)

Section EngineFacts.
Import MyWork.

Lemma shape_has_block (piece : Tetromino) :
  0 <= rotation piece < 4 ->
  exists shape r c,
    getShape piece = Some shape /\ shape <> []
    /\ 0 <= r /\ 0 <= c /\ at2 shape r c = 1.
Proof.
  destruct piece as [t r]. simpl. intros Hr.
  assert (r = 0 \/ r = 1 \/ r = 2 \/ r = 3) as Hc by lia.
  assert (forall sh r0 c0, js_index (shapes t) r = Some sh -> sh <> [] ->
            0 <= r0 -> 0 <= c0 -> at2 sh r0 c0 = 1 ->
            exists shape r' c',
              js_index (shapes t) r = Some shape /\ shape <> []
              /\ 0 <= r' /\ 0 <= c' /\ at2 shape r' c' = 1) as Hex.
  { intros sh r0 c0 H1 H2 H3 H4 H5. exists sh, r0, c0. auto 10. }
  unfold getShape. simpl.
  destruct Hc as [-> | [-> | [-> | ->]]]; destruct t;
    first [ eapply (Hex _ 0 0); [reflexivity | discriminate | lia | lia | reflexivity]
          | eapply (Hex _ 0 1); [reflexivity | discriminate | lia | lia | reflexivity]
          | eapply (Hex _ 0 2); [reflexivity | discriminate | lia | lia | reflexivity] ].
Qed.

Lemma valid_below_height (gb : GameBoard) (piece : Tetromino) (x y : Z) :
  validateBoard gb = true -> 0 <= rotation piece < 4 ->
  isValidPosition gb piece x y = true -> y < height gb.
Proof.
  intros Hv Hr Hval.
  destruct (shape_has_block piece Hr) as (shape & r & c & Hs & Hne & H0r & H0c & Hat).
  pose proof (proj1 (isValidPosition_fits gb piece shape x y Hv Hs Hne) Hval)
    as Hfits.
  destruct (Hfits r c ltac:(lia)) as (Hrow & _). lia.
Qed.

Lemma fall_spec (gb : GameBoard) (piece : Tetromino) (x : Z) (fuel : nat) (y : Z) :
  validateBoard gb = true -> 0 <= rotation piece < 4 ->
  (Z.to_nat (height gb - 1 - y) < fuel)%nat ->
  exists y', Engine.fall fuel gb piece x y = Some y'
    /\ y <= y'
    /\ isValidPosition gb piece x (y' + 1) = false
    /\ forall k, y < k <= y' -> isValidPosition gb piece x k = true.
Proof.
  intros Hv Hr. revert y.
  induction fuel as [| fuel IH]; intros y Hfuel; [lia |].
  simpl.
  destruct (isValidPosition gb piece x (y + 1)) eqn:Hval.
  - pose proof (valid_below_height gb piece x (y + 1) Hv Hr Hval) as Hlt.
    destruct (IH (y + 1) ltac:(lia)) as (y' & Hfall & Hle & Hstop & Hall).
    exists y'. split; [exact Hfall |]. split; [lia |]. split; [exact Hstop |].
    intros k Hk. destruct (Z.eq_dec k (y + 1)) as [-> | Hne]; [exact Hval |].
    apply Hall. lia.
  - exists y. split; [reflexivity |]. split; [lia |]. split; [exact Hval |].
    intros k Hk. lia.
Qed.

Lemma canMove_piece (e : Engine.GameEngine) :
  Engine.canMove e = true ->
  exists piece, Engine.currentPiece e = Some piece
    /\ State.isRunning (Engine.gameState e) = true
    /\ State.isPaused (Engine.gameState e) = false
    /\ State.isGameOver (Engine.gameState e) = false.
Proof.
  unfold Engine.canMove. intros H.
  destruct (Engine.currentPiece e) as [piece |];
    [| rewrite andb_false_r in H; discriminate].
  exists piece.
  destruct (State.isRunning _), (State.isPaused _), (State.isGameOver _);
    try discriminate; auto.
Qed.

Lemma flags_ok_setGameOver (s : State.GameState) :
  Engine.flags_ok (State.setGameOver s true).
Proof. split; simpl; [auto | discriminate]. Qed.

Lemma flags_ok_same (s s' : State.GameState) :
  State.isPaused s' = State.isPaused s ->
  State.isGameOver s' = State.isGameOver s ->
  State.isRunning s' = State.isRunning s ->
  Engine.flags_ok s -> Engine.flags_ok s'.
Proof.
  unfold Engine.flags_ok. intros -> -> ->. auto.
Qed.

Lemma processLineClear_flags (s : State.GameState) (n : Z) :
  State.isPaused (State.processLineClear s n) = State.isPaused s
  /\ State.isGameOver (State.processLineClear s n) = State.isGameOver s
  /\ State.isRunning (State.processLineClear s n) = State.isRunning s.
Proof.
  unfold State.processLineClear, State.updateScore, State.addLines.
  destruct ((n <? 0) || (n >? 4)); [destruct (n <? 0); auto |].
  destruct (n =? 0); destruct (n <? 0); auto.
Qed.

Lemma processLineClear_totals (s : State.GameState) (n : Z) :
  0 <= n ->
  State.score (State.processLineClear s n)
  = State.score s + fst (State.updateScore s n)
  /\ State.lines (State.processLineClear s n) = State.lines s + n.
Proof.
  intros Hn.
  unfold State.processLineClear, State.updateScore, State.addLines.
  destruct (Z.ltb_spec n 0); [lia |].
  destruct (n >? 4); simpl; [split; lia |].
  destruct (n =? 0); simpl; split; lia.
Qed.

Lemma clearLines_count_nonneg (gb : GameBoard) : 0 <= fst (clearLines gb).
Proof.
  unfold clearLines.
  destruct (length (findCompletedLines gb) =? 0)%nat; simpl; lia.
Qed.

Lemma award_flags (s : State.GameState) (n : Z) :
  (State.isPaused (snd (State.awardSoftDropPoints s n)) = State.isPaused s
   /\ State.isGameOver (snd (State.awardSoftDropPoints s n)) = State.isGameOver s
   /\ State.isRunning (snd (State.awardSoftDropPoints s n)) = State.isRunning s)
  /\ (State.isPaused (snd (State.awardHardDropPoints s n)) = State.isPaused s
      /\ State.isGameOver (snd (State.awardHardDropPoints s n)) = State.isGameOver s
      /\ State.isRunning (snd (State.awardHardDropPoints s n)) = State.isRunning s).
Proof.
  unfold State.awardSoftDropPoints, State.awardHardDropPoints.
  destruct (n <=? 0); auto.
Qed.

Lemma canMove_same (e e' : Engine.GameEngine) :
  State.isPaused (Engine.gameState e') = State.isPaused (Engine.gameState e) ->
  State.isGameOver (Engine.gameState e') = State.isGameOver (Engine.gameState e) ->
  State.isRunning (Engine.gameState e') = State.isRunning (Engine.gameState e) ->
  (Engine.currentPiece e' = None <-> Engine.currentPiece e = None) ->
  Engine.canMove e' = Engine.canMove e.
Proof.
  unfold Engine.canMove. intros -> -> -> Hp.
  destruct (Engine.currentPiece e'), (Engine.currentPiece e); try reflexivity.
  - destruct Hp as [_ Hp]. discriminate (Hp eq_refl).
  - destruct Hp as [Hp _]. discriminate (Hp eq_refl).
Qed.

Lemma canMove_gameOver (e : Engine.GameEngine) :
  Engine.canMove (Engine.gameOver e) = false.
Proof.
  unfold Engine.canMove, Engine.gameOver. simpl. reflexivity.
Qed.

(** What [spawnNextPiece] leaves behind, when there is a next piece. *)
Lemma spawnNextPiece_spec (e : Engine.GameEngine) (rnd : TetrominoType) :
  grid_ok (Engine.gameBoard e) -> Engine.piece_ok (Engine.nextPiece e) ->
  Engine.nextPiece e <> None ->
  exists e' current x,
    Engine.spawnNextPiece e rnd = Some e'
    /\ Engine.nextPiece e = Some current
    /\ Engine.spawnColumn (Engine.gameBoard e) current = Some x
    /\ Engine.engine_ok e'
    /\ Engine.gameBoard e' = Engine.gameBoard e
    /\ Engine.currentPiece e' = Some current
    /\ Engine.nextPiece e' = Some (newTetromino rnd)
    /\ Engine.pieceX e' = x /\ Engine.pieceY e' = 0
    /\ Engine.gameState e'
       = (if isValidPosition (Engine.gameBoard e) current x 0
          then Engine.gameState e
          else State.setGameOver (Engine.gameState e) true).
Proof.
  intros Hg Hn Hsome.
  destruct (Engine.nextPiece e) as [current |] eqn:Hnext; [| congruence].
  simpl in Hn.
  destruct (getShape_in_range current Hn) as (shape & Hs & Hne).
  unfold Engine.spawnNextPiece, Engine.spawnColumn, getWidth.
  rewrite Hnext. simpl. rewrite Hs. simpl.
  set (x := width (Engine.gameBoard e) / 2
            - match shape with
              | [] => 0
              | row0 :: _ => Z.of_nat (length row0)
              end / 2).
  assert (Engine.pieces_ok
            (Engine.mkGameEngine (Engine.gameBoard e) (Engine.gameState e)
               (Some current) (Some (newTetromino rnd)) x 0)) as Hp.
  { repeat split; simpl; try apply Hg; try lia; discriminate. }
  assert (Engine.spawnColumn (Engine.gameBoard e) current = Some x) as Hx.
  { unfold Engine.spawnColumn, getWidth. rewrite Hs. reflexivity. }
  destruct (isValidPosition (Engine.gameBoard e) current x 0) eqn:Hval; simpl.
  - eexists _, current, x. split; [reflexivity |]. split; [reflexivity |].
    split; [exact Hx |]. split; [| simpl; rewrite ?Hval; auto 10].
    split; [exact Hp |].
    intros _. exists current. split; [reflexivity | exact Hval].
  - eexists _, current, x. split; [reflexivity |]. split; [reflexivity |].
    split; [exact Hx |]. split; [| simpl; rewrite ?Hval; auto 10].
    split; [exact Hp |].
    rewrite canMove_gameOver. discriminate.
Qed.

(** What the engine's [placePiece] leaves behind. *)
Lemma placePiece_spec (e : Engine.GameEngine) (rnd : TetrominoType) :
  Engine.pieces_ok e ->
  exists e', Engine.placePiece e rnd = Some e'
    /\ Engine.engine_ok e'
    /\ (Engine.flags_ok (Engine.gameState e) ->
        Engine.flags_ok (Engine.gameState e'))
    /\ (forall piece, Engine.currentPiece e = Some piece ->
        isValidPosition (Engine.gameBoard e) piece
                        (Engine.pieceX e) (Engine.pieceY e) = true ->
        let gb1 := snd (MyWork.placePiece (Engine.gameBoard e) piece
                                          (Engine.pieceX e) (Engine.pieceY e)) in
        let n := fst (clearLines gb1) in
        fst (MyWork.placePiece (Engine.gameBoard e) piece
                               (Engine.pieceX e) (Engine.pieceY e)) = true
        /\ Engine.gameBoard e' = snd (clearLines gb1)
        /\ Engine.currentPiece e' = Engine.nextPiece e
        /\ Engine.nextPiece e' = Some (newTetromino rnd)
        /\ Engine.pieceY e' = 0
        /\ State.score (Engine.gameState e')
           = State.score (Engine.gameState e)
             + fst (State.updateScore (Engine.gameState e) n)
        /\ State.lines (Engine.gameState e')
           = State.lines (Engine.gameState e) + n
        /\ (State.isGameOver (Engine.gameState e') = true ->
            State.isGameOver (Engine.gameState e) = true
            \/ exists current,
                 Engine.currentPiece e' = Some current
                 /\ isValidPosition (Engine.gameBoard e') current
                                    (Engine.pieceX e') 0 = false)).
Proof.
  intros (Hg & Hc & Hn & Hcn).
  unfold Engine.placePiece.
  destruct (Engine.currentPiece e) as [piece |] eqn:Hcur.
  2:{ exists e. split; [reflexivity |]. split.
      - split; [unfold Engine.pieces_ok; rewrite Hcur; auto |].
        intros Hm. destruct (canMove_piece e Hm) as (p & Hp & _). congruence.
      - split; [auto |]. intros piece Hp. discriminate. }
  specialize (Hcn ltac:(discriminate)).
  destruct (MyWork.placePiece (Engine.gameBoard e) piece (Engine.pieceX e)
              (Engine.pieceY e)) as [placed gb1] eqn:Hplace.
  pose proof (grid_ok_placePiece (Engine.gameBoard e) piece (Engine.pieceX e)
                (Engine.pieceY e) Hg) as (Hg1 & _).
  rewrite Hplace in Hg1. simpl in Hg1.
  destruct placed.
  - destruct (clearLines gb1) as [linesCleared gb2] eqn:Hclear.
    pose proof (grid_ok_clearLines gb1 Hg1) as (Hg2 & _).
    rewrite Hclear in Hg2. simpl in Hg2.
    set (gs := if linesCleared >? 0
               then State.processLineClear (Engine.gameState e) linesCleared
               else Engine.gameState e).
    assert (State.isPaused gs = State.isPaused (Engine.gameState e)
            /\ State.isGameOver gs = State.isGameOver (Engine.gameState e)
            /\ State.isRunning gs = State.isRunning (Engine.gameState e))
      as (Hf1 & Hf2 & Hf3).
    { unfold gs. destruct (linesCleared >? 0); [| auto].
      apply processLineClear_flags. }
    destruct (spawnNextPiece_spec
                (Engine.mkGameEngine gb2 gs (Some piece) (Engine.nextPiece e)
                                     (Engine.pieceX e) (Engine.pieceY e))
                rnd Hg2 Hn Hcn)
      as (e' & current & x & Hspawn & Hnext & Hx & Hok & Hb & Hc' & Hn' & Hx'
          & Hy' & Hs').
    simpl in Hnext, Hx, Hb, Hs'.
    exists e'. split; [exact Hspawn |]. split; [exact Hok |]. split.
    + intros Hfl. rewrite Hs'.
      destruct (isValidPosition gb2 current x 0);
        [| apply flags_ok_setGameOver].
      apply (flags_ok_same (Engine.gameState e)); assumption.
    + intros piece' Hp' Hval. simpl. inversion Hp'; subst piece'.
      rewrite Hplace. simpl. rewrite Hclear. simpl.
      split; [reflexivity |].
      split; [exact Hb |]. split; [congruence |]. split; [exact Hn' |].
      split; [exact Hy' |].
      assert (State.score gs
              = State.score (Engine.gameState e)
                + fst (State.updateScore (Engine.gameState e) linesCleared)
              /\ State.lines gs = State.lines (Engine.gameState e) + linesCleared)
        as [Hsc Hln].
      { pose proof (clearLines_count_nonneg gb1) as Hn0.
        rewrite Hclear in Hn0. simpl in Hn0. unfold gs.
        destruct (Z.gtb_spec linesCleared 0).
        - apply processLineClear_totals. lia.
        - replace linesCleared with 0 by lia. simpl. lia. }
      assert (State.score (Engine.gameState e') = State.score gs
              /\ State.lines (Engine.gameState e') = State.lines gs)
        as [Hsc' Hln'].
      { rewrite Hs'. destruct (isValidPosition gb2 current x 0); auto. }
      split; [congruence |]. split; [congruence |].
      intros Hover. rewrite Hs' in Hover.
      destruct (isValidPosition gb2 current x 0) eqn:Hv2.
      * left. congruence.
      * right. exists current. split; [exact Hc' |].
        rewrite Hb, Hx'. exact Hv2.
  - exists (Engine.gameOver e). split; [reflexivity |]. split.
    + split.
      * unfold Engine.pieces_ok, Engine.gameOver. simpl. rewrite Hcur. auto.
      * rewrite canMove_gameOver. discriminate.
    + split; [intros _; apply flags_ok_setGameOver |].
      intros piece' Hp' Hval. inversion Hp'; subst piece'.
      unfold MyWork.placePiece in Hplace. rewrite Hval in Hplace.
      simpl in Hplace. discriminate.
Qed.

Lemma updateScore_points_level (s s' : State.GameState) (n : Z) :
  State.level s' = State.level s ->
  fst (State.updateScore s' n) = fst (State.updateScore s n).
Proof.
  intros Hl. unfold State.updateScore.
  destruct ((n <? 0) || (n >? 4)); [reflexivity |].
  destruct (n =? 0); [reflexivity |]. simpl. rewrite Hl. reflexivity.
Qed.

Lemma awardHardDropPoints_fields (s : State.GameState) (n : Z) :
  0 <= n ->
  State.score (snd (State.awardHardDropPoints s n)) = State.score s + 2 * n
  /\ State.level (snd (State.awardHardDropPoints s n)) = State.level s
  /\ State.lines (snd (State.awardHardDropPoints s n)) = State.lines s.
Proof.
  intros Hn. unfold State.awardHardDropPoints.
  destruct (Z.leb_spec n 0); simpl; repeat split; lia.
Qed.

Lemma engine_sample_ok : Engine.engine_ok engine_sample.
Proof.
  split.
  - split; [apply (grid_ok_new 10 20); lia |].
    simpl. split; [lia |]. split; [lia |]. discriminate.
  - intros _. eexists. split; [reflexivity |]. vm_compute. reflexivity.
Defined.

Lemma engine_landed_ok : Engine.engine_ok engine_landed.
Proof.
  split.
  - split; [apply (grid_ok_new 10 20); lia |].
    simpl. split; [lia |]. split; [lia |]. discriminate.
  - intros _. eexists. split; [reflexivity |]. vm_compute. reflexivity.
Defined.

End EngineFacts.

(** [moveLeft] and [moveRight] touch nothing but the column, which they
    change by one exactly when the piece fits there; they keep the engine
    invariant, and a move that was applied is undone by the opposite
    move. *)
Theorem move_left_right (e : MyWork.Engine.GameEngine) :
  MyWork.Engine.engine_ok e ->
  let l := MyWork.Engine.moveLeft e in
  let r := MyWork.Engine.moveRight e in
  (MyWork.Engine.engine_ok l /\ MyWork.Engine.engine_ok r)
  /\ (l = e
      \/ l = MyWork.Engine.set_position e (MyWork.Engine.pieceX e - 1)
                                        (MyWork.Engine.pieceY e))
  /\ (r = e
      \/ r = MyWork.Engine.set_position e (MyWork.Engine.pieceX e + 1)
                                        (MyWork.Engine.pieceY e))
  /\ (MyWork.Engine.canMove e = true ->
      forall piece, MyWork.Engine.currentPiece e = Some piece ->
        (MyWork.Engine.pieceX l = MyWork.Engine.pieceX e - 1
         <-> MyWork.isValidPosition (MyWork.Engine.gameBoard e) piece
               (MyWork.Engine.pieceX e - 1) (MyWork.Engine.pieceY e) = true)
        /\ (MyWork.Engine.pieceX r = MyWork.Engine.pieceX e + 1
            <-> MyWork.isValidPosition (MyWork.Engine.gameBoard e) piece
                  (MyWork.Engine.pieceX e + 1) (MyWork.Engine.pieceY e) = true))
  /\ (l <> e -> MyWork.Engine.moveRight l = e)
  /\ (r <> e -> MyWork.Engine.moveLeft r = e).
Proof.
  intros [Hp Hpos] l r.
  assert (forall dx,
            MyWork.Engine.canMove
              (MyWork.Engine.set_position e (MyWork.Engine.pieceX e + dx)
                                          (MyWork.Engine.pieceY e))
            = MyWork.Engine.canMove e) as Hcm by reflexivity.
  assert (forall x, MyWork.Engine.set_position
                      (MyWork.Engine.set_position e x (MyWork.Engine.pieceY e))
                      (MyWork.Engine.pieceX e) (MyWork.Engine.pieceY e) = e)
    as Hback by (intros x; destruct e; reflexivity).
  subst l r. unfold MyWork.Engine.moveLeft, MyWork.Engine.moveRight.
  destruct (MyWork.Engine.canMove e) eqn:Hm; simpl.
  2:{ split; [split; split; auto; rewrite Hm; discriminate |].
      split; [auto |]. split; [auto |]. split; [discriminate |].
      split; intros H; contradiction H; reflexivity. }
  destruct (Hpos eq_refl) as (piece & Hcur & Hval).
  rewrite Hcur.
  destruct (MyWork.isValidPosition (MyWork.Engine.gameBoard e) piece
              (MyWork.Engine.pieceX e - 1) (MyWork.Engine.pieceY e)) eqn:Hl;
    destruct (MyWork.isValidPosition (MyWork.Engine.gameBoard e) piece
                (MyWork.Engine.pieceX e + 1) (MyWork.Engine.pieceY e)) eqn:Hr.
  all: split;
    [ split; (split; [exact Hp |]); intros _; exists piece;
      (split; [exact Hcur |]); simpl; assumption |].
  all: split; [auto |]; split; [auto |].
  all: split;
    [ intros _ piece' Hp'; inversion Hp'; subst piece'; simpl;
      rewrite ?Hl, ?Hr; split; split; intros H; try reflexivity; try lia;
      try discriminate |].
  all: split; intros Hne; try (contradiction Hne; reflexivity).
  all: unfold MyWork.Engine.moveLeft, MyWork.Engine.moveRight;
    change (MyWork.Engine.canMove (MyWork.Engine.set_position e _ _))
      with (MyWork.Engine.canMove e);
    rewrite Hm; simpl; rewrite Hcur.
  all: try replace (MyWork.Engine.pieceX e - 1 + 1) with (MyWork.Engine.pieceX e)
    by lia.
  all: try replace (MyWork.Engine.pieceX e + 1 - 1) with (MyWork.Engine.pieceX e)
    by lia.
  all: rewrite Hval; apply Hback.
Qed.

Lemma move_left_right_witness :
  let l := MyWork.Engine.moveLeft engine_sample in
  let r := MyWork.Engine.moveRight engine_sample in
  (MyWork.Engine.engine_ok l /\ MyWork.Engine.engine_ok r)
  /\ (l = engine_sample
      \/ l = MyWork.Engine.set_position engine_sample
               (MyWork.Engine.pieceX engine_sample - 1)
               (MyWork.Engine.pieceY engine_sample))
  /\ (r = engine_sample
      \/ r = MyWork.Engine.set_position engine_sample
               (MyWork.Engine.pieceX engine_sample + 1)
               (MyWork.Engine.pieceY engine_sample))
  /\ (MyWork.Engine.canMove engine_sample = true ->
      forall piece, MyWork.Engine.currentPiece engine_sample = Some piece ->
        (MyWork.Engine.pieceX l = MyWork.Engine.pieceX engine_sample - 1
         <-> MyWork.isValidPosition (MyWork.Engine.gameBoard engine_sample) piece
               (MyWork.Engine.pieceX engine_sample - 1)
               (MyWork.Engine.pieceY engine_sample) = true)
        /\ (MyWork.Engine.pieceX r = MyWork.Engine.pieceX engine_sample + 1
            <-> MyWork.isValidPosition (MyWork.Engine.gameBoard engine_sample) piece
                  (MyWork.Engine.pieceX engine_sample + 1)
                  (MyWork.Engine.pieceY engine_sample) = true))
  /\ (l <> engine_sample -> MyWork.Engine.moveRight l = engine_sample)
  /\ (r <> engine_sample -> MyWork.Engine.moveLeft r = engine_sample).
Proof.
  apply (move_left_right engine_sample). apply engine_sample_ok.
Defined.

(** [rotate] turns the piece to its next rotation state at the first of the
    column offsets 0, -1, 1, -2, 2 where the turned piece fits, and leaves
    the engine as it is when it fits at none of them; either way the engine
    invariant is kept. *)
Theorem rotate_wall_kick (e : MyWork.Engine.GameEngine) (piece : MyWork.Tetromino) :
  MyWork.Engine.engine_ok e ->
  MyWork.Engine.canMove e = true ->
  MyWork.Engine.currentPiece e = Some piece ->
  let turned :=
    MyWork.mkTetromino (MyWork.type piece)
                       (Z.rem (MyWork.rotation piece + 1) 4) in
  let e' := MyWork.Engine.rotate e in
  MyWork.Engine.engine_ok e'
  /\ MyWork.getShape turned = MyWork.getRotatedShape piece
  /\ match list_find
             (fun offset =>
                MyWork.isValidPosition (MyWork.Engine.gameBoard e) turned
                  (MyWork.Engine.pieceX e + offset) (MyWork.Engine.pieceY e)
                = true)
             (0 :: MyWork.Engine.wallKickOffsets) with
     | Some (_, offset) =>
       e' = MyWork.Engine.mkGameEngine
              (MyWork.Engine.gameBoard e) (MyWork.Engine.gameState e)
              (Some turned) (MyWork.Engine.nextPiece e)
              (MyWork.Engine.pieceX e + offset) (MyWork.Engine.pieceY e)
     | None => e' = e
     end.
Proof.
  intros Hok Hm Hcur turned e'.
  pose proof Hok as [(Hg & Hc & Hn & Hcn) Hpos].
  rewrite Hcur in Hc. simpl in Hc.
  destruct piece as [t r]. simpl in Hc, turned.
  destruct (rotate_in_range t r Hc) as (sh & Hrot).
  assert (0 <= Z.rem (r + 1) 4 < 4) as Hrange.
  { pose proof (Z.rem_bound_pos (r + 1) 4 ltac:(lia) ltac:(lia)). lia. }
  assert (forall x,
            MyWork.isValidPosition (MyWork.Engine.gameBoard e) turned x
                                   (MyWork.Engine.pieceY e) = true ->
            MyWork.Engine.engine_ok
              (MyWork.Engine.mkGameEngine
                 (MyWork.Engine.gameBoard e) (MyWork.Engine.gameState e)
                 (Some turned) (MyWork.Engine.nextPiece e)
                 x (MyWork.Engine.pieceY e))) as Hturn.
  { intros x Hval. split.
    - unfold MyWork.Engine.pieces_ok. simpl.
      split; [exact Hg |]. split; [exact Hrange |]. split; [exact Hn |].
      intros _. apply Hcn. rewrite Hcur. discriminate.
    - intros _. exists turned. split; [reflexivity | exact Hval]. }
  assert (e' = match list_find
                       (fun offset =>
                          MyWork.isValidPosition (MyWork.Engine.gameBoard e) turned
                            (MyWork.Engine.pieceX e + offset)
                            (MyWork.Engine.pieceY e) = true)
                       (0 :: MyWork.Engine.wallKickOffsets) with
               | Some (_, offset) =>
                 MyWork.Engine.mkGameEngine
                   (MyWork.Engine.gameBoard e) (MyWork.Engine.gameState e)
                   (Some turned) (MyWork.Engine.nextPiece e)
                   (MyWork.Engine.pieceX e + offset) (MyWork.Engine.pieceY e)
               | None => e
               end) as He'.
  { subst e'. unfold MyWork.Engine.rotate. rewrite Hm, Hcur. simpl negb. cbv iota.
    change (MyWork.clone (MyWork.mkTetromino t r)) with (MyWork.mkTetromino t r).
    rewrite Hrot. cbn [fst].
    change (list_find ?P (0 :: ?l))
      with (if decide (P 0) then Some (0%nat, 0)
            else prod_map S id <$> list_find P l).
    cbv beta. rewrite Z.add_0_r.
    fold turned.
    destruct (MyWork.isValidPosition (MyWork.Engine.gameBoard e) turned
                (MyWork.Engine.pieceX e) (MyWork.Engine.pieceY e)) eqn:H0.
    - rewrite decide_True by reflexivity. rewrite Z.add_0_r. reflexivity.
    - rewrite decide_False by discriminate.
      destruct (list_find _ MyWork.Engine.wallKickOffsets) as [[i o] |];
        reflexivity. }
  split; [| split].
  - rewrite He'.
    destruct (list_find _ (0 :: MyWork.Engine.wallKickOffsets))
      as [[i o] |] eqn:Hfind; [| exact Hok].
    apply list_find_Some in Hfind as (_ & Hval & _).
    apply Hturn. exact Hval.
  - reflexivity.
  - destruct (list_find _ (0 :: MyWork.Engine.wallKickOffsets))
      as [[i o] |]; exact He'.
Qed.

Lemma rotate_wall_kick_witness :
  let turned :=
    MyWork.mkTetromino (MyWork.type (MyWork.newTetromino MyWork.TT))
                       (Z.rem (MyWork.rotation (MyWork.newTetromino MyWork.TT) + 1) 4) in
  let e' := MyWork.Engine.rotate engine_sample in
  MyWork.Engine.engine_ok e'
  /\ MyWork.getShape turned
     = MyWork.getRotatedShape (MyWork.newTetromino MyWork.TT)
  /\ match list_find
             (fun offset =>
                MyWork.isValidPosition (MyWork.Engine.gameBoard engine_sample)
                  turned (MyWork.Engine.pieceX engine_sample + offset)
                  (MyWork.Engine.pieceY engine_sample)
                = true)
             (0 :: MyWork.Engine.wallKickOffsets) with
     | Some (_, offset) =>
       e' = MyWork.Engine.mkGameEngine
              (MyWork.Engine.gameBoard engine_sample)
              (MyWork.Engine.gameState engine_sample)
              (Some turned) (MyWork.Engine.nextPiece engine_sample)
              (MyWork.Engine.pieceX engine_sample + offset)
              (MyWork.Engine.pieceY engine_sample)
     | None => e' = engine_sample
     end.
Proof.
  apply (rotate_wall_kick engine_sample (MyWork.newTetromino MyWork.TT)).
  - apply engine_sample_ok.
  - reflexivity.
  - reflexivity.
Defined.

(** [pause] is a toggle: pausing twice gives back the engine it started
    from.  While the game is paused, over or not running, [moveLeft],
    [moveRight], [rotate], [softDrop] and [hardDrop] do nothing. *)
Theorem pause_toggles (e : MyWork.Engine.GameEngine) (rnd : MyWork.TetrominoType)
    (fuel : nat) :
  MyWork.Engine.pause (MyWork.Engine.pause e) = e
  /\ (MyWork.Engine.canMove e = true ->
      MyWork.State.isPaused (MyWork.Engine.gameState (MyWork.Engine.pause e)) = true
      /\ MyWork.Engine.resume (MyWork.Engine.pause e) = e)
  /\ (MyWork.State.isPaused (MyWork.Engine.gameState e) = true
      \/ MyWork.State.isGameOver (MyWork.Engine.gameState e) = true
      \/ MyWork.State.isRunning (MyWork.Engine.gameState e) = false ->
      MyWork.Engine.moveLeft e = e
      /\ MyWork.Engine.moveRight e = e
      /\ MyWork.Engine.rotate e = e
      /\ MyWork.Engine.softDrop e rnd = Some e
      /\ MyWork.Engine.hardDrop fuel e rnd = Some e).
Proof.
  split; [| split].
  - destruct e as [gb [sc lv ln p g r] cur nxt x y].
    destruct p, g, r; reflexivity.
  - intros Hm. destruct (canMove_piece e Hm) as (piece & _ & Hr & Hp & Hg).
    destruct e as [gb [sc lv ln p g r] cur nxt x y]. simpl in Hr, Hp, Hg.
    subst p g r. split; reflexivity.
  - intros Hoff.
    assert (MyWork.Engine.canMove e = false) as Hm.
    { unfold MyWork.Engine.canMove.
      destruct Hoff as [-> | [-> | ->]]; simpl;
        rewrite ?andb_false_r; reflexivity. }
    unfold MyWork.Engine.moveLeft, MyWork.Engine.moveRight, MyWork.Engine.rotate,
      MyWork.Engine.softDrop, MyWork.Engine.hardDrop.
    rewrite Hm. simpl. auto.
Qed.

Lemma pause_toggles_witness :
  MyWork.Engine.pause (MyWork.Engine.pause engine_sample) = engine_sample
  /\ (MyWork.Engine.canMove engine_sample = true ->
      MyWork.State.isPaused
        (MyWork.Engine.gameState (MyWork.Engine.pause engine_sample)) = true
      /\ MyWork.Engine.resume (MyWork.Engine.pause engine_sample) = engine_sample)
  /\ (MyWork.State.isPaused (MyWork.Engine.gameState engine_sample) = true
      \/ MyWork.State.isGameOver (MyWork.Engine.gameState engine_sample) = true
      \/ MyWork.State.isRunning (MyWork.Engine.gameState engine_sample) = false ->
      MyWork.Engine.moveLeft engine_sample = engine_sample
      /\ MyWork.Engine.moveRight engine_sample = engine_sample
      /\ MyWork.Engine.rotate engine_sample = engine_sample
      /\ MyWork.Engine.softDrop engine_sample MyWork.TO = Some engine_sample
      /\ MyWork.Engine.hardDrop 30 engine_sample MyWork.TO = Some engine_sample).
Proof.
  apply (pause_toggles engine_sample MyWork.TO 30).
Defined.

(** The loop of [hardDrop] ends: on a valid board, with more fuel than rows
    left under the piece, it returns the row the piece lands on, which is
    the first row at or below the start where the next step down is not a
    valid position. *)
Theorem fall_lands (gb : MyWork.GameBoard) (piece : MyWork.Tetromino)
    (x y : Z) (fuel : nat) :
  MyWork.validateBoard gb = true ->
  0 <= MyWork.rotation piece < 4 ->
  (Z.to_nat (MyWork.height gb - 1 - y) < fuel)%nat ->
  exists y',
    MyWork.Engine.fall fuel gb piece x y = Some y'
    /\ y <= y'
    /\ MyWork.isValidPosition gb piece x (y' + 1) = false
    /\ (forall k, y < k <= y' -> MyWork.isValidPosition gb piece x k = true)
    /\ (y < y' -> y' < MyWork.height gb).
Proof.
  intros Hv Hr Hfuel.
  destruct (fall_spec gb piece x fuel y Hv Hr Hfuel)
    as (y' & Hfall & Hle & Hstop & Hall).
  exists y'. split; [exact Hfall |]. split; [exact Hle |].
  split; [exact Hstop |]. split; [exact Hall |].
  intros Hlt. apply (valid_below_height gb piece x y' Hv Hr).
  apply Hall. lia.
Qed.

Lemma fall_lands_witness :
  exists y',
    MyWork.Engine.fall 21 one_full_row (MyWork.newTetromino MyWork.TT) 3 0 = Some y'
    /\ 0 <= y'
    /\ MyWork.isValidPosition one_full_row (MyWork.newTetromino MyWork.TT) 3 (y' + 1)
       = false
    /\ (forall k, 0 < k <= y' ->
        MyWork.isValidPosition one_full_row (MyWork.newTetromino MyWork.TT) 3 k = true)
    /\ (0 < y' -> y' < MyWork.height one_full_row).
Proof.
  apply (fall_lands one_full_row (MyWork.newTetromino MyWork.TT) 3 0 21).
  - vm_compute. reflexivity.
  - simpl. lia.
  - vm_compute. lia.
Defined.

(** Under the engine invariant the drops never fail: [placePiece],
    [dropPiece], [softDrop] and, with enough fuel, [hardDrop] return an
    engine that satisfies the invariant again, and whose status flags are
    consistent when they were before. *)
Theorem drops_keep_invariant (e : MyWork.Engine.GameEngine)
    (rnd : MyWork.TetrominoType) (fuel : nat) :
  MyWork.Engine.engine_ok e ->
  (Z.to_nat (MyWork.height (MyWork.Engine.gameBoard e) - 1 - MyWork.Engine.pieceY e)
   < fuel)%nat ->
  let good e' :=
    MyWork.Engine.engine_ok e'
    /\ (MyWork.Engine.flags_ok (MyWork.Engine.gameState e) ->
        MyWork.Engine.flags_ok (MyWork.Engine.gameState e')) in
  (exists e', MyWork.Engine.placePiece e rnd = Some e' /\ good e')
  /\ (exists e', MyWork.Engine.dropPiece e rnd = Some e' /\ good e')
  /\ (exists e', MyWork.Engine.softDrop e rnd = Some e' /\ good e')
  /\ (exists e', MyWork.Engine.hardDrop fuel e rnd = Some e' /\ good e').
Proof.
  intros Hok Hfuel good.
  pose proof Hok as [Hp Hpos].
  pose proof Hp as (Hg & Hc & Hn & Hcn).
  assert (exists e', MyWork.Engine.placePiece e rnd = Some e' /\ good e') as Hplace.
  { destruct (placePiece_spec e rnd Hp) as (e' & H1 & H2 & H3 & _).
    exists e'. split; [exact H1 |]. split; assumption. }
  assert (good e) as Hsame by (split; auto).
  split; [exact Hplace |].
  split; [| split].
  - unfold MyWork.Engine.dropPiece.
    destruct (MyWork.Engine.currentPiece e) as [piece |] eqn:Hcur;
      [| exists e; split; [reflexivity | exact Hsame]].
    destruct (MyWork.isValidPosition _ piece _ (MyWork.Engine.pieceY e + 1))
      eqn:Hval; [| exact Hplace].
    eexists. split; [reflexivity |]. split; [| simpl; auto].
    split; [unfold MyWork.Engine.pieces_ok; simpl; rewrite Hcur; auto |].
    intros _. exists piece. simpl. auto.
  - unfold MyWork.Engine.softDrop.
    destruct (MyWork.Engine.canMove e) eqn:Hm; simpl;
      [| exists e; split; [reflexivity | exact Hsame]].
    destruct (MyWork.Engine.currentPiece e) as [piece |] eqn:Hcur;
      [| exists e; split; [reflexivity | exact Hsame]].
    destruct (MyWork.isValidPosition _ piece _ (MyWork.Engine.pieceY e + 1))
      eqn:Hval; [| exact Hplace].
    eexists. split; [reflexivity |]. split.
    + split; [unfold MyWork.Engine.pieces_ok; simpl; rewrite Hcur; auto |].
      intros _. exists piece. simpl. auto.
    + simpl. intros Hfl. destruct (award_flags (MyWork.Engine.gameState e) 1)
        as [(H1 & H2 & H3) _].
      apply (flags_ok_same (MyWork.Engine.gameState e)); assumption.
  - unfold MyWork.Engine.hardDrop.
    destruct (MyWork.Engine.canMove e) eqn:Hm; simpl;
      [| exists e; split; [reflexivity | exact Hsame]].
    destruct (Hpos eq_refl) as (piece & Hcur & Hval). rewrite Hcur.
    rewrite Hcur in Hc. simpl in Hc.
    destruct (fall_spec (MyWork.Engine.gameBoard e) piece (MyWork.Engine.pieceX e)
                fuel (MyWork.Engine.pieceY e)
                (grid_ok_validateBoard _ Hg) Hc Hfuel)
      as (y' & Hfall & _).
    rewrite Hfall. simpl.
    set (e2 := if y' - MyWork.Engine.pieceY e >? 0 then _ else _).
    assert (MyWork.Engine.pieces_ok e2
            /\ MyWork.State.isPaused (MyWork.Engine.gameState e2)
               = MyWork.State.isPaused (MyWork.Engine.gameState e)
            /\ MyWork.State.isGameOver (MyWork.Engine.gameState e2)
               = MyWork.State.isGameOver (MyWork.Engine.gameState e)
            /\ MyWork.State.isRunning (MyWork.Engine.gameState e2)
               = MyWork.State.isRunning (MyWork.Engine.gameState e))
      as (Hp2 & Hf1 & Hf2 & Hf3).
    { unfold e2. destruct (y' - MyWork.Engine.pieceY e >? 0).
      - split; [exact Hp |]. simpl.
        apply (award_flags (MyWork.Engine.gameState e)
                           (y' - MyWork.Engine.pieceY e)).
      - split; [exact Hp |]. simpl. auto. }
    destruct (placePiece_spec e2 rnd Hp2) as (e' & H1 & H2 & H3 & _).
    exists e'. split; [exact H1 |]. split; [exact H2 |].
    intros Hfl. apply H3.
    apply (flags_ok_same (MyWork.Engine.gameState e)); assumption.
Qed.

Lemma drops_keep_invariant_witness :
  let good e' :=
    MyWork.Engine.engine_ok e'
    /\ (MyWork.Engine.flags_ok (MyWork.Engine.gameState engine_sample) ->
        MyWork.Engine.flags_ok (MyWork.Engine.gameState e')) in
  (exists e', MyWork.Engine.placePiece engine_sample MyWork.TO = Some e' /\ good e')
  /\ (exists e', MyWork.Engine.dropPiece engine_sample MyWork.TO = Some e' /\ good e')
  /\ (exists e', MyWork.Engine.softDrop engine_sample MyWork.TO = Some e' /\ good e')
  /\ (exists e', MyWork.Engine.hardDrop 21 engine_sample MyWork.TO = Some e'
                 /\ good e').
Proof.
  apply (drops_keep_invariant engine_sample MyWork.TO 21).
  - apply engine_sample_ok.
  - vm_compute. lia.
Defined.

(** A piece that cannot go down one more row is locked by the automatic
    drop, by a soft drop and by a hard drop alike.  Locking writes the piece
    into the board (the placement never fails), clears the lines, scores
    them, makes the next piece the current one at row 0, and ends the game
    only when that piece does not fit where it is spawned. *)
Theorem landed_piece_locks (e : MyWork.Engine.GameEngine)
    (rnd : MyWork.TetrominoType) (fuel : nat) (piece : MyWork.Tetromino) :
  MyWork.Engine.engine_ok e ->
  MyWork.Engine.canMove e = true ->
  MyWork.Engine.currentPiece e = Some piece ->
  MyWork.isValidPosition (MyWork.Engine.gameBoard e) piece
    (MyWork.Engine.pieceX e) (MyWork.Engine.pieceY e + 1) = false ->
  (0 < fuel)%nat ->
  exists e',
    MyWork.Engine.dropPiece e rnd = Some e'
    /\ MyWork.Engine.softDrop e rnd = Some e'
    /\ MyWork.Engine.hardDrop fuel e rnd = Some e'
    /\ let placed :=
         MyWork.placePiece (MyWork.Engine.gameBoard e) piece
                           (MyWork.Engine.pieceX e) (MyWork.Engine.pieceY e) in
       let n := fst (MyWork.clearLines (snd placed)) in
       fst placed = true
       /\ MyWork.Engine.gameBoard e' = snd (MyWork.clearLines (snd placed))
       /\ MyWork.Engine.currentPiece e' = MyWork.Engine.nextPiece e
       /\ MyWork.Engine.nextPiece e' = Some (MyWork.newTetromino rnd)
       /\ MyWork.Engine.pieceY e' = 0
       /\ MyWork.State.score (MyWork.Engine.gameState e')
          = MyWork.State.score (MyWork.Engine.gameState e)
            + fst (MyWork.State.updateScore (MyWork.Engine.gameState e) n)
       /\ MyWork.State.lines (MyWork.Engine.gameState e')
          = MyWork.State.lines (MyWork.Engine.gameState e) + n
       /\ (MyWork.State.isGameOver (MyWork.Engine.gameState e') = true ->
           exists current,
             MyWork.Engine.currentPiece e' = Some current
             /\ MyWork.isValidPosition (MyWork.Engine.gameBoard e') current
                   (MyWork.Engine.pieceX e') 0 = false).
Proof.
  intros Hok Hm Hcur Hland Hfuel.
  pose proof Hok as [Hp Hpos].
  destruct (Hpos Hm) as (piece' & Hcur' & Hval).
  assert (piece' = piece) as -> by congruence.
  destruct (placePiece_spec e rnd Hp) as (e' & Hplace & _ & _ & Hout).
  specialize (Hout piece Hcur Hval). cbv zeta in Hout.
  destruct Hout as (H1 & H2 & H3 & H4 & H5 & H6 & H7 & H8).
  exists e'.
  split; [unfold MyWork.Engine.dropPiece; rewrite Hcur, Hland; exact Hplace |].
  split; [unfold MyWork.Engine.softDrop; rewrite Hm, Hcur, Hland; exact Hplace |].
  split.
  { unfold MyWork.Engine.hardDrop. rewrite Hm, Hcur. simpl.
    destruct fuel as [| fuel]; [lia |]. simpl. rewrite Hland. simpl.
    rewrite Z.sub_diag. simpl.
    replace (MyWork.Engine.set_position e (MyWork.Engine.pieceX e)
                                        (MyWork.Engine.pieceY e))
      with e by (destruct e; reflexivity).
    exact Hplace. }
  cbv zeta. repeat (split; [assumption |]).
  intros Hover. destruct (H8 Hover) as [Hwas | Hblocked]; [| exact Hblocked].
  destruct (canMove_piece e Hm) as (_ & _ & _ & _ & Hno). congruence.
Qed.

Lemma landed_piece_locks_witness :
  exists e',
    MyWork.Engine.dropPiece engine_landed MyWork.TO = Some e'
    /\ MyWork.Engine.softDrop engine_landed MyWork.TO = Some e'
    /\ MyWork.Engine.hardDrop 1 engine_landed MyWork.TO = Some e'
    /\ let placed :=
         MyWork.placePiece (MyWork.Engine.gameBoard engine_landed)
                           (MyWork.newTetromino MyWork.TT)
                           (MyWork.Engine.pieceX engine_landed)
                           (MyWork.Engine.pieceY engine_landed) in
       let n := fst (MyWork.clearLines (snd placed)) in
       fst placed = true
       /\ MyWork.Engine.gameBoard e' = snd (MyWork.clearLines (snd placed))
       /\ MyWork.Engine.currentPiece e' = MyWork.Engine.nextPiece engine_landed
       /\ MyWork.Engine.nextPiece e' = Some (MyWork.newTetromino MyWork.TO)
       /\ MyWork.Engine.pieceY e' = 0
       /\ MyWork.State.score (MyWork.Engine.gameState e')
          = MyWork.State.score (MyWork.Engine.gameState engine_landed)
            + fst (MyWork.State.updateScore
                     (MyWork.Engine.gameState engine_landed) n)
       /\ MyWork.State.lines (MyWork.Engine.gameState e')
          = MyWork.State.lines (MyWork.Engine.gameState engine_landed) + n
       /\ (MyWork.State.isGameOver (MyWork.Engine.gameState e') = true ->
           exists current,
             MyWork.Engine.currentPiece e' = Some current
             /\ MyWork.isValidPosition (MyWork.Engine.gameBoard e') current
                   (MyWork.Engine.pieceX e') 0 = false).
Proof.
  apply (landed_piece_locks engine_landed MyWork.TO 1
           (MyWork.newTetromino MyWork.TT)).
  - apply engine_landed_ok.
  - reflexivity.
  - reflexivity.
  - vm_compute. reflexivity.
  - lia.
Defined.

(** A hard drop takes the piece down to the row where [fall] lands it and
    locks it there: the board becomes the cleared board with the piece
    written at the landing row, the score grows by two points per row
    fallen plus the points of the lines cleared, and the line count by the
    lines cleared. *)
Theorem hardDrop_outcome (e : MyWork.Engine.GameEngine)
    (rnd : MyWork.TetrominoType) (fuel : nat) (piece : MyWork.Tetromino) :
  MyWork.Engine.engine_ok e ->
  MyWork.Engine.canMove e = true ->
  MyWork.Engine.currentPiece e = Some piece ->
  (Z.to_nat (MyWork.height (MyWork.Engine.gameBoard e) - 1 - MyWork.Engine.pieceY e)
   < fuel)%nat ->
  exists y' e',
    MyWork.Engine.fall fuel (MyWork.Engine.gameBoard e) piece
      (MyWork.Engine.pieceX e) (MyWork.Engine.pieceY e) = Some y'
    /\ MyWork.Engine.hardDrop fuel e rnd = Some e'
    /\ MyWork.Engine.pieceY e <= y' < MyWork.height (MyWork.Engine.gameBoard e)
    /\ let placed :=
         MyWork.placePiece (MyWork.Engine.gameBoard e) piece
                           (MyWork.Engine.pieceX e) y' in
       let n := fst (MyWork.clearLines (snd placed)) in
       fst placed = true
       /\ MyWork.Engine.gameBoard e' = snd (MyWork.clearLines (snd placed))
       /\ MyWork.State.score (MyWork.Engine.gameState e')
          = MyWork.State.score (MyWork.Engine.gameState e)
            + 2 * (y' - MyWork.Engine.pieceY e)
            + fst (MyWork.State.updateScore (MyWork.Engine.gameState e) n)
       /\ MyWork.State.lines (MyWork.Engine.gameState e')
          = MyWork.State.lines (MyWork.Engine.gameState e) + n.
Proof.
  intros Hok Hm Hcur Hfuel.
  pose proof Hok as [Hp Hpos].
  pose proof Hp as (Hg & Hc & Hn & Hcn).
  destruct (Hpos Hm) as (piece' & Hcur' & Hval).
  assert (piece' = piece) as -> by congruence.
  rewrite Hcur in Hc. simpl in Hc.
  pose proof (grid_ok_validateBoard _ Hg) as Hv.
  destruct (fall_spec (MyWork.Engine.gameBoard e) piece (MyWork.Engine.pieceX e)
              fuel (MyWork.Engine.pieceY e) Hv Hc Hfuel)
    as (y' & Hfall & Hle & Hstop & Hall).
  assert (MyWork.isValidPosition (MyWork.Engine.gameBoard e) piece
            (MyWork.Engine.pieceX e) y' = true) as Hval'.
  { destruct (Z.eq_dec y' (MyWork.Engine.pieceY e)) as [-> | Hne];
      [exact Hval | apply Hall; lia]. }
  pose proof (valid_below_height _ _ _ _ Hv Hc Hval') as Hlt.
  set (e2 := if y' - MyWork.Engine.pieceY e >? 0
             then MyWork.Engine.set_state
                    (MyWork.Engine.set_position e (MyWork.Engine.pieceX e) y')
                    (snd (MyWork.State.awardHardDropPoints
                            (MyWork.Engine.gameState e)
                            (y' - MyWork.Engine.pieceY e)))
             else MyWork.Engine.set_position e (MyWork.Engine.pieceX e) y').
  assert (MyWork.Engine.hardDrop fuel e rnd = MyWork.Engine.placePiece e2 rnd)
    as Hhd.
  { unfold MyWork.Engine.hardDrop. rewrite Hm, Hcur. simpl. rewrite Hfall.
    reflexivity. }
  assert (MyWork.Engine.gameBoard e2 = MyWork.Engine.gameBoard e
          /\ MyWork.Engine.currentPiece e2 = Some piece
          /\ MyWork.Engine.nextPiece e2 = MyWork.Engine.nextPiece e
          /\ MyWork.Engine.pieceX e2 = MyWork.Engine.pieceX e
          /\ MyWork.Engine.pieceY e2 = y'
          /\ MyWork.State.score (MyWork.Engine.gameState e2)
             = MyWork.State.score (MyWork.Engine.gameState e)
               + 2 * (y' - MyWork.Engine.pieceY e)
          /\ MyWork.State.level (MyWork.Engine.gameState e2)
             = MyWork.State.level (MyWork.Engine.gameState e)
          /\ MyWork.State.lines (MyWork.Engine.gameState e2)
             = MyWork.State.lines (MyWork.Engine.gameState e))
    as (Eb & Ec & En & Ex & Ey & Es & El & Eln).
  { unfold e2. destruct (Z.gtb_spec (y' - MyWork.Engine.pieceY e) 0); simpl.
    - destruct (awardHardDropPoints_fields (MyWork.Engine.gameState e)
                  (y' - MyWork.Engine.pieceY e) ltac:(lia)) as (A1 & A2 & A3).
      auto 10.
    - replace (y' - MyWork.Engine.pieceY e) with 0 by lia. simpl.
      rewrite Z.add_0_r. auto 10. }
  assert (MyWork.Engine.pieces_ok e2) as Hp2.
  { unfold MyWork.Engine.pieces_ok. rewrite Eb, Ec, En. simpl.
    split; [exact Hg |]. split; [exact Hc |]. split; [exact Hn |].
    intros _. apply Hcn. rewrite Hcur. discriminate. }
  destruct (placePiece_spec e2 rnd Hp2) as (e' & Hplace & _ & _ & Hout).
  specialize (Hout piece Ec). rewrite Eb, Ex, Ey in Hout.
  specialize (Hout Hval'). cbv zeta in Hout.
  destruct Hout as (H1 & H2 & _ & _ & _ & H6 & H7 & _).
  exists y', e'. split; [exact Hfall |].
  split; [rewrite Hhd; exact Hplace |]. split; [lia |].
  cbv zeta. split; [exact H1 |]. split; [exact H2 |].
  split.
  - rewrite H6, Es.
    rewrite (updateScore_points_level (MyWork.Engine.gameState e)
               (MyWork.Engine.gameState e2) _ El).
    reflexivity.
  - rewrite H7, Eln. reflexivity.
Qed.

Lemma hardDrop_outcome_witness :
  exists y' e',
    MyWork.Engine.fall 21 (MyWork.Engine.gameBoard engine_sample)
      (MyWork.newTetromino MyWork.TT)
      (MyWork.Engine.pieceX engine_sample) (MyWork.Engine.pieceY engine_sample)
    = Some y'
    /\ MyWork.Engine.hardDrop 21 engine_sample MyWork.TO = Some e'
    /\ MyWork.Engine.pieceY engine_sample <= y'
       < MyWork.height (MyWork.Engine.gameBoard engine_sample)
    /\ let placed :=
         MyWork.placePiece (MyWork.Engine.gameBoard engine_sample)
                           (MyWork.newTetromino MyWork.TT)
                           (MyWork.Engine.pieceX engine_sample) y' in
       let n := fst (MyWork.clearLines (snd placed)) in
       fst placed = true
       /\ MyWork.Engine.gameBoard e' = snd (MyWork.clearLines (snd placed))
       /\ MyWork.State.score (MyWork.Engine.gameState e')
          = MyWork.State.score (MyWork.Engine.gameState engine_sample)
            + 2 * (y' - MyWork.Engine.pieceY engine_sample)
            + fst (MyWork.State.updateScore
                     (MyWork.Engine.gameState engine_sample) n)
       /\ MyWork.State.lines (MyWork.Engine.gameState e')
          = MyWork.State.lines (MyWork.Engine.gameState engine_sample) + n.
Proof.
  apply (hardDrop_outcome engine_sample MyWork.TO 21
           (MyWork.newTetromino MyWork.TT)).
  - apply engine_sample_ok.
  - reflexivity.
  - reflexivity.
  - vm_compute. lia.
Defined.

(** * The game of examples/tetris at play *)

Section ExamplesPlay.
Import Examples.

Lemma rotateMatrix_at (m : list (list Z)) (i j : Z) :
  0 <= i < 4 -> 0 <= j < 4 ->
  at2 (rotateMatrix m) j (3 - i) = at2 m i j.
Proof.
  intros Hi Hj.
  assert (i = 0 \/ i = 1 \/ i = 2 \/ i = 3) as Ci by lia.
  assert (j = 0 \/ j = 1 \/ j = 2 \/ j = 3) as Cj by lia.
  destruct Ci as [-> | [-> | [-> | ->]]];
    destruct Cj as [-> | [-> | [-> | ->]]]; vm_compute; reflexivity.
Qed.

Lemma rotateMatrix_from (m : list (list Z)) (r c : Z) :
  0 <= r < 4 -> 0 <= c < 4 ->
  at2 (rotateMatrix m) r c = at2 m (3 - c) r.
Proof.
  intros Hr Hc. rewrite <- (rotateMatrix_at m (3 - c) r) by lia.
  f_equal. lia.
Qed.

Lemma b2z_step (b : bool) (n : Z) :
  (if b then n + 1 else n) = n + Z.b2z b.
Proof. destruct b; simpl; lia. Qed.

Lemma grid4_cells :
  grid4 = [ (0, 0); (0, 1); (0, 2); (0, 3); (1, 0); (1, 1); (1, 2); (1, 3);
            (2, 0); (2, 1); (2, 2); (2, 3); (3, 0); (3, 1); (3, 2); (3, 3) ].
Proof. reflexivity. Qed.

Lemma blockCount_sum (m : list (list Z)) :
  let nz r c := Z.b2z (negb (at2 m r c =? 0)) in
  blockCount m
  = nz 0 0 + nz 0 1 + nz 0 2 + nz 0 3 + nz 1 0 + nz 1 1 + nz 1 2 + nz 1 3
    + nz 2 0 + nz 2 1 + nz 2 2 + nz 2 3 + nz 3 0 + nz 3 1 + nz 3 2 + nz 3 3.
Proof.
  intros nz. unfold blockCount. rewrite grid4_cells. cbn [foldl].
  rewrite !b2z_step. unfold nz. lia.
Qed.

Lemma rotateMatrix_blockCount (m : list (list Z)) :
  blockCount (rotateMatrix m) = blockCount m.
Proof.
  rewrite (blockCount_sum (rotateMatrix m)), (blockCount_sum m). cbv zeta.
  rewrite (rotateMatrix_from m 0 0), (rotateMatrix_from m 0 1),
    (rotateMatrix_from m 0 2), (rotateMatrix_from m 0 3),
    (rotateMatrix_from m 1 0), (rotateMatrix_from m 1 1),
    (rotateMatrix_from m 1 2), (rotateMatrix_from m 1 3),
    (rotateMatrix_from m 2 0), (rotateMatrix_from m 2 1),
    (rotateMatrix_from m 2 2), (rotateMatrix_from m 2 3),
    (rotateMatrix_from m 3 0), (rotateMatrix_from m 3 1),
    (rotateMatrix_from m 3 2), (rotateMatrix_from m 3 3) by lia.
  change (3 - 0) with 3. change (3 - 1) with 2. change (3 - 2) with 1.
  change (3 - 3) with 0. lia.
Qed.

Lemma hasBlock_rotateMatrix (m : list (list Z)) :
  hasBlock m -> hasBlock (rotateMatrix m).
Proof.
  intros (r & c & Hr & Hc & Hne).
  exists c, (3 - r). split; [lia |]. split; [lia |].
  rewrite rotateMatrix_at by lia. exact Hne.
Qed.

Lemma piece_ok_createPiece (t : TetrominoName) : piece_ok (createPiece t).
Proof.
  split; [apply TETROMINOS_shape_matrix4 |]. split; [| exists t; reflexivity].
  destruct t;
    first [ exists 1, 0; split; [lia |]; split; [lia |]; discriminate
          | exists 1, 1; split; [lia |]; split; [lia |]; discriminate
          | exists 1, 2; split; [lia |]; split; [lia |]; discriminate ].
Qed.

Lemma checkCollision_fields (b : Board) (p q : Piece) (dx dy dx' dy' : Z) :
  shape p = shape q -> x p + dx = x q + dx' -> y p + dy = y q + dy' ->
  checkCollision b p dx dy = checkCollision b q dx' dy'.
Proof.
  intros Hs Hx Hy. unfold checkCollision. rewrite Hs, Hx, Hy. reflexivity.
Qed.

Lemma above_floor (b : Board) (p : Piece) :
  hasBlock (shape p) -> checkCollision b p 0 0 = false -> y p < BOARD_HEIGHT.
Proof.
  intros (r & c & Hr & Hc & Hne) Hfree.
  apply checkCollision_spec in Hfree.
  destruct (Hfree r c Hr Hc Hne) as (_ & Hlow & _). lia.
Qed.

Lemma game_ok_set_piece (g : TetrisGame) (p : Piece) :
  game_ok g -> piece_ok p -> 0 <= y p ->
  (gameRunning g = true -> checkCollision (board g) p 0 0 = false) ->
  game_ok (set_currentPiece g p).
Proof.
  intros (Hb & Hnc & _ & Hn & _ & Hst & _) Hp Hy Hfree.
  split; [exact Hb |]. split; [exact Hnc |]. split; [exact Hp |].
  split; [exact Hn |]. split; [exact Hy |]. split; [exact Hst |].
  exact Hfree.
Qed.

Lemma movePiece_ok (g : TetrisGame) (dx dy : Z) :
  game_ok g -> 0 <= dy ->
  game_ok (snd (movePiece g dx dy))
  /\ gameRunning (snd (movePiece g dx dy)) = gameRunning g
  /\ gamePaused (snd (movePiece g dx dy)) = gamePaused g.
Proof.
  intros Hok Hdy. unfold movePiece.
  destruct (checkCollision (board g) (currentPiece g) dx dy) eqn:Hcol; simpl;
    [auto |].
  split; [| auto].
  pose proof Hok as (_ & _ & (Hm & Hh & Hc) & _ & Hy & _).
  apply game_ok_set_piece; [exact Hok | | simpl; lia |].
  - split; [exact Hm |]. split; [exact Hh | exact Hc].
  - intros _. rewrite <- Hcol. apply checkCollision_fields; simpl; lia || reflexivity.
Qed.

Lemma rotatePiece_ok (g : TetrisGame) :
  game_ok g ->
  game_ok (rotatePiece g)
  /\ gameRunning (rotatePiece g) = gameRunning g
  /\ gamePaused (rotatePiece g) = gamePaused g.
Proof.
  intros Hok. unfold rotatePiece. cbv zeta.
  pose proof Hok as (_ & _ & (Hm & Hh & Hc) & _ & Hy & _ & Hfree).
  destruct (checkCollision (board g)
              (mkPiece (rotateMatrix (shape (currentPiece g)))
                       (color (currentPiece g)) (x (currentPiece g))
                       (y (currentPiece g))) 0 0) eqn:Hcol;
    (split; [| auto]).
  - apply game_ok_set_piece; [exact Hok | | exact Hy |].
    + split; [exact Hm |]. split; [exact Hh | exact Hc].
    + intros Hrun. rewrite <- (Hfree Hrun).
      apply checkCollision_fields; reflexivity.
  - apply game_ok_set_piece; [exact Hok | | exact Hy | intros _; exact Hcol].
    split; [apply rotateMatrix_matrix4 |].
    split; [apply hasBlock_rotateMatrix; exact Hh | exact Hc].
Qed.

Lemma hardDrop_loop_spec (fuel : nat) (g : TetrisGame) :
  hasBlock (shape (currentPiece g)) ->
  checkCollision (board g) (currentPiece g) 0 0 = false ->
  (Z.to_nat (BOARD_HEIGHT - y (currentPiece g)) < fuel)%nat ->
  let p := currentPiece g in
  exists y',
    hardDrop_loop fuel g
    = Some (set_currentPiece g (mkPiece (shape p) (color p) (x p) y'))
    /\ y p <= y'
    /\ checkCollision (board g) (mkPiece (shape p) (color p) (x p) y') 0 1 = true
    /\ forall k, y p <= k <= y' ->
         checkCollision (board g) (mkPiece (shape p) (color p) (x p) k) 0 0 = false.
Proof.
  revert g. induction fuel as [| fuel IH]; intros g Hh Hfree Hfuel p; [lia |].
  pose proof (above_floor _ _ Hh Hfree) as Hlow.
  simpl. unfold movePiece.
  destruct (checkCollision (board g) (currentPiece g) 0 1) eqn:Hcol; simpl.
  - exists (y p). split.
    { f_equal. destruct g as [b [sh co px py] nx sc lv ln gr gp di]. reflexivity. }
    split; [lia |]. split.
    { rewrite <- Hcol. apply checkCollision_fields; reflexivity. }
    intros k Hk. replace k with (y p) by lia. rewrite <- Hfree.
    apply checkCollision_fields; reflexivity.
  - rewrite Z.add_0_r. set (g1 := set_currentPiece g _).
    assert (checkCollision (board g1) (currentPiece g1) 0 0 = false) as Hfree1.
    { rewrite <- Hcol. apply checkCollision_fields; simpl; lia || reflexivity. }
    destruct (IH g1 Hh Hfree1) as (y' & Hloop & Hle & Hstop & Hall).
    { change (y (currentPiece g1)) with (y (currentPiece g) + 1).
      unfold BOARD_HEIGHT in *. lia. }
    subst p. unfold g1 in Hloop, Hle, Hstop, Hall.
    cbn [currentPiece set_currentPiece board shape color x y]
      in Hloop, Hle, Hstop, Hall.
    exists y'. split; [exact Hloop |]. split; [lia |]. split; [exact Hstop |].
    intros k Hk. destruct (Z.eq_dec k (y (currentPiece g))) as [-> | Hne].
    + rewrite <- Hfree. apply checkCollision_fields; reflexivity.
    + apply Hall. lia.
Qed.

Lemma filter_window {A} (P : A -> Prop) `{forall a, Decision (P a)}
    (l : list A) (lo w : nat) :
  (forall i a, l !! i = Some a -> P a -> (lo <= i < lo + w)%nat) ->
  (length (filter P l) <= w)%nat.
Proof.
  revert lo w. induction l as [| a l IH]; intros lo w Hwin; [simpl; lia |].
  rewrite filter_cons. destruct lo as [| lo].
  - destruct w as [| w].
    + destruct (decide (P a)) as [Hp | Hp];
        [specialize (Hwin 0%nat a eq_refl Hp); lia |].
      apply (IH 0%nat 0%nat). intros i b Hi Hb.
      specialize (Hwin (S i) b Hi Hb). lia.
    + assert (length (filter P l) <= w)%nat as Hl.
      { apply (IH 0%nat w). intros i b Hi Hb.
        specialize (Hwin (S i) b Hi Hb). lia. }
      destruct (decide (P a)); simpl; lia.
  - destruct (decide (P a)) as [Hp | Hp];
      [specialize (Hwin 0%nat a eq_refl Hp); lia |].
    apply (IH lo w). intros i b Hi Hb.
    specialize (Hwin (S i) b Hi Hb). lia.
Qed.

Lemma incomplete_has_zero (row : list jsval) :
  every_not_zero row = false ->
  exists c, row !! c = Some (JNum 0).
Proof.
  unfold every_not_zero. induction row as [| v row IH]; [discriminate |].
  simpl. destruct (not_zero v) eqn:Hv; simpl.
  - intros Hrest. destruct (IH Hrest) as (c & Hc). exists (S c). exact Hc.
  - intros _. exists 0%nat. destruct v as [n | s |]; try discriminate.
    simpl in Hv. apply negb_false_iff, Z.eqb_eq in Hv. subst n. reflexivity.
Qed.

Lemma complete_no_zero (row : list jsval) (c : nat) :
  every_not_zero row = true -> row !! c = Some (JNum 0) -> False.
Proof.
  unfold every_not_zero. intros Hall Hc.
  rewrite forallb_forall in Hall.
  apply list_elem_of_lookup_2, list_elem_of_In in Hc.
  specialize (Hall _ Hc). discriminate.
Qed.

Lemma at2_outside_rows (m : list (list Z)) (r c : Z) :
  r < 0 \/ Z.of_nat (length m) <= r -> at2 m r c = 0.
Proof.
  intros Hr. unfold at2.
  destruct (js_index m r) as [row |] eqn:Hrow; [| reflexivity].
  apply js_index_Some in Hrow as [H0 Hl]. apply lookup_lt_Some in Hl. lia.
Qed.

Lemma board_at_lookup (b : Board) (i c : nat) (row : list jsval) (v : jsval) :
  b !! i = Some row -> row !! c = Some v ->
  board_at b (Z.of_nat i) (Z.of_nat c) = v.
Proof.
  intros Hi Hc. unfold board_at.
  assert (js_index b (Z.of_nat i) = Some row) as ->
    by (apply js_index_Some; rewrite Nat2Z.id; split; [lia | exact Hi]).
  simpl.
  assert (js_index row (Z.of_nat c) = Some v) as ->
    by (apply js_index_Some; rewrite Nat2Z.id; split; [lia | exact Hc]).
  reflexivity.
Qed.

(** Locking a piece completes rows only among the four rows it spans. *)
Lemma lock_completes_at_most_4 (b b' : Board) (p : Piece) :
  board_ok b -> Forall (fun row => every_not_zero row = false) b ->
  matrix4 (shape p) -> 0 <= y p ->
  board_ok b' ->
  (forall r c, 0 <= r ->
     board_at b' r c
     = if negb (at2 (shape p) (r - y p) (c - x p) =? 0)
       then JStr (color p) else board_at b r c) ->
  (completedCount b' <= 4)%nat.
Proof.
  intros [Hlen Hrows] Hnc [Hm4 _] Hy [Hlen' Hrows'] Hat.
  unfold completedCount.
  apply (filter_window _ b' (Z.to_nat (y p)) 4).
  intros i row' Hi Hfull.
  destruct (Z.ltb_spec (Z.of_nat i) (y p)) as [Hlo | Hlo];
    [| destruct (Z.ltb_spec (Z.of_nat i) (y p + 4)) as [Hhi | Hhi]; [lia |]].
  all: exfalso.
  all: assert (i < length b)%nat as Hib
      by (apply lookup_lt_Some in Hi; lia).
  all: destruct (lookup_lt_is_Some_2 b i Hib) as (row & Hrow).
  all: pose proof (proj1 (Forall_lookup _ _) Hnc i row Hrow) as Hinc;
    simpl in Hinc.
  all: destruct (incomplete_has_zero row Hinc) as (c & Hc).
  all: pose proof (proj1 (Forall_lookup _ _) Hrows i row Hrow) as [Hw _].
  all: pose proof (proj1 (Forall_lookup _ _) Hrows' i row' Hi) as [Hw' _].
  all: assert (c < length row')%nat as Hcl
      by (apply lookup_lt_Some in Hc; lia).
  all: destruct (lookup_lt_is_Some_2 row' c Hcl) as (v' & Hv').
  all: pose proof (board_at_lookup b' i c row' v' Hi Hv') as H1.
  all: pose proof (board_at_lookup b i c row (JNum 0) Hrow Hc) as H2.
  all: rewrite Hat in H1 by lia.
  all: rewrite at2_outside_rows in H1 by (rewrite Hm4; simpl; lia).
  all: simpl in H1; rewrite H2 in H1; subst v'.
  all: exact (complete_no_zero row' c Hfull Hv').
Qed.

Lemma updateScore_total (g : TetrisGame) (n : Z) :
  0 <= n <= 4 -> stats_ok g ->
  exists g', updateScore g n = Some g'
    /\ board g' = board g /\ currentPiece g' = currentPiece g
    /\ nextPiece g' = nextPiece g
    /\ gameRunning g' = gameRunning g /\ gamePaused g' = gamePaused g
    /\ score g' = score g + scoreForClear n (level g)
    /\ lines g' = lines g + n
    /\ stats_ok g'.
Proof.
  intros Hn Hst.
  assert (exists g', updateScore g n = Some g'
            /\ board g' = board g /\ currentPiece g' = currentPiece g
            /\ nextPiece g' = nextPiece g
            /\ gameRunning g' = gameRunning g /\ gamePaused g' = gamePaused g
            /\ score g' = score g + scoreForClear n (level g)
            /\ lines g' = lines g + n)
    as (g' & Hup & Hrest).
  { unfold updateScore, scoreForClear.
    assert (n = 0 \/ n = 1 \/ n = 2 \/ n = 3 \/ n = 4) as Hc by lia.
    destruct Hc as [-> | [-> | [-> | [-> | ->]]]]; simpl;
      [eexists; split; [reflexivity | repeat split; lia] | | | |];
      match goal with
      | |- context [if ?c then _ else _] => destruct c
      end; eexists; (split; [reflexivity | simpl; repeat split; lia]). }
  exists g'. split; [exact Hup |].
  destruct Hrest as (H1 & H2 & H3 & H4 & H5 & H6 & H7).
  repeat (split; [assumption |]).
  exact (stats_ok_updateScore g g' n Hst Hup).
Qed.

Lemma stats_ok_same (g g' : TetrisGame) :
  lines g' = lines g -> level g' = level g -> dropInterval g' = dropInterval g ->
  stats_ok g -> stats_ok g'.
Proof. unfold stats_ok. intros -> -> ->. auto. Qed.

(** What [spawnNewPiece] leaves behind. *)
Lemma spawnNewPiece_ok (g : TetrisGame) (rnd : TetrominoName) :
  board_ok (board g) ->
  Forall (fun row => every_not_zero row = false) (board g) ->
  (exists t, nextPiece g = createPiece t) -> stats_ok g ->
  game_ok (spawnNewPiece g rnd)
  /\ gamePaused (spawnNewPiece g rnd) = gamePaused g
  /\ board (spawnNewPiece g rnd) = board g
  /\ currentPiece (spawnNewPiece g rnd) = nextPiece g
  /\ nextPiece (spawnNewPiece g rnd) = createPiece rnd.
Proof.
  intros Hb Hnc (t & Ht) Hst.
  pose proof (spawnNewPiece_stats g rnd) as (S1 & S2 & S3 & _).
  assert (stats_ok (spawnNewPiece g rnd)) as Hst'
    by (apply (stats_ok_same g); assumption).
  revert Hst'. unfold spawnNewPiece. simpl. rewrite Ht.
  destruct (checkCollision (board g) (createPiece t) 0 0) eqn:Hcol;
    intros Hst'; (split; [| repeat split; try reflexivity; exact Ht]).
  - split; [exact Hb |]. split; [exact Hnc |].
    split; [apply piece_ok_createPiece |].
    split; [exists rnd; reflexivity |]. split; [simpl; lia |].
    split; [exact Hst' |]. simpl. discriminate.
  - split; [exact Hb |]. split; [exact Hnc |].
    split; [apply piece_ok_createPiece |].
    split; [exists rnd; reflexivity |]. split; [simpl; lia |].
    split; [exact Hst' |]. intros _. exact Hcol.
Qed.

(** What [placePiece] leaves behind, for a piece that does not collide. *)
Lemma placePiece_ok (g : TetrisGame) (rnd : TetrominoName) :
  game_ok g -> checkCollision (board g) (currentPiece g) 0 0 = false ->
  exists g' b' n,
    placePiece g rnd = Some g'
    /\ lockCells (board g) (currentPiece g) = Some b'
    /\ clearLines_board b' = Some (board g', n)
    /\ 0 <= n <= 4
    /\ game_ok g'
    /\ gamePaused g' = gamePaused g
    /\ score g' = score g + scoreForClear n (level g)
    /\ lines g' = lines g + n
    /\ currentPiece g' = nextPiece g
    /\ nextPiece g' = createPiece rnd.
Proof.
  intros (Hb & Hnc & (Hm & Hh & (t & Hc)) & Hn & Hy & Hst & _) Hfree.
  destruct (lockCells_spec (board g) (currentPiece g) t Hb Hm Hc Hfree)
    as (b' & Hlock & Hb' & Hat).
  pose proof (lock_completes_at_most_4 _ _ _ Hb Hnc Hm Hy Hb' Hat) as H4.
  destruct Hb' as [Hlen' Hrows'].
  pose proof (clearLines_board_spec b' Hlen') as Hclear.
  assert (board_ok (withoutCompleted b')) as Hwb
    by (apply withoutCompleted_ok; split; assumption).
  pose proof (withoutCompleted_none_complete b') as Hwnc.
  set (g1 := set_board (set_board g b') (withoutCompleted b')).
  assert (stats_ok g1) as Hst1 by exact Hst.
  assert (exists g2, clearLines (set_board g b') = Some g2
            /\ board g2 = withoutCompleted b'
            /\ nextPiece g2 = nextPiece g
            /\ gamePaused g2 = gamePaused g /\ stats_ok g2
            /\ score g2
               = score g + scoreForClear (Z.of_nat (completedCount b')) (level g)
            /\ lines g2 = lines g + Z.of_nat (completedCount b'))
    as (g2 & Hcl & Hb2 & Hn2 & Hp2 & Hst2 & Hsc2 & Hln2).
  { unfold clearLines. simpl. rewrite Hclear. simpl. fold g1.
    destruct (Z.gtb_spec (Z.of_nat (completedCount b')) 0).
    - destruct (updateScore_total g1 (Z.of_nat (completedCount b'))
                  ltac:(lia) Hst1)
        as (g2 & Hup & E1 & E2 & E3 & E4 & E5 & E6 & E7 & E8).
      exists g2. split; [exact Hup |]. simpl in E1, E3, E5, E6, E7. auto 10.
    - exists g1. split; [reflexivity |]. simpl.
      replace (Z.of_nat (completedCount b')) with 0 by lia.
      split; [reflexivity |]. split; [reflexivity |]. split; [reflexivity |].
      split; [exact Hst1 |]. unfold scoreForClear. simpl. split; lia. }
  destruct (spawnNewPiece_ok g2 rnd) as (Hok & Hp & Hbd & Hcur' & Hnext').
  { rewrite Hb2. exact Hwb. }
  { rewrite Hb2. exact Hwnc. }
  { rewrite Hn2. exact Hn. }
  { exact Hst2. }
  pose proof (spawnNewPiece_stats g2 rnd) as (S1 & _ & _ & S4).
  exists (spawnNewPiece g2 rnd), b', (Z.of_nat (completedCount b')).
  split; [unfold placePiece; rewrite Hlock; simpl; rewrite Hcl; reflexivity |].
  split; [exact Hlock |].
  split; [rewrite Hbd, Hb2; exact Hclear |].
  split; [lia |]. split; [exact Hok |].
  split; [congruence |]. split; [congruence |]. split; [congruence |].
  split; [congruence | exact Hnext'].
Qed.

Lemma gameLoop_ok (g : TetrisGame) (due : bool) (rnd : TetrominoName) :
  game_ok g -> exists g', gameLoop g due rnd = Some g' /\ game_ok g'.
Proof.
  intros Hok. unfold gameLoop.
  destruct (gameRunning g) eqn:Hrun; simpl; [| exists g; auto].
  destruct (gamePaused g); simpl; [exists g; auto |].
  destruct due; [| exists g; auto].
  pose proof (movePiece_ok g 0 1 Hok ltac:(lia)) as (Hmv & _).
  unfold movePiece in *.
  destruct (checkCollision (board g) (currentPiece g) 0 1); simpl in *.
  - pose proof Hok as (_ & _ & _ & _ & _ & _ & Hfree).
    destruct (placePiece_ok g rnd Hok (Hfree Hrun))
      as (g' & _ & _ & Hpl & _ & _ & _ & Hok' & _).
    exists g'. auto.
  - eexists. split; [reflexivity | exact Hmv].
Qed.

Lemma hardDrop_ok (g : TetrisGame) (rnd : TetrominoName) :
  game_ok g -> gameRunning g = true ->
  exists g', hardDrop (hardDrop_fuel g) g rnd = Some g' /\ game_ok g'
             /\ gamePaused g' = gamePaused g.
Proof.
  intros Hok Hrun.
  pose proof Hok as (Hb & Hnc & (Hm & Hh & Hc) & Hn & Hy & Hst & Hfree).
  destruct (hardDrop_loop_spec (hardDrop_fuel g) g Hh (Hfree Hrun))
    as (y' & Hloop & Hle & _ & Hall).
  { unfold hardDrop_fuel. lia. }
  set (g1 := set_currentPiece g _) in Hloop.
  assert (game_ok g1) as Hok1.
  { apply game_ok_set_piece; [exact Hok | | simpl; lia |].
    - split; [exact Hm |]. split; [exact Hh | exact Hc].
    - intros _. apply Hall. lia. }
  destruct (placePiece_ok g1 rnd Hok1)
    as (g' & _ & _ & Hpl & _ & _ & _ & Hok' & Hp & _).
  { simpl. apply Hall. lia. }
  exists g'. unfold hardDrop. rewrite Hloop. simpl.
  split; [exact Hpl |]. split; [exact Hok' | exact Hp].
Qed.

Lemma togglePause_ok (g : TetrisGame) : game_ok g -> game_ok (togglePause g).
Proof.
  intros Hok. unfold togglePause. destruct (gameRunning g) eqn:Hrun; simpl;
    [| exact Hok].
  destruct Hok as (H1 & H2 & H3 & H4 & H5 & H6 & H7).
  repeat (split; [assumption |]). simpl. intros _. apply H7. exact Hrun.
Qed.

Lemma startNewGame_ok (g : TetrisGame) (rnd1 rnd2 : TetrominoName) :
  game_ok (startNewGame g rnd1 rnd2).
Proof.
  unfold startNewGame.
  refine (proj1 (spawnNewPiece_ok _ rnd2 _ _ _ _)); simpl.
  - apply createEmptyBoard_ok.
  - unfold createEmptyBoard. apply Forall_replicate. reflexivity.
  - exists rnd1. reflexivity.
  - unfold stats_ok. simpl. split; [lia |]. split; reflexivity.
Qed.

Lemma handle_ok (g : TetrisGame) (e : Event) :
  game_ok g -> exists g', handle g e = Some g' /\ game_ok g'.
Proof.
  intros Hok. destruct e as [code rnd | due rnd | due rnd | rnd1 rnd2 rnd3]; simpl.
  - unfold handleKeyPress.
    destruct (gameRunning g) eqn:Hrun; simpl; [| exists g; auto].
    destruct (gamePaused g); simpl; [exists g; auto |].
    destruct code.
    + eexists. split; [reflexivity | apply movePiece_ok; [exact Hok | lia]].
    + eexists. split; [reflexivity | apply movePiece_ok; [exact Hok | lia]].
    + eexists. split; [reflexivity | apply movePiece_ok; [exact Hok | lia]].
    + eexists. split; [reflexivity | apply rotatePiece_ok; exact Hok].
    + destruct (hardDrop_ok g rnd Hok Hrun) as (g' & H1 & H2 & _).
      exists g'. auto.
    + eexists. split; [reflexivity | apply togglePause_ok; exact Hok].
    + exists g. auto.
  - apply gameLoop_ok. exact Hok.
  - unfold pauseClick.
    destruct (gameRunning g) eqn:Hrun; simpl; [| exists g; auto].
    destruct (negb (gamePaused (togglePause g)));
      [apply gameLoop_ok, togglePause_ok; exact Hok |].
    eexists. split; [reflexivity | apply togglePause_ok; exact Hok].
  - unfold newGameClick. apply gameLoop_ok, startNewGame_ok.
Qed.

Lemma game_start_ok : game_ok game_start.
Proof. apply startNewGame_ok. Defined.

Lemma game_first_frame_playing : playing game_first_frame.
Proof.
  apply (playing_new sample_game PT PO PI). vm_compute. reflexivity.
Defined.

End ExamplesPlay.

(** Every entry of a 4x4 matrix is there to read. *)
Lemma matrix4_entry (m : list (list Z)) (i j : Z) :
  Examples.matrix4 m -> 0 <= i < 4 -> 0 <= j < 4 ->
  exists row, js_index m i = Some row /\ js_index row j = Some (at2 m i j).
Proof.
  intros [Hlen Hrows] Hi Hj.
  destruct (js_index_lt m i ltac:(lia)) as [row Hrow].
  assert (length row = 4%nat) as Hrl.
  { apply js_index_Some in Hrow as [_ Hrow].
    exact (Forall_lookup_1 _ _ _ _ Hrows Hrow). }
  destruct (js_index_lt row j ltac:(lia)) as [v Hv].
  exists row. split; [exact Hrow |].
  rewrite (at2_Some m i j row v Hrow Hv). exact Hv.
Qed.

(** [rotateMatrix] turns a 4x4 shape a quarter clockwise: every entry
    [matrix[i][j]] the loop reads is there, and goes from row [i], column
    [j] to row [j], column [3 - i].  The result is a 4x4 matrix with as many
    blocks as the shape had.  (On a matrix that is not 4x4 the source reads
    outside an array.) *)
Theorem rotateMatrix_turns (m : list (list Z)) (i j : Z) :
  Examples.matrix4 m ->
  0 <= i < 4 -> 0 <= j < 4 ->
  (exists row, js_index m i = Some row /\ js_index row j = Some (at2 m i j))
  /\ at2 (Examples.rotateMatrix m) j (3 - i) = at2 m i j
  /\ Examples.matrix4 (Examples.rotateMatrix m)
  /\ Examples.blockCount (Examples.rotateMatrix m) = Examples.blockCount m.
Proof.
  intros Hm Hi Hj.
  split; [exact (matrix4_entry m i j Hm Hi Hj) |].
  split; [apply rotateMatrix_at; assumption |].
  split; [apply rotateMatrix_matrix4 | apply rotateMatrix_blockCount].
Qed.

Lemma rotateMatrix_turns_witness :
  (exists row,
     js_index (Examples.TETROMINOS_shape Examples.PL) 1 = Some row
     /\ js_index row 2 = Some (at2 (Examples.TETROMINOS_shape Examples.PL) 1 2))
  /\ at2 (Examples.rotateMatrix (Examples.TETROMINOS_shape Examples.PL)) 2 (3 - 1)
     = at2 (Examples.TETROMINOS_shape Examples.PL) 1 2
  /\ Examples.matrix4 (Examples.rotateMatrix (Examples.TETROMINOS_shape Examples.PL))
  /\ Examples.blockCount (Examples.rotateMatrix (Examples.TETROMINOS_shape Examples.PL))
     = Examples.blockCount (Examples.TETROMINOS_shape Examples.PL).
Proof.
  apply (rotateMatrix_turns (Examples.TETROMINOS_shape Examples.PL) 1 2);
    [split; [reflexivity | repeat constructor] | lia | lia].
Defined.

(** The loop of [hardDrop] ends within [hardDrop_fuel] iterations: the
    piece goes straight down, through positions that do not collide, to the
    first row from which one more step down collides, and that row is on
    the board. *)
Theorem hardDrop_lands (g : Examples.TetrisGame) :
  Examples.game_ok g -> Examples.gameRunning g = true ->
  let p := Examples.currentPiece g in
  exists y',
    Examples.hardDrop_loop (Examples.hardDrop_fuel g) g
    = Some (Examples.set_currentPiece g
              (Examples.mkPiece (Examples.shape p) (Examples.color p)
                                (Examples.x p) y'))
    /\ Examples.y p <= y' < Examples.BOARD_HEIGHT
    /\ Examples.checkCollision (Examples.board g)
         (Examples.mkPiece (Examples.shape p) (Examples.color p)
                           (Examples.x p) y') 0 1 = true
    /\ forall k, Examples.y p <= k <= y' ->
         Examples.checkCollision (Examples.board g)
           (Examples.mkPiece (Examples.shape p) (Examples.color p)
                             (Examples.x p) k) 0 0 = false.
Proof.
  intros Hok Hrun p.
  pose proof Hok as (_ & _ & (_ & Hh & _) & _ & _ & _ & Hfree).
  destruct (hardDrop_loop_spec (Examples.hardDrop_fuel g) g Hh (Hfree Hrun))
    as (y' & Hloop & Hle & Hstop & Hall).
  { unfold Examples.hardDrop_fuel. lia. }
  exists y'. split; [exact Hloop |]. split; [| split; [exact Hstop | exact Hall]].
  split; [exact Hle |].
  apply (above_floor (Examples.board g)
           (Examples.mkPiece (Examples.shape p) (Examples.color p)
                             (Examples.x p) y')); [exact Hh |].
  subst p. apply Hall. lia.
Qed.

Lemma hardDrop_lands_witness :
  let p := Examples.currentPiece game_start in
  exists y',
    Examples.hardDrop_loop (Examples.hardDrop_fuel game_start) game_start
    = Some (Examples.set_currentPiece game_start
              (Examples.mkPiece (Examples.shape p) (Examples.color p)
                                (Examples.x p) y'))
    /\ Examples.y p <= y' < Examples.BOARD_HEIGHT
    /\ Examples.checkCollision (Examples.board game_start)
         (Examples.mkPiece (Examples.shape p) (Examples.color p)
                           (Examples.x p) y') 0 1 = true
    /\ forall k, Examples.y p <= k <= y' ->
         Examples.checkCollision (Examples.board game_start)
           (Examples.mkPiece (Examples.shape p) (Examples.color p)
                             (Examples.x p) k) 0 0 = false.
Proof.
  apply (hardDrop_lands game_start).
  - apply game_start_ok.
  - reflexivity.
Defined.

(** Locking a piece that does not collide never fails, and it clears at
    most four lines: the cells are written, between 0 and 4 complete rows
    are removed, the score grows by the table points of that count times
    the level, the line count by the count, and the next piece becomes the
    current one.  The game that results satisfies the invariant again. *)
Theorem placePiece_clears_at_most_4 (g : Examples.TetrisGame)
    (rnd : Examples.TetrominoName) :
  Examples.game_ok g ->
  Examples.checkCollision (Examples.board g) (Examples.currentPiece g) 0 0
  = false ->
  exists g' b' n,
    Examples.placePiece g rnd = Some g'
    /\ Examples.lockCells (Examples.board g) (Examples.currentPiece g) = Some b'
    /\ Examples.clearLines_board b' = Some (Examples.board g', n)
    /\ 0 <= n <= 4
    /\ Examples.game_ok g'
    /\ Examples.gamePaused g' = Examples.gamePaused g
    /\ Examples.score g' = Examples.score g + scoreForClear n (Examples.level g)
    /\ Examples.lines g' = Examples.lines g + n
    /\ Examples.currentPiece g' = Examples.nextPiece g
    /\ Examples.nextPiece g' = Examples.createPiece rnd.
Proof.
  intros Hok Hfree. exact (placePiece_ok g rnd Hok Hfree).
Qed.

Lemma placePiece_clears_at_most_4_witness :
  exists g' b' n,
    Examples.placePiece game_start Examples.PI = Some g'
    /\ Examples.lockCells (Examples.board game_start)
                          (Examples.currentPiece game_start) = Some b'
    /\ Examples.clearLines_board b' = Some (Examples.board g', n)
    /\ 0 <= n <= 4
    /\ Examples.game_ok g'
    /\ Examples.gamePaused g' = Examples.gamePaused game_start
    /\ Examples.score g'
       = Examples.score game_start + scoreForClear n (Examples.level game_start)
    /\ Examples.lines g' = Examples.lines game_start + n
    /\ Examples.currentPiece g' = Examples.nextPiece game_start
    /\ Examples.nextPiece g' = Examples.createPiece Examples.PI.
Proof.
  apply (placePiece_clears_at_most_4 game_start Examples.PI).
  - apply game_start_ok.
  - vm_compute. reflexivity.
Defined.

(** Every game a page can be in satisfies the game invariant: the board
    is 20 rows of 10 cells holding 0 or a tetromino colour, no row of it is
    complete, the current piece is a 4x4 shape with a block at a row from 0
    on, the next piece is a fresh tetromino, the level is in step with the
    lines, and while the game runs the current piece collides with
    nothing. *)
Theorem playing_game_ok (g : Examples.TetrisGame) :
  Examples.playing g -> Examples.game_ok g.
Proof.
  induction 1 as [g0 rnd1 rnd2 rnd3 g Hnew | g e g' Hplay IH Hstep].
  - unfold Examples.newGameClick in Hnew.
    destruct (gameLoop_ok (Examples.startNewGame g0 rnd1 rnd2) true rnd3
                (startNewGame_ok g0 rnd1 rnd2)) as (g1 & H1 & Hok).
    congruence.
  - destruct (handle_ok g e IH) as (g1 & H1 & Hok). congruence.
Qed.

Lemma playing_game_ok_witness : Examples.game_ok game_first_frame.
Proof.
  apply (playing_game_ok game_first_frame). apply game_first_frame_playing.
Defined.

(** A game at play answers every event: no key, frame or click runs into a
    missing row, a score that is not a number, or a hard drop that does not
    end; and the game it leads to is at play again. *)
Theorem playing_never_stuck (g : Examples.TetrisGame) (e : Examples.Event) :
  Examples.playing g ->
  exists g', Examples.handle g e = Some g' /\ Examples.playing g'.
Proof.
  intros Hplay.
  assert (Examples.game_ok g) as Hok.
  { induction Hplay as [g0 rnd1 rnd2 rnd3 g Hnew | g e0 g' Hplay IH Hstep].
    - unfold Examples.newGameClick in Hnew.
      destruct (gameLoop_ok (Examples.startNewGame g0 rnd1 rnd2) true rnd3
                  (startNewGame_ok g0 rnd1 rnd2)) as (g1 & H1 & Hok).
      congruence.
    - destruct (handle_ok g e0 IH) as (g1 & H1 & Hok). congruence. }
  destruct (handle_ok g e Hok) as (g' & Hstep & _).
  exists g'. split; [exact Hstep |].
  exact (Examples.playing_event g e g' Hplay Hstep).
Qed.

Lemma playing_never_stuck_witness :
  exists g',
    Examples.handle game_first_frame (Examples.EKey Examples.Space Examples.PZ)
    = Some g'
    /\ Examples.playing g'.
Proof.
  apply (playing_never_stuck game_first_frame
           (Examples.EKey Examples.Space Examples.PZ)).
  apply game_first_frame_playing.
Defined.

(** * Line clearing of my-work with several complete rows *)

Section ClearLinesShift.
Import MyWork.

Lemma findCompletedLines_elem (gb : GameBoard) (row : Z) :
  row ∈ findCompletedLines gb <->
  isLineComplete gb row = true /\ 0 <= row < height gb.
Proof.
  rewrite findCompletedLines_unsorted, list_elem_of_filter.
  rewrite elem_of_reverse, elem_of_seqZ. split.
  - intros [H1 H2]. split; [exact H1 | lia].
  - intros [H1 H2]. split; [exact H1 | lia].
Qed.

Lemma findCompletedLines_descending (gb : GameBoard) (i j : nat) (x y : Z) :
  findCompletedLines gb !! i = Some x ->
  findCompletedLines gb !! j = Some y ->
  (i < j)%nat -> y < x.
Proof.
  rewrite findCompletedLines_unsorted. apply filter_descending.
  destruct (Z.le_gt_cases 0 (height gb)) as [Hh | Hh].
  - rewrite <- (Z2Nat.id (height gb) Hh). apply reverse_seqZ_descending.
  - rewrite seqZ_nil by lia. intros i' j' x' y' Hi. discriminate Hi.
Qed.

(** Removing rows at or above [k] leaves the row under [k] alone. *)
Lemma removeLines_keep_row (gb0 : GameBoard) (k : Z) (l : list Z) (gb : GameBoard) :
  (forall i, i ∈ l -> 0 <= i <= k) -> k + 1 < height gb0 ->
  grid_ok gb -> width gb = width gb0 -> height gb = height gb0 ->
  let gb' := foldl removeLine gb l in
  grid_ok gb' /\ width gb' = width gb0 /\ height gb' = height gb0
  /\ forall c, 0 <= c < width gb0 ->
       at2 (board gb') (k + 1) c = at2 (board gb) (k + 1) c.
Proof.
  revert gb. induction l as [| i l IH]; intros gb Hl Hk Hg Hw Hh; simpl.
  - auto.
  - assert (0 <= i <= k) as Hi by (apply Hl; left).
    destruct (grid_ok_removeLine gb i Hg) as (Hg1 & Hw1 & Hh1).
    destruct (removeLine_at2 gb i (grid_ok_validateBoard gb Hg) ltac:(lia))
      as (_ & _ & _ & _ & Hat).
    destruct (IH (removeLine gb i)) as (Hg2 & Hw2 & Hh2 & Hat2);
      [intros j Hj; apply Hl; right; exact Hj | exact Hk | exact Hg1
       | congruence | congruence |].
    split; [exact Hg2 |]. split; [exact Hw2 |]. split; [exact Hh2 |].
    intros c Hc. rewrite (Hat2 c Hc). rewrite Hat by lia.
    destruct (Z.eqb_spec (k + 1) 0); [lia |].
    destruct (Z.leb_spec (k + 1) i); [lia |].
    rewrite andb_false_r. reflexivity.
Qed.

End ClearLinesShift.

(** When two or more rows of the board are complete, [clearLines] returns
    their number but does not remove them all: the second complete row from
    the bottom is still on the board afterwards, one row further down, so
    the board still has a complete row. *)
Theorem clearLines_leaves_complete_row (gb : MyWork.GameBoard)
    (l1 l2 : Z) (rest : list Z) :
  MyWork.grid_ok gb ->
  MyWork.findCompletedLines gb = l1 :: l2 :: rest ->
  let gb' := snd (MyWork.clearLines gb) in
  fst (MyWork.clearLines gb) = 2 + Z.of_nat (length rest)
  /\ l2 + 1 <= l1 < MyWork.height gb
  /\ (forall c, 0 <= c < MyWork.width gb ->
        at2 (MyWork.board gb') (l2 + 1) c = at2 (MyWork.board gb) l2 c)
  /\ MyWork.isLineComplete gb' (l2 + 1) = true
  /\ MyWork.findCompletedLines gb' <> [].
Proof.
  intros Hg Hfind gb'.
  pose proof (grid_ok_validateBoard gb Hg) as Hv.
  assert (MyWork.isLineComplete gb l1 = true /\ 0 <= l1 < MyWork.height gb)
    as [_ Hl1].
  { apply findCompletedLines_elem. rewrite Hfind. left. }
  assert (MyWork.isLineComplete gb l2 = true /\ 0 <= l2 < MyWork.height gb)
    as [Hc2 Hl2].
  { apply findCompletedLines_elem. rewrite Hfind. right. left. }
  assert (l2 < l1) as Hlt.
  { apply (findCompletedLines_descending gb 0 1); rewrite ?Hfind;
      [reflexivity | reflexivity | lia]. }
  assert (forall i, i ∈ l2 :: rest -> 0 <= i <= l2) as Hrest.
  { intros i Hi. apply list_elem_of_lookup_1 in Hi as [n Hn].
    assert (i ∈ MyWork.findCompletedLines gb) as Hin
      by (rewrite Hfind; apply (list_elem_of_lookup_2 _ (S n)); exact Hn).
    apply findCompletedLines_elem in Hin as [_ Hr].
    destruct n as [| n]; [simpl in Hn; inversion Hn; lia |].
    assert (i < l2); [| lia].
    apply (findCompletedLines_descending gb 1 (S (S n))); rewrite ?Hfind;
      [reflexivity | exact Hn | lia]. }
  destruct (grid_ok_removeLine gb l1 Hg) as (Hg1 & Hw1 & Hh1).
  destruct (removeLine_at2 gb l1 Hv Hl1) as (_ & _ & _ & _ & Hat1).
  destruct (removeLines_keep_row gb l2 (l2 :: rest) (MyWork.removeLine gb l1)
              Hrest ltac:(lia) Hg1 Hw1 Hh1) as (Hg2 & Hw2 & Hh2 & Hat2).
  assert (snd (MyWork.clearLines gb)
          = foldl MyWork.removeLine (MyWork.removeLine gb l1) (l2 :: rest)
          /\ fst (MyWork.clearLines gb) = 2 + Z.of_nat (length rest))
    as [Hsnd Hfst].
  { unfold MyWork.clearLines. rewrite Hfind. simpl. split; [reflexivity | lia]. }
  assert (forall c, 0 <= c < MyWork.width gb ->
            at2 (MyWork.board gb') (l2 + 1) c = at2 (MyWork.board gb) l2 c)
    as Hrow.
  { intros c Hc. unfold gb'. rewrite Hsnd, (Hat2 c Hc), (Hat1 _ c Hc).
    destruct (Z.eqb_spec (l2 + 1) 0); [lia |].
    destruct (Z.leb_spec 1 (l2 + 1)); [| lia].
    destruct (Z.leb_spec (l2 + 1) l1); [| lia].
    simpl. f_equal. lia. }
  assert (MyWork.isLineComplete gb' (l2 + 1) = true) as Hstill.
  { apply isLineComplete_spec. unfold gb'. rewrite Hsnd, Hw2, Hh2.
    split; [lia |]. intros c Hc.
    fold gb' in Hrow. unfold gb' in Hrow. rewrite Hsnd in Hrow.
    rewrite (Hrow c Hc).
    apply (proj1 (isLineComplete_spec gb l2) Hc2). exact Hc. }
  split; [exact Hfst |]. split; [lia |]. split; [exact Hrow |].
  split; [exact Hstill |].
  intros Hnil.
  assert (l2 + 1 ∈ MyWork.findCompletedLines gb') as Hin.
  { apply findCompletedLines_elem. split; [exact Hstill |].
    unfold gb'. rewrite Hsnd, Hh2. lia. }
  rewrite Hnil in Hin. inversion Hin.
Qed.

Lemma clearLines_leaves_complete_row_witness :
  let gb' := snd (MyWork.clearLines two_full_rows) in
  fst (MyWork.clearLines two_full_rows) = 2 + Z.of_nat (length (@nil Z))
  /\ 18 + 1 <= 19 < MyWork.height two_full_rows
  /\ (forall c, 0 <= c < MyWork.width two_full_rows ->
        at2 (MyWork.board gb') (18 + 1) c = at2 (MyWork.board two_full_rows) 18 c)
  /\ MyWork.isLineComplete gb' (18 + 1) = true
  /\ MyWork.findCompletedLines gb' <> [].
Proof.
  apply (clearLines_leaves_complete_row two_full_rows 19 18 []).
  - split; [reflexivity |].
    unfold two_full_rows, MyWork.rows_ok. simpl.
    repeat (constructor;
            [split; [reflexivity | repeat (constructor; [lia |]); constructor] |]).
    constructor.
  - vm_compute. reflexivity.
Defined.

(** * Counting the filled cells of the my-work board *)

Section FilledCount.
Import MyWork.

Lemma count_shift {A} (f : A -> bool) (l : list A) (init k : Z) :
  foldl (fun count a => if f a then count + 1 else count) (init + k) l
  = foldl (fun count a => if f a then count + 1 else count) init l + k.
Proof.
  revert init. induction l as [| a l IH]; intros init; simpl; [reflexivity |].
  destruct (f a); [| apply IH].
  replace (init + k + 1) with (init + 1 + k) by lia. apply IH.
Qed.

Lemma count_none {A} (f : A -> bool) (l : list A) (init : Z) :
  (forall a, a ∈ l -> f a = false) ->
  foldl (fun count a => if f a then count + 1 else count) init l = init.
Proof.
  revert init. induction l as [| a l IH]; intros init Hf; simpl; [reflexivity |].
  rewrite (Hf a) by left. apply IH. intros b Hb. apply Hf. right. exact Hb.
Qed.

Lemma count_or {A} (f d g : A -> bool) (l : list A) (init : Z) :
  (forall a, a ∈ l -> g a = d a || f a) ->
  (forall a, a ∈ l -> d a = true -> f a = false) ->
  foldl (fun count a => if g a then count + 1 else count) init l
  = foldl (fun count a => if f a then count + 1 else count) init l
    + foldl (fun count a => if d a then count + 1 else count) 0 l.
Proof.
  revert init. induction l as [| a l IH]; intros init Hg Hd; simpl; [lia |].
  assert (forall b, b ∈ l -> g b = d b || f b) as Hg'
    by (intros b Hb; apply Hg; right; exact Hb).
  assert (forall b, b ∈ l -> d b = true -> f b = false) as Hd'
    by (intros b Hb; apply Hd; right; exact Hb).
  rewrite (Hg a) by left.
  destruct (d a) eqn:Hda; simpl.
  - rewrite (Hd a) by (left || exact Hda).
    rewrite (IH (init + 1) Hg' Hd'), (count_shift d l 0 1),
      (count_shift f l init 1). lia.
  - destruct (f a); apply IH; assumption.
Qed.

Lemma count_single {A} `{EqDecision A} (p : A) (l : list A) :
  NoDup l -> p ∈ l ->
  foldl (fun count a => if bool_decide (a = p) then count + 1 else count) 0 l = 1.
Proof.
  induction l as [| a l IH]; intros Hnd Hin; [inversion Hin |].
  apply NoDup_cons in Hnd as [Hna Hnd]. simpl.
  destruct (decide (a = p)) as [-> | Hne].
  - rewrite bool_decide_eq_true_2 by reflexivity.
    apply count_none. intros b Hb. apply bool_decide_eq_false_2.
    intros ->. contradiction.
  - rewrite bool_decide_eq_false_2 by exact Hne.
    apply IH; [exact Hnd |].
    apply elem_of_cons in Hin as [-> | Hin]; [contradiction | exact Hin].
Qed.

Lemma count_members {A} `{EqDecision A} (pts l : list A) :
  NoDup pts -> NoDup l -> (forall p, p ∈ pts -> p ∈ l) ->
  foldl (fun count a => if bool_decide (a ∈ pts) then count + 1 else count) 0 l
  = Z.of_nat (length pts).
Proof.
  intros Hpts Hl. induction pts as [| p pts IH]; intros Hsub.
  - apply count_none. intros a _. apply bool_decide_eq_false_2. inversion 1.
  - apply NoDup_cons in Hpts as [Hnp Hpts].
    rewrite (count_or (fun a => bool_decide (a ∈ pts))
               (fun a => bool_decide (a = p))).
    + rewrite IH; [| exact Hpts | intros q Hq; apply Hsub; right; exact Hq].
      rewrite (count_single p l Hl) by (apply Hsub; left).
      simpl length. lia.
    + intros a _. destruct (decide (a = p)) as [-> | Hne].
      * rewrite (bool_decide_eq_true_2 (p ∈ p :: pts)) by left.
        rewrite (bool_decide_eq_true_2 (p = p)) by reflexivity. reflexivity.
      * rewrite (bool_decide_eq_false_2 (a = p)) by exact Hne. simpl.
        apply bool_decide_ext. rewrite elem_of_cons. tauto.
    + intros a _ Ha. apply bool_decide_eq_true_1 in Ha. subst a.
      apply bool_decide_eq_false_2. exact Hnp.
Qed.

Lemma foldl_pointwise {A B} (f g : A -> B -> A) (l : list B) (a : A) :
  (forall a b, f a b = g a b) -> foldl f a l = foldl g a l.
Proof.
  intros Hfg. revert a. induction l as [| b l IH]; intros a; simpl;
    [reflexivity |].
  rewrite Hfg. apply IH.
Qed.

Lemma foldl_bind {A B C} (f : C -> B -> C) (g : A -> list B) (l : list A) (c : C) :
  foldl f c (l ≫= g) = foldl (fun c a => foldl f c (g a)) c l.
Proof.
  revert c. induction l as [| a l IH]; intros c; [reflexivity |].
  change ((a :: l) ≫= g) with (g a ++ (l ≫= g)).
  rewrite foldl_app. simpl. apply IH.
Qed.

Lemma getFilledCellCount_flat (gb : GameBoard) :
  getFilledCellCount gb
  = foldl (fun count a =>
             if at2 (board gb) (fst a) (snd a) >? 0 then count + 1 else count)
          0 (boardCells gb).
Proof.
  unfold getFilledCellCount, boardCells.
  rewrite foldl_bind. apply foldl_pointwise. intros count row.
  rewrite foldl_bind. reflexivity.
Qed.

Lemma elem_of_boardCells (gb : GameBoard) (r c : Z) :
  (r, c) ∈ boardCells gb <-> 0 <= r < height gb /\ 0 <= c < width gb.
Proof.
  unfold boardCells. rewrite list_elem_of_bind. split.
  - intros (row & Hin & Hrow).
    apply list_elem_of_bind in Hin as (col & Hin & Hcol).
    apply list_elem_of_singleton in Hin. inversion Hin; subst.
    apply elem_of_seqZ in Hrow, Hcol. lia.
  - intros [Hr Hc]. exists r. split; [| apply elem_of_seqZ; lia].
    apply list_elem_of_bind. exists c.
    split; [apply list_elem_of_singleton; reflexivity | apply elem_of_seqZ; lia].
Qed.

Lemma NoDup_boardCells (gb : GameBoard) : NoDup (boardCells gb).
Proof.
  unfold boardCells. apply NoDup_bind.
  - intros r1 r2 [r c] _ _ H1 H2.
    apply list_elem_of_bind in H1 as (c1 & H1 & _).
    apply list_elem_of_bind in H2 as (c2 & H2 & _).
    apply list_elem_of_singleton in H1, H2. congruence.
  - intros r _. apply NoDup_bind.
    + intros c1 c2 [r' c] _ _ H1 H2.
      apply list_elem_of_singleton in H1, H2. congruence.
    + intros c _. apply NoDup_singleton.
    + apply NoDup_seqZ.
  - apply NoDup_seqZ.
Qed.

Lemma filledBlocks_four (t : TetrominoType) (r : Z) :
  0 <= r < 4 ->
  length (getFilledBlocks (mkTetromino t r)) = 4%nat
  /\ NoDup (getFilledBlocks (mkTetromino t r)).
Proof.
  intros Hr.
  assert (r = 0 \/ r = 1 \/ r = 2 \/ r = 3) as Hc by lia.
  destruct Hc as [-> | [-> | [-> | ->]]]; destruct t;
    (split; [reflexivity |]);
    apply (bool_decide_unpack _); vm_compute; exact I.
Qed.

(** The filled cells after a placement: those of the piece and those that
    were filled before, the two being disjoint. *)
Lemma placePiece_count (gb : GameBoard) (piece : Tetromino) (x y : Z) :
  validateBoard gb = true -> 0 <= rotation piece < 4 ->
  isValidPosition gb piece x y = true ->
  let gb' := snd (placePiece gb piece x y) in
  width gb' = width gb /\ height gb' = height gb
  /\ getFilledCellCount gb' = getFilledCellCount gb + 4.
Proof.
  intros Hv Hr Hval gb'.
  destruct (getShape_in_range piece Hr) as (shape & Hs & Hne).
  pose proof (proj1 (isValidPosition_fits gb piece shape x y Hv Hs Hne) Hval)
    as Hfits.
  pose proof (typeColorId_range (type piece)) as Hrange.
  destruct (place_fold x y (typeColorId (type piece)) (cells shape) gb Hv
              ltac:(lia)) as (_ & Hw & Hh & Hat).
  assert (gb' = foldl (fun g '(row, col, v) =>
                         if v =? 1
                         then snd (setCellValue g (y + row) (x + col)
                                                (typeColorId (type piece)))
                         else g) gb (cells shape)) as Hgb'.
  { unfold gb', placePiece. rewrite Hval, Hs. simpl.
    unfold getColor. rewrite getColorId_type. reflexivity. }
  rewrite <- Hgb' in Hw, Hh, Hat.
  split; [exact Hw |]. split; [exact Hh |].
  set (pts := (fun '(i, j) => (y + i, x + j)) <$> getFilledBlocks piece).
  assert (forall r c, (r, c) ∈ pts <-> at2 shape (r - y) (c - x) = 1) as Hpts.
  { intros r c. unfold pts. rewrite list_elem_of_fmap. split.
    - intros ([i j] & Heq & Hin). inversion Heq; subst.
      apply (elem_of_getFilledBlocks piece shape i j Hs) in Hin.
      replace (y + i - y) with i by lia. replace (x + j - x) with j by lia.
      exact Hin.
    - intros H1. exists (r - y, c - x). split; [f_equal; lia |].
      apply (elem_of_getFilledBlocks piece shape _ _ Hs). exact H1. }
  rewrite (getFilledCellCount_flat gb'), (getFilledCellCount_flat gb).
  assert (boardCells gb' = boardCells gb) as ->
    by (unfold boardCells; rewrite Hw, Hh; reflexivity).
  rewrite (count_or (fun a => at2 (board gb) (fst a) (snd a) >? 0)
             (fun a => bool_decide (a ∈ pts))
             (fun a => at2 (board gb') (fst a) (snd a) >? 0)).
  - f_equal.
    destruct piece as [t r]. simpl in Hr.
    destruct (filledBlocks_four t r Hr) as [Hlen Hnd].
    rewrite count_members.
    + unfold pts. rewrite length_fmap, Hlen. reflexivity.
    + unfold pts. apply NoDup_fmap_2; [| exact Hnd].
      intros [i1 j1] [i2 j2] Heq. inversion Heq. f_equal; lia.
    + apply NoDup_boardCells.
    + intros [r0 c0] Hin. apply Hpts in Hin.
      destruct (Hfits (r0 - y) (c0 - x) ltac:(lia)) as (H1 & H2 & _).
      apply elem_of_boardCells. lia.
  - intros [r c] _. cbn [fst snd]. rewrite (Hat r c).
    rewrite (filled_cell_exists gb shape x y r c Hfits).
    destruct (Z.eqb_spec (at2 shape (r - y) (c - x)) 1) as [H1 | H1].
    + rewrite bool_decide_eq_true_2 by (apply Hpts; exact H1). simpl.
      apply Z.gtb_lt. lia.
    + rewrite bool_decide_eq_false_2 by (rewrite Hpts; exact H1). reflexivity.
  - intros [r c] _ Hd. cbn [fst snd]. apply bool_decide_eq_true_1, Hpts in Hd.
    destruct (Hfits (r - y) (c - x) ltac:(lia)) as (_ & _ & H0).
    replace (y + (r - y)) with r in H0 by lia.
    replace (x + (c - x)) with c in H0 by lia.
    rewrite H0. reflexivity.
Qed.

End FilledCount.

(** Placing a piece on a valid position fills exactly four more cells of
    the board: [getFilledCellCount] grows by 4 and [getEmptyCellCount]
    shrinks by 4, the size of the board being unchanged. *)
Theorem placePiece_fills_four (gb : MyWork.GameBoard) (piece : MyWork.Tetromino)
    (x y : Z) :
  MyWork.validateBoard gb = true ->
  0 <= MyWork.rotation piece < 4 ->
  MyWork.isValidPosition gb piece x y = true ->
  let gb' := snd (MyWork.placePiece gb piece x y) in
  MyWork.getFilledCellCount gb' = MyWork.getFilledCellCount gb + 4
  /\ MyWork.getEmptyCellCount gb' = MyWork.getEmptyCellCount gb - 4.
Proof.
  intros Hv Hr Hval gb'.
  destruct (placePiece_count gb piece x y Hv Hr Hval) as (Hw & Hh & Hcount).
  fold gb' in Hw, Hh, Hcount.
  split; [exact Hcount |].
  unfold MyWork.getEmptyCellCount. rewrite Hw, Hh, Hcount. lia.
Qed.

Lemma placePiece_fills_four_witness :
  let gb' := snd (MyWork.placePiece one_full_row (MyWork.newTetromino MyWork.TT) 3 16) in
  MyWork.getFilledCellCount gb' = MyWork.getFilledCellCount one_full_row + 4
  /\ MyWork.getEmptyCellCount gb' = MyWork.getEmptyCellCount one_full_row - 4.
Proof.
  apply (placePiece_fills_four one_full_row (MyWork.newTetromino MyWork.TT) 3 16).
  - vm_compute. reflexivity.
  - simpl. lia.
  - vm_compute. reflexivity.
Defined.
